(** * sogni-gen: request compiler, seed derivation and job orchestration

    A shallow embedding of [sogni-gen.mjs] (the command line tool that
    requests images and videos from the Sogni generation client) and the
    properties of it that the specification states.

    Layout: the JavaScript values the script handles ([JS]), SHA-256 as
    [crypto.createHash('sha256')] computes it ([Sha256]), [JSON.stringify]
    on the seed payload ([Json]), the options object and its validation
    ([Cli]), the prompt-hash seed ([Seed]), the two event-driven
    orchestrations ([EditRun] for [runImageEditProjectWithEvents],
    [MainRun] for the listeners of [main]), the 360 segment planning and the
    compound multi-angle flow ([Flow]), concrete surroundings and requests
    ([Examples]).  Theorems follow the definitions: the listener table and
    the two orchestrations ([TableFacts], [EditFacts], [MainFacts],
    [OrchestratorFacts]), the seed ([JsonFacts], [SeedFacts]), the request
    compiler ([ProcFacts], [CompileFacts]) and the flows ([FlowFacts]). *)

From Stdlib Require Import ZArith NArith QArith Qround List String Ascii Bool Lia.
From Stdlib Require Import DecimalString DecimalN DecimalZ Permutation.
Import ListNotations.
Set Warnings "-register-all".
Open Scope string_scope.
Open Scope Z_scope.

(* ------------------------------------------------------------------ *)
(** ** JavaScript values *)

Module JS.

(** The result of [parseInt]: an integer or NaN.  Integers are exact in
    the model; the script's values stay far below 2^53, where a double is
    exact too. *)
Inductive jsint : Type :=
| Int (z : Z)
| NaN.

(** A finite number as [Number::toString] prints it in plain decimal
    notation: sign, integer part, digits after the point. *)
Record real : Type := Real {
  negative : bool;
  int_part : N;
  frac_part : Decimal.uint
}.

(** The result of [parseFloat] or [Number]: finite, or NaN / an infinity
    (both fail [Number.isFinite]). *)
Inductive jsfloat : Type :=
| Fin (r : real)
| NonFinite.

Definition real_of_Z (z : Z) : real := Real (z <? 0) (Z.abs_N z) Decimal.Nil.

(** 0.9, 1.0, 4.0 and the like, as the source writes them. *)
Definition r0_9 : real := Real false 0 (Decimal.D9 Decimal.Nil).
Definition r1_0 : real := Real false 1 Decimal.Nil.
Definition r4_0 : real := Real false 4 Decimal.Nil.
Definition r0_5 : real := Real false 0 (Decimal.D5 Decimal.Nil).
Definition r0_7 : real := Real false 0 (Decimal.D7 Decimal.Nil).

Definition N_toString (n : N) : string := NilEmpty.string_of_uint (N.to_uint n).

Definition real_toString (r : real) : string :=
  (if negative r then "-" else "") ++ N_toString (int_part r)
  ++ match frac_part r with
     | Decimal.Nil => ""
     | f => "." ++ NilEmpty.string_of_uint f
     end.

Definition Z_toString (z : Z) : string := real_toString (real_of_Z z).

(** Template literals print NaN as "NaN". *)
Definition jsint_toString (n : jsint) : string :=
  match n with Int z => Z_toString z | NaN => "NaN" end.

(** Truthiness ([if (x)], [x || y], [!x]). *)
Definition truthy_string (s : option string) : bool :=
  match s with
  | Some (String _ _) => true
  | _ => false
  end.

Definition truthy_int (n : jsint) : bool :=
  match n with
  | Int z => negb (z =? 0)
  | NaN => false
  end.

Definition truthy_optint (n : option jsint) : bool :=
  match n with
  | Some v => truthy_int v
  | None => false
  end.

(** [a || b] on strings that may be null. *)
Definition or_string (a b : option string) : option string :=
  if truthy_string a then a else b.

(** [a || ''] *)
Definition or_empty (a : option string) : string :=
  match a with
  | Some s => s
  | None => ""
  end.

Definition isFinite_int (n : jsint) : bool :=
  match n with Int _ => true | NaN => false end.

Definition isFinite_float (x : jsfloat) : bool :=
  match x with Fin _ => true | NonFinite => false end.

(** [a >= b], false as soon as one side is NaN. *)
Definition geb (a b : jsint) : bool :=
  match a, b with
  | Int x, Int y => y <=? x
  | _, _ => false
  end.

(** [a === b] on numbers (NaN differs from itself). *)
Definition int_eqb (a b : jsint) : bool :=
  match a, b with
  | Int x, Int y => x =? y
  | _, _ => false
  end.

(** [Math.round(q)]: the nearest integer, halves towards +infinity. *)
Definition Math_round (q : Q) : Z := Qfloor (q + (1 # 2)).

(** [Math.max(a, Math.round(x / k))] with [k] the length of an array
    that is not empty. *)
Definition max_round_div (a : Z) (x : jsint) (k : Z) : jsint :=
  match x with
  | Int z => Int (Z.max a (Math_round (inject_Z z / inject_Z k)))
  | NaN => NaN
  end.

(** ASCII [toLowerCase]. *)
Definition lower_ascii (c : ascii) : ascii :=
  let n := nat_of_ascii c in
  if ((65 <=? n) && (n <=? 90))%nat then ascii_of_nat (n + 32) else c.

Fixpoint toLowerCase (s : string) : string :=
  match s with
  | EmptyString => EmptyString
  | String c r => String (lower_ascii c) (toLowerCase r)
  end.

Fixpoint startsWith (s p : string) : bool :=
  match p, s with
  | EmptyString, _ => true
  | String a p', String b s' => Ascii.eqb a b && startsWith s' p'
  | String _ _, EmptyString => false
  end.

Fixpoint includes (s sub : string) : bool :=
  startsWith s sub ||
  match s with
  | EmptyString => false
  | String _ r => includes r sub
  end.

(** [list.includes(x)] and [list.indexOf(x)] on string arrays. *)
Fixpoint array_includes (l : list string) (x : string) : bool :=
  match l with
  | [] => false
  | y :: r => String.eqb y x || array_includes r x
  end.

Fixpoint indexOf (l : list string) (x : string) : option nat :=
  match l with
  | [] => None
  | y :: r => if String.eqb y x then Some O
              else option_map S (indexOf r x)
  end.

Fixpoint join (sep : string) (l : list string) : string :=
  match l with
  | [] => ""
  | [x] => x
  | x :: r => x ++ sep ++ join sep r
  end.

(** [s.replace(/_/g, '-')] *)
Fixpoint underscores_to_dashes (s : string) : string :=
  match s with
  | EmptyString => EmptyString
  | String c r =>
      String (if Ascii.eqb c "_"%char then "-"%char else c) (underscores_to_dashes r)
  end.

Definition is_space (c : ascii) : bool :=
  let n := nat_of_ascii c in
  ((n =? 32) || ((9 <=? n) && (n <=? 13)))%nat.

(** [s.replace(/\s+/g, ' ')]: every run of white space becomes one blank. *)
Fixpoint collapse_spaces (in_run : bool) (s : string) : string :=
  match s with
  | EmptyString => EmptyString
  | String c r =>
      if is_space c
      then (if in_run then collapse_spaces true r
            else String " "%char (collapse_spaces true r))
      else String c (collapse_spaces false r)
  end.

Fixpoint trim_start (s : string) : string :=
  match s with
  | String c r => if is_space c then trim_start r else s
  | EmptyString => EmptyString
  end.

Fixpoint string_rev (s : string) : string :=
  match s with
  | EmptyString => EmptyString
  | String c r => string_rev r ++ String c EmptyString
  end.

Definition trim (s : string) : string :=
  string_rev (trim_start (string_rev (trim_start s))).

End JS.

(* ------------------------------------------------------------------ *)
(** ** SHA-256 (FIPS 180-4), as [createHash('sha256')] computes it

    Words are integers in [0, 2^32); a message and a digest are lists of
    bytes, each an integer in [0, 256). *)

Module Sha256.

Definition w32 (x : Z) : Z := x mod 2 ^ 32.
Definition add32 (a b : Z) : Z := w32 (a + b).
Definition rotr (n x : Z) : Z :=
  Z.lor (Z.shiftr x n) (w32 (Z.shiftl x (32 - n))).
Definition shr (n x : Z) : Z := Z.shiftr x n.
Definition not32 (x : Z) : Z := Z.lxor x (2 ^ 32 - 1).

Definition Ch (x y z : Z) : Z := Z.lxor (Z.land x y) (Z.land (not32 x) z).
Definition Maj (x y z : Z) : Z :=
  Z.lxor (Z.lxor (Z.land x y) (Z.land x z)) (Z.land y z).
Definition Sigma0 (x : Z) : Z := Z.lxor (Z.lxor (rotr 2 x) (rotr 13 x)) (rotr 22 x).
Definition Sigma1 (x : Z) : Z := Z.lxor (Z.lxor (rotr 6 x) (rotr 11 x)) (rotr 25 x).
Definition sigma0 (x : Z) : Z := Z.lxor (Z.lxor (rotr 7 x) (rotr 18 x)) (shr 3 x).
Definition sigma1 (x : Z) : Z := Z.lxor (Z.lxor (rotr 17 x) (rotr 19 x)) (shr 10 x).

(** The round constants and the initial hash value are the first 32 bits
    of the fractional parts of the cube roots (square roots) of the first
    primes. *)
Definition is_prime (n : Z) : bool :=
  (1 <? n)
  && forallb (fun d => negb (n mod d =? 0)) (map Z.of_nat (seq 2 (Z.to_nat (Z.sqrt n) - 1))).

Definition primes_below (n : nat) : list Z :=
  filter is_prime (map Z.of_nat (seq 2 (n - 2))).

(** The largest [r] below [2 ^ bits] with [r ^ 3 <= n]. *)
Fixpoint cube_root (bits : nat) (n r : Z) : Z :=
  match bits with
  | O => r
  | S b =>
      let r' := r + 2 ^ Z.of_nat b in
      cube_root b n (if r' * r' * r' <=? n then r' else r)
  end.

Definition fractional_cube_root (p : Z) : Z := cube_root 36 (p * 2 ^ 96) 0 mod 2 ^ 32.
Definition fractional_square_root (p : Z) : Z := Z.sqrt (p * 2 ^ 64) mod 2 ^ 32.

Definition K256 : list Z :=
  Eval vm_compute in map fractional_cube_root (primes_below 312).

Record hstate : Type := mkH {
  ha : Z; hb : Z; hc : Z; hd : Z; he : Z; hf : Z; hg : Z; hh : Z }.

Definition H0 : hstate :=
  Eval vm_compute in
    match map fractional_square_root (primes_below 20) with
    | [a; b; c; d; e; f; g; h] => mkH a b c d e f g h
    | _ => mkH 0 0 0 0 0 0 0 0
    end.

(** The message schedule, most recent word first while it is built. *)
Fixpoint extend (n : nat) (ws : list Z) : list Z :=
  match n with
  | O => ws
  | S n' =>
      let w := add32 (add32 (sigma1 (nth 1 ws 0)) (nth 6 ws 0))
                     (add32 (sigma0 (nth 14 ws 0)) (nth 15 ws 0)) in
      extend n' (w :: ws)
  end.

Definition schedule (block : list Z) : list Z := rev (extend 48 (rev block)).

Definition round (s : hstate) (kw : Z * Z) : hstate :=
  let '(k, w) := kw in
  let t1 := add32 (add32 (add32 (hh s) (Sigma1 (he s))) (Ch (he s) (hf s) (hg s)))
                  (add32 k w) in
  let t2 := add32 (Sigma0 (ha s)) (Maj (ha s) (hb s) (hc s)) in
  mkH (add32 t1 t2) (ha s) (hb s) (hc s) (add32 (hd s) t1) (he s) (hf s) (hg s).

Definition compress (s : hstate) (block : list Z) : hstate :=
  let r := fold_left round (combine K256 (schedule block)) s in
  mkH (add32 (ha s) (ha r)) (add32 (hb s) (hb r)) (add32 (hc s) (hc r))
      (add32 (hd s) (hd r)) (add32 (he s) (he r)) (add32 (hf s) (hf r))
      (add32 (hg s) (hg r)) (add32 (hh s) (hh r)).

Definition be32 (b0 b1 b2 b3 : Z) : Z :=
  b0 * 2 ^ 24 + b1 * 2 ^ 16 + b2 * 2 ^ 8 + b3.

Fixpoint words (fuel : nat) (bs : list Z) : list Z :=
  match fuel, bs with
  | S f, b0 :: b1 :: b2 :: b3 :: rest => be32 b0 b1 b2 b3 :: words f rest
  | _, _ => []
  end.

Fixpoint blocks (fuel : nat) (ws : list Z) : list (list Z) :=
  match fuel, ws with
  | S f, _ :: _ => firstn 16 ws :: blocks f (skipn 16 ws)
  | _, _ => []
  end.

Definition word_bytes (w : Z) : list Z :=
  [ (w / 2 ^ 24) mod 256; (w / 2 ^ 16) mod 256; (w / 2 ^ 8) mod 256; w mod 256 ].

Definition pad (msg : list Z) : list Z :=
  let len := Z.of_nat (List.length msg) in
  let zeros := Z.to_nat ((55 - len) mod 64) in
  msg ++ [0x80] ++ repeat 0 zeros
      ++ word_bytes ((8 * len) / 2 ^ 32) ++ word_bytes (8 * len).

Definition digest_state (msg : list Z) : hstate :=
  let p := pad msg in
  let ws := words (List.length p) p in
  fold_left compress (blocks (List.length ws) ws) H0.

Definition digest (msg : list Z) : list Z :=
  let s := digest_state msg in
  word_bytes (ha s) ++ word_bytes (hb s) ++ word_bytes (hc s) ++ word_bytes (hd s)
  ++ word_bytes (he s) ++ word_bytes (hf s) ++ word_bytes (hg s) ++ word_bytes (hh s).

End Sha256.

(* ------------------------------------------------------------------ *)
(** ** JSON.stringify *)

Module Json.

Inductive value : Type :=
| JNull
| JBool (b : bool)
| JNumber (x : JS.jsfloat)
| JString (s : string)
| JArray (l : list value)
| JObject (l : list (string * value)).

Definition dquote : ascii := "034"%char.
Definition backslash : ascii := "092"%char.

Definition hex_digit (n : nat) : ascii :=
  if (n <? 10)%nat then ascii_of_nat (48 + n) else ascii_of_nat (87 + n).

(** [QuoteJSONString] on one byte of the UTF-8 text: the quote, the
    backslash and the control characters are escaped, the rest is kept. *)
Definition escape_char (c : ascii) : string :=
  let n := nat_of_ascii c in
  if Ascii.eqb c dquote then String backslash (String dquote "")
  else if Ascii.eqb c backslash then String backslash (String backslash "")
  else if (n =? 8)%nat then String backslash "b"
  else if (n =? 9)%nat then String backslash "t"
  else if (n =? 10)%nat then String backslash "n"
  else if (n =? 12)%nat then String backslash "f"
  else if (n =? 13)%nat then String backslash "r"
  else if (n <? 32)%nat
       then String backslash
              ("u00" ++ String (hex_digit (n / 16)) (String (hex_digit (n mod 16)) ""))
  else String c "".

Fixpoint escape (s : string) : string :=
  match s with
  | EmptyString => EmptyString
  | String c r => escape_char c ++ escape r
  end.

Definition quote (s : string) : string :=
  String dquote (escape s ++ String dquote "").

Definition number (x : JS.jsfloat) : string :=
  match x with
  | JS.Fin r => JS.real_toString r
  | JS.NonFinite => "null"
  end.

Fixpoint stringify (v : value) : string :=
  match v with
  | JNull => "null"
  | JBool true => "true"
  | JBool false => "false"
  | JNumber x => number x
  | JString s => quote s
  | JArray l => "[" ++ JS.join "," (map stringify l) ++ "]"
  | JObject l =>
      "{" ++ JS.join "," (map (fun kv => quote (fst kv) ++ ":" ++ stringify (snd kv)) l)
          ++ "}"
  end.

Definition of_int (n : JS.jsint) : value :=
  match n with
  | JS.Int z => JNumber (JS.Fin (JS.real_of_Z z))
  | JS.NaN => JNumber JS.NonFinite
  end.

Definition of_strings (l : list string) : value := JArray (map JString l).
Definition of_reals (l : list JS.real) : value :=
  JArray (map (fun r => JNumber (JS.Fin r)) l).

End Json.

(** The bytes of a text ([hash.update(string)] hashes its UTF-8 bytes, and
    a [string] of the model is that byte sequence). *)
Definition bytes_of_string (s : string) : list Z :=
  map (fun b => Z.of_N (Byte.to_N b)) (list_byte_of_string s).

(* ------------------------------------------------------------------ *)
(** ** The options object *)

Module Cli.

(** [options.angles360Video]: null, [true], or the path that followed the
    flag. *)
Inductive Angles360Video : Type :=
| NoVideo
| VideoFlag
| VideoPath (p : string).

Definition truthy_a360 (a : Angles360Video) : bool :=
  match a with
  | NoVideo => false
  | VideoFlag => true
  | VideoPath p => JS.truthy_string (Some p)
  end.

(** [options], after the argument loop. *)
Record Options : Type := mkOptions {
  prompt : option string;
  output : option string;
  model : option string;
  width : JS.jsint;
  height : JS.jsint;
  count : JS.jsint;
  json : bool;
  quiet : bool;
  timeout : JS.jsint;
  tokenType : option string;
  steps : option JS.jsint;
  guidance : option JS.jsfloat;
  outputFormat : option string;
  sampler : option string;
  scheduler : option string;
  loras : list string;
  loraStrengths : list JS.real;
  multiAngle : bool;
  angles360 : bool;
  azimuth : option string;
  elevation : option string;
  distance : option string;
  angleStrength : option JS.real;
  angleDescription : string;
  seed : option JS.jsint;
  lastSeed : bool;
  seedStrategy : option string;
  video : bool;
  videoWorkflow : option string;
  fps : JS.jsint;
  duration : JS.jsint;
  frames : option JS.jsint;
  autoResizeVideoAssets : option bool;
  estimateVideoCost : bool;
  angles360Video : Angles360Video;
  videoModel : option string;
  refImage : option string;
  refImageEnd : option string;
  refAudio : option string;
  refVideo : option string;
  contextImages : list string;
  _lastImagePath : option string
}.

Definition set_width (v : JS.jsint) (o : Options) : Options :=
  mkOptions (prompt o) (output o) (model o) v (height o) (count o) (json o)
    (quiet o) (timeout o) (tokenType o) (steps o) (guidance o)
    (outputFormat o) (sampler o) (scheduler o) (loras o) (loraStrengths o)
    (multiAngle o) (angles360 o) (azimuth o) (elevation o) (distance o)
    (angleStrength o) (angleDescription o) (seed o) (lastSeed o)
    (seedStrategy o) (video o) (videoWorkflow o) (fps o) (duration o)
    (frames o) (autoResizeVideoAssets o) (estimateVideoCost o)
    (angles360Video o) (videoModel o) (refImage o) (refImageEnd o)
    (refAudio o) (refVideo o) (contextImages o) (_lastImagePath o).

Definition set_height (v : JS.jsint) (o : Options) : Options :=
  mkOptions (prompt o) (output o) (model o) (width o) v (count o) (json o)
    (quiet o) (timeout o) (tokenType o) (steps o) (guidance o)
    (outputFormat o) (sampler o) (scheduler o) (loras o) (loraStrengths o)
    (multiAngle o) (angles360 o) (azimuth o) (elevation o) (distance o)
    (angleStrength o) (angleDescription o) (seed o) (lastSeed o)
    (seedStrategy o) (video o) (videoWorkflow o) (fps o) (duration o)
    (frames o) (autoResizeVideoAssets o) (estimateVideoCost o)
    (angles360Video o) (videoModel o) (refImage o) (refImageEnd o)
    (refAudio o) (refVideo o) (contextImages o) (_lastImagePath o).

Definition set_count (v : JS.jsint) (o : Options) : Options :=
  mkOptions (prompt o) (output o) (model o) (width o) (height o) v (json o)
    (quiet o) (timeout o) (tokenType o) (steps o) (guidance o)
    (outputFormat o) (sampler o) (scheduler o) (loras o) (loraStrengths o)
    (multiAngle o) (angles360 o) (azimuth o) (elevation o) (distance o)
    (angleStrength o) (angleDescription o) (seed o) (lastSeed o)
    (seedStrategy o) (video o) (videoWorkflow o) (fps o) (duration o)
    (frames o) (autoResizeVideoAssets o) (estimateVideoCost o)
    (angles360Video o) (videoModel o) (refImage o) (refImageEnd o)
    (refAudio o) (refVideo o) (contextImages o) (_lastImagePath o).

Definition set_timeout (v : JS.jsint) (o : Options) : Options :=
  mkOptions (prompt o) (output o) (model o) (width o) (height o) (count o)
    (json o) (quiet o) v (tokenType o) (steps o) (guidance o) (outputFormat o)
    (sampler o) (scheduler o) (loras o) (loraStrengths o) (multiAngle o)
    (angles360 o) (azimuth o) (elevation o) (distance o) (angleStrength o)
    (angleDescription o) (seed o) (lastSeed o) (seedStrategy o) (video o)
    (videoWorkflow o) (fps o) (duration o) (frames o)
    (autoResizeVideoAssets o) (estimateVideoCost o) (angles360Video o)
    (videoModel o) (refImage o) (refImageEnd o) (refAudio o) (refVideo o)
    (contextImages o) (_lastImagePath o).

Definition set_tokenType (v : option string) (o : Options) : Options :=
  mkOptions (prompt o) (output o) (model o) (width o) (height o) (count o)
    (json o) (quiet o) (timeout o) v (steps o) (guidance o) (outputFormat o)
    (sampler o) (scheduler o) (loras o) (loraStrengths o) (multiAngle o)
    (angles360 o) (azimuth o) (elevation o) (distance o) (angleStrength o)
    (angleDescription o) (seed o) (lastSeed o) (seedStrategy o) (video o)
    (videoWorkflow o) (fps o) (duration o) (frames o)
    (autoResizeVideoAssets o) (estimateVideoCost o) (angles360Video o)
    (videoModel o) (refImage o) (refImageEnd o) (refAudio o) (refVideo o)
    (contextImages o) (_lastImagePath o).

Definition set_seedStrategy (v : option string) (o : Options) : Options :=
  mkOptions (prompt o) (output o) (model o) (width o) (height o) (count o)
    (json o) (quiet o) (timeout o) (tokenType o) (steps o) (guidance o)
    (outputFormat o) (sampler o) (scheduler o) (loras o) (loraStrengths o)
    (multiAngle o) (angles360 o) (azimuth o) (elevation o) (distance o)
    (angleStrength o) (angleDescription o) (seed o) (lastSeed o) v (video o)
    (videoWorkflow o) (fps o) (duration o) (frames o)
    (autoResizeVideoAssets o) (estimateVideoCost o) (angles360Video o)
    (videoModel o) (refImage o) (refImageEnd o) (refAudio o) (refVideo o)
    (contextImages o) (_lastImagePath o).

Definition set_contextImages (v : list string) (o : Options) : Options :=
  mkOptions (prompt o) (output o) (model o) (width o) (height o) (count o)
    (json o) (quiet o) (timeout o) (tokenType o) (steps o) (guidance o)
    (outputFormat o) (sampler o) (scheduler o) (loras o) (loraStrengths o)
    (multiAngle o) (angles360 o) (azimuth o) (elevation o) (distance o)
    (angleStrength o) (angleDescription o) (seed o) (lastSeed o)
    (seedStrategy o) (video o) (videoWorkflow o) (fps o) (duration o)
    (frames o) (autoResizeVideoAssets o) (estimateVideoCost o)
    (angles360Video o) (videoModel o) (refImage o) (refImageEnd o)
    (refAudio o) (refVideo o) v (_lastImagePath o).

Definition set_lastImagePath (v : option string) (o : Options) : Options :=
  mkOptions (prompt o) (output o) (model o) (width o) (height o) (count o)
    (json o) (quiet o) (timeout o) (tokenType o) (steps o) (guidance o)
    (outputFormat o) (sampler o) (scheduler o) (loras o) (loraStrengths o)
    (multiAngle o) (angles360 o) (azimuth o) (elevation o) (distance o)
    (angleStrength o) (angleDescription o) (seed o) (lastSeed o)
    (seedStrategy o) (video o) (videoWorkflow o) (fps o) (duration o)
    (frames o) (autoResizeVideoAssets o) (estimateVideoCost o)
    (angles360Video o) (videoModel o) (refImage o) (refImageEnd o)
    (refAudio o) (refVideo o) (contextImages o) v.

Definition set_azimuth (v : option string) (o : Options) : Options :=
  mkOptions (prompt o) (output o) (model o) (width o) (height o) (count o)
    (json o) (quiet o) (timeout o) (tokenType o) (steps o) (guidance o)
    (outputFormat o) (sampler o) (scheduler o) (loras o) (loraStrengths o)
    (multiAngle o) (angles360 o) v (elevation o) (distance o)
    (angleStrength o) (angleDescription o) (seed o) (lastSeed o)
    (seedStrategy o) (video o) (videoWorkflow o) (fps o) (duration o)
    (frames o) (autoResizeVideoAssets o) (estimateVideoCost o)
    (angles360Video o) (videoModel o) (refImage o) (refImageEnd o)
    (refAudio o) (refVideo o) (contextImages o) (_lastImagePath o).

Definition set_elevation (v : option string) (o : Options) : Options :=
  mkOptions (prompt o) (output o) (model o) (width o) (height o) (count o)
    (json o) (quiet o) (timeout o) (tokenType o) (steps o) (guidance o)
    (outputFormat o) (sampler o) (scheduler o) (loras o) (loraStrengths o)
    (multiAngle o) (angles360 o) (azimuth o) v (distance o) (angleStrength o)
    (angleDescription o) (seed o) (lastSeed o) (seedStrategy o) (video o)
    (videoWorkflow o) (fps o) (duration o) (frames o)
    (autoResizeVideoAssets o) (estimateVideoCost o) (angles360Video o)
    (videoModel o) (refImage o) (refImageEnd o) (refAudio o) (refVideo o)
    (contextImages o) (_lastImagePath o).

Definition set_distance (v : option string) (o : Options) : Options :=
  mkOptions (prompt o) (output o) (model o) (width o) (height o) (count o)
    (json o) (quiet o) (timeout o) (tokenType o) (steps o) (guidance o)
    (outputFormat o) (sampler o) (scheduler o) (loras o) (loraStrengths o)
    (multiAngle o) (angles360 o) (azimuth o) (elevation o) v (angleStrength o)
    (angleDescription o) (seed o) (lastSeed o) (seedStrategy o) (video o)
    (videoWorkflow o) (fps o) (duration o) (frames o)
    (autoResizeVideoAssets o) (estimateVideoCost o) (angles360Video o)
    (videoModel o) (refImage o) (refImageEnd o) (refAudio o) (refVideo o)
    (contextImages o) (_lastImagePath o).

Definition set_model (v : option string) (o : Options) : Options :=
  mkOptions (prompt o) (output o) v (width o) (height o) (count o) (json o)
    (quiet o) (timeout o) (tokenType o) (steps o) (guidance o)
    (outputFormat o) (sampler o) (scheduler o) (loras o) (loraStrengths o)
    (multiAngle o) (angles360 o) (azimuth o) (elevation o) (distance o)
    (angleStrength o) (angleDescription o) (seed o) (lastSeed o)
    (seedStrategy o) (video o) (videoWorkflow o) (fps o) (duration o)
    (frames o) (autoResizeVideoAssets o) (estimateVideoCost o)
    (angles360Video o) (videoModel o) (refImage o) (refImageEnd o)
    (refAudio o) (refVideo o) (contextImages o) (_lastImagePath o).

Definition set_outputFormat (v : option string) (o : Options) : Options :=
  mkOptions (prompt o) (output o) (model o) (width o) (height o) (count o)
    (json o) (quiet o) (timeout o) (tokenType o) (steps o) (guidance o) v
    (sampler o) (scheduler o) (loras o) (loraStrengths o) (multiAngle o)
    (angles360 o) (azimuth o) (elevation o) (distance o) (angleStrength o)
    (angleDescription o) (seed o) (lastSeed o) (seedStrategy o) (video o)
    (videoWorkflow o) (fps o) (duration o) (frames o)
    (autoResizeVideoAssets o) (estimateVideoCost o) (angles360Video o)
    (videoModel o) (refImage o) (refImageEnd o) (refAudio o) (refVideo o)
    (contextImages o) (_lastImagePath o).

Definition set_sampler (v : option string) (o : Options) : Options :=
  mkOptions (prompt o) (output o) (model o) (width o) (height o) (count o)
    (json o) (quiet o) (timeout o) (tokenType o) (steps o) (guidance o)
    (outputFormat o) v (scheduler o) (loras o) (loraStrengths o)
    (multiAngle o) (angles360 o) (azimuth o) (elevation o) (distance o)
    (angleStrength o) (angleDescription o) (seed o) (lastSeed o)
    (seedStrategy o) (video o) (videoWorkflow o) (fps o) (duration o)
    (frames o) (autoResizeVideoAssets o) (estimateVideoCost o)
    (angles360Video o) (videoModel o) (refImage o) (refImageEnd o)
    (refAudio o) (refVideo o) (contextImages o) (_lastImagePath o).

Definition set_scheduler (v : option string) (o : Options) : Options :=
  mkOptions (prompt o) (output o) (model o) (width o) (height o) (count o)
    (json o) (quiet o) (timeout o) (tokenType o) (steps o) (guidance o)
    (outputFormat o) (sampler o) v (loras o) (loraStrengths o) (multiAngle o)
    (angles360 o) (azimuth o) (elevation o) (distance o) (angleStrength o)
    (angleDescription o) (seed o) (lastSeed o) (seedStrategy o) (video o)
    (videoWorkflow o) (fps o) (duration o) (frames o)
    (autoResizeVideoAssets o) (estimateVideoCost o) (angles360Video o)
    (videoModel o) (refImage o) (refImageEnd o) (refAudio o) (refVideo o)
    (contextImages o) (_lastImagePath o).

Definition set_angleDescription (v : string) (o : Options) : Options :=
  mkOptions (prompt o) (output o) (model o) (width o) (height o) (count o)
    (json o) (quiet o) (timeout o) (tokenType o) (steps o) (guidance o)
    (outputFormat o) (sampler o) (scheduler o) (loras o) (loraStrengths o)
    (multiAngle o) (angles360 o) (azimuth o) (elevation o) (distance o)
    (angleStrength o) v (seed o) (lastSeed o) (seedStrategy o) (video o)
    (videoWorkflow o) (fps o) (duration o) (frames o)
    (autoResizeVideoAssets o) (estimateVideoCost o) (angles360Video o)
    (videoModel o) (refImage o) (refImageEnd o) (refAudio o) (refVideo o)
    (contextImages o) (_lastImagePath o).

Definition set_angleStrength (v : option JS.real) (o : Options) : Options :=
  mkOptions (prompt o) (output o) (model o) (width o) (height o) (count o)
    (json o) (quiet o) (timeout o) (tokenType o) (steps o) (guidance o)
    (outputFormat o) (sampler o) (scheduler o) (loras o) (loraStrengths o)
    (multiAngle o) (angles360 o) (azimuth o) (elevation o) (distance o) v
    (angleDescription o) (seed o) (lastSeed o) (seedStrategy o) (video o)
    (videoWorkflow o) (fps o) (duration o) (frames o)
    (autoResizeVideoAssets o) (estimateVideoCost o) (angles360Video o)
    (videoModel o) (refImage o) (refImageEnd o) (refAudio o) (refVideo o)
    (contextImages o) (_lastImagePath o).

Definition set_loras (v : list string) (o : Options) : Options :=
  mkOptions (prompt o) (output o) (model o) (width o) (height o) (count o)
    (json o) (quiet o) (timeout o) (tokenType o) (steps o) (guidance o)
    (outputFormat o) (sampler o) (scheduler o) v (loraStrengths o)
    (multiAngle o) (angles360 o) (azimuth o) (elevation o) (distance o)
    (angleStrength o) (angleDescription o) (seed o) (lastSeed o)
    (seedStrategy o) (video o) (videoWorkflow o) (fps o) (duration o)
    (frames o) (autoResizeVideoAssets o) (estimateVideoCost o)
    (angles360Video o) (videoModel o) (refImage o) (refImageEnd o)
    (refAudio o) (refVideo o) (contextImages o) (_lastImagePath o).

Definition set_loraStrengths (v : list JS.real) (o : Options) : Options :=
  mkOptions (prompt o) (output o) (model o) (width o) (height o) (count o)
    (json o) (quiet o) (timeout o) (tokenType o) (steps o) (guidance o)
    (outputFormat o) (sampler o) (scheduler o) (loras o) v (multiAngle o)
    (angles360 o) (azimuth o) (elevation o) (distance o) (angleStrength o)
    (angleDescription o) (seed o) (lastSeed o) (seedStrategy o) (video o)
    (videoWorkflow o) (fps o) (duration o) (frames o)
    (autoResizeVideoAssets o) (estimateVideoCost o) (angles360Video o)
    (videoModel o) (refImage o) (refImageEnd o) (refAudio o) (refVideo o)
    (contextImages o) (_lastImagePath o).

Definition set_guidance (v : option JS.jsfloat) (o : Options) : Options :=
  mkOptions (prompt o) (output o) (model o) (width o) (height o) (count o)
    (json o) (quiet o) (timeout o) (tokenType o) (steps o) v (outputFormat o)
    (sampler o) (scheduler o) (loras o) (loraStrengths o) (multiAngle o)
    (angles360 o) (azimuth o) (elevation o) (distance o) (angleStrength o)
    (angleDescription o) (seed o) (lastSeed o) (seedStrategy o) (video o)
    (videoWorkflow o) (fps o) (duration o) (frames o)
    (autoResizeVideoAssets o) (estimateVideoCost o) (angles360Video o)
    (videoModel o) (refImage o) (refImageEnd o) (refAudio o) (refVideo o)
    (contextImages o) (_lastImagePath o).

Definition set_videoWorkflow (v : option string) (o : Options) : Options :=
  mkOptions (prompt o) (output o) (model o) (width o) (height o) (count o)
    (json o) (quiet o) (timeout o) (tokenType o) (steps o) (guidance o)
    (outputFormat o) (sampler o) (scheduler o) (loras o) (loraStrengths o)
    (multiAngle o) (angles360 o) (azimuth o) (elevation o) (distance o)
    (angleStrength o) (angleDescription o) (seed o) (lastSeed o)
    (seedStrategy o) (video o) v (fps o) (duration o) (frames o)
    (autoResizeVideoAssets o) (estimateVideoCost o) (angles360Video o)
    (videoModel o) (refImage o) (refImageEnd o) (refAudio o) (refVideo o)
    (contextImages o) (_lastImagePath o).

Definition set_refImage (v : option string) (o : Options) : Options :=
  mkOptions (prompt o) (output o) (model o) (width o) (height o) (count o)
    (json o) (quiet o) (timeout o) (tokenType o) (steps o) (guidance o)
    (outputFormat o) (sampler o) (scheduler o) (loras o) (loraStrengths o)
    (multiAngle o) (angles360 o) (azimuth o) (elevation o) (distance o)
    (angleStrength o) (angleDescription o) (seed o) (lastSeed o)
    (seedStrategy o) (video o) (videoWorkflow o) (fps o) (duration o)
    (frames o) (autoResizeVideoAssets o) (estimateVideoCost o)
    (angles360Video o) (videoModel o) v (refImageEnd o) (refAudio o)
    (refVideo o) (contextImages o) (_lastImagePath o).

Definition set_seed (v : option JS.jsint) (o : Options) : Options :=
  mkOptions (prompt o) (output o) (model o) (width o) (height o) (count o)
    (json o) (quiet o) (timeout o) (tokenType o) (steps o) (guidance o)
    (outputFormat o) (sampler o) (scheduler o) (loras o) (loraStrengths o)
    (multiAngle o) (angles360 o) (azimuth o) (elevation o) (distance o)
    (angleStrength o) (angleDescription o) v (lastSeed o) (seedStrategy o)
    (video o) (videoWorkflow o) (fps o) (duration o) (frames o)
    (autoResizeVideoAssets o) (estimateVideoCost o) (angles360Video o)
    (videoModel o) (refImage o) (refImageEnd o) (refAudio o) (refVideo o)
    (contextImages o) (_lastImagePath o).

Definition set_fps (v : JS.jsint) (o : Options) : Options :=
  mkOptions (prompt o) (output o) (model o) (width o) (height o) (count o)
    (json o) (quiet o) (timeout o) (tokenType o) (steps o) (guidance o)
    (outputFormat o) (sampler o) (scheduler o) (loras o) (loraStrengths o)
    (multiAngle o) (angles360 o) (azimuth o) (elevation o) (distance o)
    (angleStrength o) (angleDescription o) (seed o) (lastSeed o)
    (seedStrategy o) (video o) (videoWorkflow o) v (duration o) (frames o)
    (autoResizeVideoAssets o) (estimateVideoCost o) (angles360Video o)
    (videoModel o) (refImage o) (refImageEnd o) (refAudio o) (refVideo o)
    (contextImages o) (_lastImagePath o).

Definition set_duration (v : JS.jsint) (o : Options) : Options :=
  mkOptions (prompt o) (output o) (model o) (width o) (height o) (count o)
    (json o) (quiet o) (timeout o) (tokenType o) (steps o) (guidance o)
    (outputFormat o) (sampler o) (scheduler o) (loras o) (loraStrengths o)
    (multiAngle o) (angles360 o) (azimuth o) (elevation o) (distance o)
    (angleStrength o) (angleDescription o) (seed o) (lastSeed o)
    (seedStrategy o) (video o) (videoWorkflow o) (fps o) v (frames o)
    (autoResizeVideoAssets o) (estimateVideoCost o) (angles360Video o)
    (videoModel o) (refImage o) (refImageEnd o) (refAudio o) (refVideo o)
    (contextImages o) (_lastImagePath o).

(** The assignments of the argument loop that the examples use. *)
Definition set_prompt (v : option string) (o : Options) : Options :=
  mkOptions v (output o) (model o) (width o) (height o) (count o) (json o)
    (quiet o) (timeout o) (tokenType o) (steps o) (guidance o)
    (outputFormat o) (sampler o) (scheduler o) (loras o) (loraStrengths o)
    (multiAngle o) (angles360 o) (azimuth o) (elevation o) (distance o)
    (angleStrength o) (angleDescription o) (seed o) (lastSeed o)
    (seedStrategy o) (video o) (videoWorkflow o) (fps o) (duration o)
    (frames o) (autoResizeVideoAssets o) (estimateVideoCost o)
    (angles360Video o) (videoModel o) (refImage o) (refImageEnd o)
    (refAudio o) (refVideo o) (contextImages o) (_lastImagePath o).

Definition set_output (v : option string) (o : Options) : Options :=
  mkOptions (prompt o) v (model o) (width o) (height o) (count o) (json o)
    (quiet o) (timeout o) (tokenType o) (steps o) (guidance o)
    (outputFormat o) (sampler o) (scheduler o) (loras o) (loraStrengths o)
    (multiAngle o) (angles360 o) (azimuth o) (elevation o) (distance o)
    (angleStrength o) (angleDescription o) (seed o) (lastSeed o)
    (seedStrategy o) (video o) (videoWorkflow o) (fps o) (duration o)
    (frames o) (autoResizeVideoAssets o) (estimateVideoCost o)
    (angles360Video o) (videoModel o) (refImage o) (refImageEnd o)
    (refAudio o) (refVideo o) (contextImages o) (_lastImagePath o).

Definition set_json (v : bool) (o : Options) : Options :=
  mkOptions (prompt o) (output o) (model o) (width o) (height o) (count o) v
    (quiet o) (timeout o) (tokenType o) (steps o) (guidance o)
    (outputFormat o) (sampler o) (scheduler o) (loras o) (loraStrengths o)
    (multiAngle o) (angles360 o) (azimuth o) (elevation o) (distance o)
    (angleStrength o) (angleDescription o) (seed o) (lastSeed o)
    (seedStrategy o) (video o) (videoWorkflow o) (fps o) (duration o)
    (frames o) (autoResizeVideoAssets o) (estimateVideoCost o)
    (angles360Video o) (videoModel o) (refImage o) (refImageEnd o)
    (refAudio o) (refVideo o) (contextImages o) (_lastImagePath o).

Definition set_quiet (v : bool) (o : Options) : Options :=
  mkOptions (prompt o) (output o) (model o) (width o) (height o) (count o)
    (json o) v (timeout o) (tokenType o) (steps o) (guidance o)
    (outputFormat o) (sampler o) (scheduler o) (loras o) (loraStrengths o)
    (multiAngle o) (angles360 o) (azimuth o) (elevation o) (distance o)
    (angleStrength o) (angleDescription o) (seed o) (lastSeed o)
    (seedStrategy o) (video o) (videoWorkflow o) (fps o) (duration o)
    (frames o) (autoResizeVideoAssets o) (estimateVideoCost o)
    (angles360Video o) (videoModel o) (refImage o) (refImageEnd o)
    (refAudio o) (refVideo o) (contextImages o) (_lastImagePath o).

Definition set_multiAngle (v : bool) (o : Options) : Options :=
  mkOptions (prompt o) (output o) (model o) (width o) (height o) (count o)
    (json o) (quiet o) (timeout o) (tokenType o) (steps o) (guidance o)
    (outputFormat o) (sampler o) (scheduler o) (loras o) (loraStrengths o) v
    (angles360 o) (azimuth o) (elevation o) (distance o) (angleStrength o)
    (angleDescription o) (seed o) (lastSeed o) (seedStrategy o) (video o)
    (videoWorkflow o) (fps o) (duration o) (frames o)
    (autoResizeVideoAssets o) (estimateVideoCost o) (angles360Video o)
    (videoModel o) (refImage o) (refImageEnd o) (refAudio o) (refVideo o)
    (contextImages o) (_lastImagePath o).

Definition set_angles360 (v : bool) (o : Options) : Options :=
  mkOptions (prompt o) (output o) (model o) (width o) (height o) (count o)
    (json o) (quiet o) (timeout o) (tokenType o) (steps o) (guidance o)
    (outputFormat o) (sampler o) (scheduler o) (loras o) (loraStrengths o)
    (multiAngle o) v (azimuth o) (elevation o) (distance o) (angleStrength o)
    (angleDescription o) (seed o) (lastSeed o) (seedStrategy o) (video o)
    (videoWorkflow o) (fps o) (duration o) (frames o)
    (autoResizeVideoAssets o) (estimateVideoCost o) (angles360Video o)
    (videoModel o) (refImage o) (refImageEnd o) (refAudio o) (refVideo o)
    (contextImages o) (_lastImagePath o).

Definition set_video (v : bool) (o : Options) : Options :=
  mkOptions (prompt o) (output o) (model o) (width o) (height o) (count o)
    (json o) (quiet o) (timeout o) (tokenType o) (steps o) (guidance o)
    (outputFormat o) (sampler o) (scheduler o) (loras o) (loraStrengths o)
    (multiAngle o) (angles360 o) (azimuth o) (elevation o) (distance o)
    (angleStrength o) (angleDescription o) (seed o) (lastSeed o)
    (seedStrategy o) v (videoWorkflow o) (fps o) (duration o) (frames o)
    (autoResizeVideoAssets o) (estimateVideoCost o) (angles360Video o)
    (videoModel o) (refImage o) (refImageEnd o) (refAudio o) (refVideo o)
    (contextImages o) (_lastImagePath o).

Definition set_frames (v : option JS.jsint) (o : Options) : Options :=
  mkOptions (prompt o) (output o) (model o) (width o) (height o) (count o)
    (json o) (quiet o) (timeout o) (tokenType o) (steps o) (guidance o)
    (outputFormat o) (sampler o) (scheduler o) (loras o) (loraStrengths o)
    (multiAngle o) (angles360 o) (azimuth o) (elevation o) (distance o)
    (angleStrength o) (angleDescription o) (seed o) (lastSeed o)
    (seedStrategy o) (video o) (videoWorkflow o) (fps o) (duration o) v
    (autoResizeVideoAssets o) (estimateVideoCost o) (angles360Video o)
    (videoModel o) (refImage o) (refImageEnd o) (refAudio o) (refVideo o)
    (contextImages o) (_lastImagePath o).

Definition set_estimateVideoCost (v : bool) (o : Options) : Options :=
  mkOptions (prompt o) (output o) (model o) (width o) (height o) (count o)
    (json o) (quiet o) (timeout o) (tokenType o) (steps o) (guidance o)
    (outputFormat o) (sampler o) (scheduler o) (loras o) (loraStrengths o)
    (multiAngle o) (angles360 o) (azimuth o) (elevation o) (distance o)
    (angleStrength o) (angleDescription o) (seed o) (lastSeed o)
    (seedStrategy o) (video o) (videoWorkflow o) (fps o) (duration o)
    (frames o) (autoResizeVideoAssets o) v (angles360Video o) (videoModel o)
    (refImage o) (refImageEnd o) (refAudio o) (refVideo o) (contextImages o)
    (_lastImagePath o).

Definition set_angles360Video (v : Angles360Video) (o : Options) : Options :=
  mkOptions (prompt o) (output o) (model o) (width o) (height o) (count o)
    (json o) (quiet o) (timeout o) (tokenType o) (steps o) (guidance o)
    (outputFormat o) (sampler o) (scheduler o) (loras o) (loraStrengths o)
    (multiAngle o) (angles360 o) (azimuth o) (elevation o) (distance o)
    (angleStrength o) (angleDescription o) (seed o) (lastSeed o)
    (seedStrategy o) (video o) (videoWorkflow o) (fps o) (duration o)
    (frames o) (autoResizeVideoAssets o) (estimateVideoCost o) v
    (videoModel o) (refImage o) (refImageEnd o) (refAudio o) (refVideo o)
    (contextImages o) (_lastImagePath o).

(** The initial [options] literal. *)
Definition defaults : Options :=
  mkOptions None None None (JS.Int 512) (JS.Int 512) (JS.Int 1) false false
    (JS.Int 30000) None None None None None None [] [] false false
    (Some "front") (Some "eye-level") (Some "medium") None "" None false None
    false None (JS.Int 16) (JS.Int 5) None None false NoVideo None None None
    None None [] None.

End Cli.

(** The entries of [cliSet] that the script reads back. *)
Module CliSet.
Record t : Type := mk {
  width : bool;
  height : bool;
  count : bool;
  timeout : bool;
  tokenType : bool;
  steps : bool;
  guidance : bool;
  azimuth : bool;
  seedStrategy : bool;
  workflow : bool;
  fps : bool;
  duration : bool;
  frames : bool
}.
Definition none : t :=
  mk false false false false false false false false false false false false false.
End CliSet.

(** The plugin configuration [loadOpenClawPluginConfig] returns.  Numbers
    are the finite ones ([isNumber]); the model keeps the integer ones. *)
Module ModelDefaults.
Record t : Type := mk {
  steps : option Z;
  guidance : option JS.real
}.
End ModelDefaults.

Module OpenClawConfig.
Record t : Type := mk {
  defaultWidth : option Z;
  defaultHeight : option Z;
  defaultCount : option Z;
  defaultTokenType : option string;
  seedStrategy : option string;
  defaultVideoWorkflow : option string;
  defaultFps : option Z;
  defaultDurationSec : option Z;
  defaultVideoTimeoutSec : option Z;
  defaultImageTimeoutSec : option Z;
  videoModels : string -> option string;
  defaultEditModel : option string;
  defaultImageModel : option string;
  modelDefaults : string -> option ModelDefaults.t;
  defaultNetwork : option string
}.
End OpenClawConfig.

(* ------------------------------------------------------------------ *)
(** ** What the script hands to the generation client *)

(** A buffer read from a file or a URL, named by where it was read. *)
Inductive Buffer : Type :=
| BufferOf (source : string).

Module ImageProject.
Record config : Type := mk {
  modelId : option string;
  positivePrompt : option string;
  negativePrompt : string;
  stylePrompt : string;
  numberOfMedia : JS.jsint;
  tokenType : string;
  waitForCompletion : bool;
  sizePreset : string;
  width : JS.jsint;
  height : JS.jsint;
  guidance : JS.jsfloat;
  outputFormat : option string;
  sampler : option string;
  scheduler : option string;
  steps : option JS.jsint;
  seed : option JS.jsint
}.
End ImageProject.

Module VideoProject.
Record config : Type := mk {
  modelId : option string;
  positivePrompt : option string;
  negativePrompt : string;
  stylePrompt : string;
  numberOfMedia : JS.jsint;
  referenceImage : option Buffer;
  referenceImageEnd : option Buffer;
  referenceAudio : option Buffer;
  referenceVideo : option Buffer;
  fps : JS.jsint;
  width : JS.jsint;
  height : JS.jsint;
  tokenType : string;
  waitForCompletion : bool;
  outputFormat : option string;
  autoResizeVideoAssets : option bool;
  frames : option JS.jsint;
  duration : option JS.jsint;
  seed : option JS.jsint;
  steps : option JS.jsint;
  guidance : option JS.jsfloat
}.
End VideoProject.

Module EditProject.
Record config : Type := mk {
  modelId : option string;
  positivePrompt : option string;
  contextImages : list Buffer;
  numberOfMedia : JS.jsint;
  width : JS.jsint;
  height : JS.jsint;
  steps : JS.jsint;
  guidance : JS.jsfloat;
  tokenType : string;
  waitForCompletion : option bool;
  outputFormat : option string;
  sampler : option string;
  scheduler : option string;
  loras : option (list string);
  loraStrengths : option (list JS.real);
  seed : option JS.jsint
}.
End EditProject.

Module VideoCost.
Record params : Type := mk {
  modelId : option string;
  width : JS.jsint;
  height : JS.jsint;
  fps : JS.jsint;
  steps : JS.jsint;
  numberOfMedia : JS.jsint;
  tokenType : string;
  frames : option JS.jsint;
  duration : option JS.jsint
}.
End VideoCost.

(** The payload of a [JOB_COMPLETED] or [JOB_FAILED] event. *)
Module JobEvent.
Record data : Type := mk {
  projectId : option string;
  imageUrl : option string;
  videoUrl : option string;
  jobIndex : option Z;
  job_seed : option JS.jsint;      (* data.job?.data?.seed *)
  error : option string
}.
End JobEvent.

(** One entry of the [results] array. *)
Module JobResult.
Record t : Type := mk {
  imageUrl : option string;
  videoUrl : option string;
  seed : option JS.jsint;
  jobIndex : option Z;
  projectId : option string
}.
End JobResult.

(* ------------------------------------------------------------------ *)
(** ** The prompt-hash seed *)

Module Seed.

(** The [payload] literal of [computePromptHashSeed]. *)
Record payload : Type := mkPayload {
  prompt : string;
  model : string;
  workflow : option string;
  width : JS.jsint;
  height : JS.jsint;
  azimuth : string;
  elevation : string;
  distance : string;
  angleDescription : string;
  outputFormat : string;
  sampler : string;
  scheduler : string;
  loras : list string;
  loraStrengths : list JS.real;
  refImage : string;
  refImageEnd : string;
  refAudio : string;
  refVideo : string;
  contextImages : list string;
  autoResizeVideoAssets : option bool;
  tokenType : string;
  steps : option JS.jsint;
  guidance : option JS.jsfloat
}.

Definition payload_of (opts : Cli.Options) : payload :=
  mkPayload
    (JS.or_empty (Cli.prompt opts))
    (JS.or_empty (Cli.model opts))
    (if Cli.video opts then Cli.videoWorkflow opts else Some "image")
    (Cli.width opts)
    (Cli.height opts)
    (JS.or_empty (Cli.azimuth opts))
    (JS.or_empty (Cli.elevation opts))
    (JS.or_empty (Cli.distance opts))
    (Cli.angleDescription opts)
    (JS.or_empty (Cli.outputFormat opts))
    (JS.or_empty (Cli.sampler opts))
    (JS.or_empty (Cli.scheduler opts))
    (Cli.loras opts)
    (Cli.loraStrengths opts)
    (JS.or_empty (Cli.refImage opts))
    (JS.or_empty (Cli.refImageEnd opts))
    (JS.or_empty (Cli.refAudio opts))
    (JS.or_empty (Cli.refVideo opts))
    (Cli.contextImages opts)
    (Cli.autoResizeVideoAssets opts)
    (JS.or_empty (Cli.tokenType opts))
    (Cli.steps opts)
    (Cli.guidance opts).

Definition of_optstring (s : option string) : Json.value :=
  match s with
  | Some x => Json.JString x
  | None => Json.JNull
  end.

Definition of_optbool (b : option bool) : Json.value :=
  match b with
  | Some x => Json.JBool x
  | None => Json.JNull
  end.

Definition of_optint (n : option JS.jsint) : Json.value :=
  match n with
  | Some x => Json.of_int x
  | None => Json.JNull
  end.

Definition of_optfloat (n : option JS.jsfloat) : Json.value :=
  match n with
  | Some x => Json.JNumber x
  | None => Json.JNull
  end.

(** The properties of the payload, in the order the literal lists them
    (the order [JSON.stringify] writes them in). *)
Definition fields (p : payload) : list (string * Json.value) :=
  [ ("prompt", Json.JString (prompt p));
    ("model", Json.JString (model p));
    ("workflow", of_optstring (workflow p));
    ("width", Json.of_int (width p));
    ("height", Json.of_int (height p));
    ("azimuth", Json.JString (azimuth p));
    ("elevation", Json.JString (elevation p));
    ("distance", Json.JString (distance p));
    ("angleDescription", Json.JString (angleDescription p));
    ("outputFormat", Json.JString (outputFormat p));
    ("sampler", Json.JString (sampler p));
    ("scheduler", Json.JString (scheduler p));
    ("loras", Json.of_strings (loras p));
    ("loraStrengths", Json.of_reals (loraStrengths p));
    ("refImage", Json.JString (refImage p));
    ("refImageEnd", Json.JString (refImageEnd p));
    ("refAudio", Json.JString (refAudio p));
    ("refVideo", Json.JString (refVideo p));
    ("contextImages", Json.of_strings (contextImages p));
    ("autoResizeVideoAssets", of_optbool (autoResizeVideoAssets p));
    ("tokenType", Json.JString (tokenType p));
    ("steps", of_optint (steps p));
    ("guidance", of_optfloat (guidance p)) ].


Definition serialize (p : payload) : string :=
  Json.stringify (Json.JObject (fields p)).

(** [buf.readUInt32BE(0)] *)
Definition readUInt32BE0 (buf : list Z) : Z :=
  Sha256.be32 (nth 0 buf 0) (nth 1 buf 0) (nth 2 buf 0) (nth 3 buf 0).

Definition digest_of (p : payload) : list Z :=
  Sha256.digest (bytes_of_string (serialize p)).

Definition seed_of_payload (p : payload) : Z := readUInt32BE0 (digest_of p).

Definition computePromptHashSeed (opts : Cli.Options) : Z :=
  seed_of_payload (payload_of opts).

End Seed.


(* ------------------------------------------------------------------ *)
(** ** The client's event emitter *)

Module Events.

Inductive ClientEvent : Type :=
| JOB_COMPLETED
| JOB_FAILED
| PROJECT_PROGRESS.

(** A listener is a closure; the model names it by the orchestration that
    created it and by what it is. *)
Inductive Role : Type :=
| OnCompleted
| OnFailed
| OnProgress.

Record Handler : Type := mkHandler {
  owner : nat;
  role : Role
}.

Definition Listeners : Type := list (ClientEvent * Handler).

Definition event_eqb (a b : ClientEvent) : bool :=
  match a, b with
  | JOB_COMPLETED, JOB_COMPLETED => true
  | JOB_FAILED, JOB_FAILED => true
  | PROJECT_PROGRESS, PROJECT_PROGRESS => true
  | _, _ => false
  end.

Definition role_eqb (a b : Role) : bool :=
  match a, b with
  | OnCompleted, OnCompleted => true
  | OnFailed, OnFailed => true
  | OnProgress, OnProgress => true
  | _, _ => false
  end.

Definition handler_eqb (a b : Handler) : bool :=
  Nat.eqb (owner a) (owner b) && role_eqb (role a) (role b).

Definition entry_eqb (a b : ClientEvent * Handler) : bool :=
  event_eqb (fst a) (fst b) && handler_eqb (snd a) (snd b).

(** [client.on(event, handler)] *)
Definition on (l : Listeners) (ev : ClientEvent) (h : Handler) : Listeners :=
  (l ++ [(ev, h)])%list.

(** [removeClientListener(client, event, handler)]: one registration of
    the handler is removed, if there is one. *)
Fixpoint off (l : Listeners) (ev : ClientEvent) (h : Handler) : Listeners :=
  match l with
  | [] => []
  | x :: r => if entry_eqb x (ev, h) then r else x :: off r ev h
  end.

Definition registered (l : Listeners) (ev : ClientEvent) (h : Handler) : bool :=
  existsb (entry_eqb (ev, h)) l.

(** The listeners an orchestration owns. *)
Definition owned_by (run : nat) (l : Listeners) : Listeners :=
  filter (fun x => Nat.eqb (owner (snd x)) run) l.

(** What can happen while an orchestration waits. *)
Inductive Stimulus : Type :=
| Emit (ev : ClientEvent) (data : JobEvent.data)
| Progress (percentage : option Z)
| TimerFired
| SubmitResolved (projectId : option string)   (* projectResult?.project?.id *)
| SubmitRejected (message : string).

(** The promise an orchestration hands back. *)
Inductive Settlement : Type :=
| Pending
| Resolved (results : list JobResult.t) (projectId : option string)
| Rejected (message : string).

Inductive Submission : Type :=
| InFlight
| Returned
| Failed (message : string).

Definition is_pending (p : Settlement) : bool :=
  match p with Pending => true | _ => false end.

(** [resolve(v)] and [reject(e)] settle a pending promise and leave a
    settled one as it is. *)
Definition settle (p v : Settlement) : Settlement :=
  if is_pending p then v else p.

(** [timeoutMs / 1000] as a template literal prints it. *)
Definition seconds (timeoutMs : JS.jsint) : string :=
  match timeoutMs with
  | JS.NaN => "NaN"
  | JS.Int ms =>
      let whole := Z.quot ms 1000 in
      let thousandths := Z.abs_N (Z.rem ms 1000) in
      let digit (n : N) (rest : Decimal.uint) : Decimal.uint :=
        match N.to_uint n with
        | Decimal.D0 _ => match rest with Decimal.Nil => Decimal.Nil | _ => Decimal.D0 rest end
        | Decimal.D1 _ => Decimal.D1 rest
        | Decimal.D2 _ => Decimal.D2 rest
        | Decimal.D3 _ => Decimal.D3 rest
        | Decimal.D4 _ => Decimal.D4 rest
        | Decimal.D5 _ => Decimal.D5 rest
        | Decimal.D6 _ => Decimal.D6 rest
        | Decimal.D7 _ => Decimal.D7 rest
        | Decimal.D8 _ => Decimal.D8 rest
        | _ => Decimal.D9 rest
        end in
      let frac :=
        digit (thousandths / 100)%N
          (digit ((thousandths / 10) mod 10)%N
             (digit (thousandths mod 10)%N Decimal.Nil)) in
      JS.real_toString (JS.Real (ms <? 0) (Z.abs_N whole) frac)
  end.

Definition timeout_message (timeoutMs : JS.jsint) : string :=
  "Timeout after " ++ seconds timeoutMs ++ "s".

End Events.

(* ------------------------------------------------------------------ *)
(** ** The process: console, files, calls to the client, exits *)

Module Proc.

(** What leaves the process, in the order it happens. *)
Inductive Call : Type :=
| Connect
| CreateImageProject (c : ImageProject.config)
| CreateVideoProject (c : VideoProject.config)
| CreateImageEditProject (c : EditProject.config)
| EstimateVideoCost (p : VideoCost.params)
| Concat (outputPath : string) (clips : list string)
| SaveLastRender
| Disconnect.

Record World : Type := mkWorld {
  stdout : list string;
  stderr : list string;
  files : list string;                (* paths written so far *)
  calls : list Call;
  listeners : Events.Listeners;       (* the client's listener table *)
  runs : nat                          (* orchestrations started so far *)
}.

Definition start : World := mkWorld [] [] [] [] [] O.

(** A step returns, throws an [Error] with a message, ends the process
    ([process.exit(code)]), or waits on a promise that never settles. *)
Inductive outcome (A : Type) : Type :=
| Return (a : A)
| Throw (message : string)
| Exit (code : Z)
| Stuck.
Arguments Return {A} a.
Arguments Throw {A} message.
Arguments Exit {A} code.
Arguments Stuck {A}.

Definition M (A : Type) : Type := World -> outcome A * World.

Definition ret {A} (a : A) : M A := fun w => (Return a, w).

Definition bind {A B} (m : M A) (k : A -> M B) : M B :=
  fun w =>
    match m w with
    | (Return a, w') => k a w'
    | (Throw e, w') => (Throw e, w')
    | (Exit c, w') => (Exit c, w')
    | (Stuck, w') => (Stuck, w')
    end.

Definition throw {A} (message : string) : M A := fun w => (Throw message, w).
Definition process_exit {A} (code : Z) : M A := fun w => (Exit code, w).
Definition stuck {A} : M A := fun w => (Stuck, w).

Definition console_error (line : string) : M unit :=
  fun w => (Return tt,
            mkWorld (stdout w) (stderr w ++ [line])%list (files w) (calls w)
                    (listeners w) (runs w)).

Definition console_log (line : string) : M unit :=
  fun w => (Return tt,
            mkWorld (stdout w ++ [line])%list (stderr w) (files w) (calls w)
                    (listeners w) (runs w)).

Definition writeFile (path : string) : M unit :=
  fun w => (Return tt,
            mkWorld (stdout w) (stderr w) (files w ++ [path])%list (calls w)
                    (listeners w) (runs w)).

Definition call (c : Call) : M unit :=
  fun w => (Return tt,
            mkWorld (stdout w) (stderr w) (files w) (calls w ++ [c])%list
                    (listeners w) (runs w)).

Definition get_listeners : M Events.Listeners := fun w => (Return (listeners w), w).

Definition set_listeners (l : Events.Listeners) : M unit :=
  fun w => (Return tt, mkWorld (stdout w) (stderr w) (files w) (calls w) l (runs w)).

(** A number no earlier orchestration has. *)
Definition fresh_run : M nat :=
  fun w => (Return (runs w),
            mkWorld (stdout w) (stderr w) (files w) (calls w) (listeners w) (S (runs w))).

(** [try { m } catch (error) { h error.message }] *)
Definition try_catch {A} (m : M A) (h : string -> M A) : M A :=
  fun w =>
    match m w with
    | (Throw e, w') => h e w'
    | r => r
    end.

Definition when (b : bool) (m : M unit) : M unit := if b then m else ret tt.

(** [console.error(msg); process.exit(1)] *)
Definition fail {A} (line : string) : M A :=
  bind (console_error line) (fun _ => process_exit 1).

Fixpoint each {A} (f : A -> M unit) (l : list A) : M unit :=
  match l with
  | [] => ret tt
  | x :: r => bind (f x) (fun _ => each f r)
  end.

End Proc.

Notation "x <- m ;; k" := (Proc.bind m (fun x => k))
  (at level 61, m at next level, right associativity).
Notation "m ;;; k" := (Proc.bind m (fun _ => k))
  (at level 61, right associativity).

(** A text between double quotes, for the messages that quote a value. *)
Definition quoted (s : string) : string :=
  String Json.dquote (s ++ String Json.dquote "").

(* ------------------------------------------------------------------ *)
(** ** The request compiler: defaults, normalization and validation of
    the options (the top-level statements between the argument loop and
    [main]) *)

Module Compile.
Import Cli.

(** The persisted last render, as [--last-seed] finds it. *)
Inductive LastRender : Type :=
| NoFile
| Unparsable
| Rendered (seed : option JS.jsint).

(** What the script reads from its surroundings. *)
Record Env : Type := mkEnv {
  openclawConfig : option OpenClawConfig.t;
  getMaxContextImages : option string -> Z;
  lastRender : LastRender;
  randomSeed : Z                 (* randomBytes(4).readUInt32BE(0) *)
}.

Definition cfg {A} (e : Env) (f : OpenClawConfig.t -> option A) : option A :=
  match openclawConfig e with
  | Some c => f c
  | None => None
  end.

Definition VIDEO_WORKFLOW_DEFAULT_MODELS (workflow : string) : option string :=
  if String.eqb workflow "t2v" then Some "wan_v2.2-14b-fp8_t2v_lightx2v"
  else if String.eqb workflow "i2v" then Some "wan_v2.2-14b-fp8_i2v_lightx2v"
  else if String.eqb workflow "s2v" then Some "wan_v2.2-14b-fp8_s2v_lightx2v"
  else if String.eqb workflow "animate-move"
       then Some "wan_v2.2-14b-fp8_animate-move_lightx2v"
  else if String.eqb workflow "animate-replace"
       then Some "wan_v2.2-14b-fp8_animate-replace_lightx2v"
  else None.

Definition one_of (s : string) (l : list string) : bool := JS.array_includes l s.

Definition normalizeVideoWorkflow (value : option string) : option string :=
  if negb (JS.truthy_string value) then None
  else
    let normalized := JS.toLowerCase (JS.or_empty value) in
    if one_of normalized ["t2v"; "text-to-video"] then Some "t2v"
    else if one_of normalized ["i2v"; "image-to-video"] then Some "i2v"
    else if one_of normalized ["s2v"; "sound-to-video"] then Some "s2v"
    else if one_of normalized ["animate-move"; "animate_move"] then Some "animate-move"
    else if one_of normalized ["animate-replace"; "animate_replace"]
         then Some "animate-replace"
    else None.

Definition inferVideoWorkflowFromModel (modelId : option string) : option string :=
  if negb (JS.truthy_string modelId) then None
  else
    let id := JS.toLowerCase (JS.or_empty modelId) in
    if JS.includes id "animate-move" then Some "animate-move"
    else if JS.includes id "animate-replace" then Some "animate-replace"
    else if JS.includes id "_t2v" || JS.includes id "-t2v" then Some "t2v"
    else if JS.includes id "_i2v" || JS.includes id "-i2v" then Some "i2v"
    else if JS.includes id "_s2v" || JS.includes id "-s2v" then Some "s2v"
    else None.

Definition inferVideoWorkflowFromAssets (opts : Options) : option string :=
  if JS.truthy_string (refVideo opts) then Some "animate-move"
  else if JS.truthy_string (refAudio opts) then Some "s2v"
  else if JS.truthy_string (refImage opts) || JS.truthy_string (refImageEnd opts)
       then Some "i2v"
  else None.

Definition workflowRequiresImage (workflow : option string) : bool :=
  match workflow with
  | Some w => one_of w ["i2v"; "s2v"; "animate-move"; "animate-replace"]
  | None => false
  end.

Definition normalizeSeedStrategy (value : option string) : option string :=
  if negb (JS.truthy_string value) then None
  else
    let normalized := JS.toLowerCase (JS.or_empty value) in
    if String.eqb normalized "random" then Some "random"
    else if one_of normalized ["prompt-hash"; "prompt_hash"] then Some "prompt-hash"
    else None.

Definition MULTI_ANGLE_AZIMUTHS : list (string * string) :=
  [ ("front", "front view");
    ("front-right", "front-right quarter view");
    ("right", "right side view");
    ("back-right", "back-right quarter view");
    ("back", "back view");
    ("back-left", "back-left quarter view");
    ("left", "left side view");
    ("front-left", "front-left quarter view") ].

Definition MULTI_ANGLE_ELEVATIONS : list (string * string) :=
  [ ("low-angle", "low-angle shot");
    ("eye-level", "eye-level shot");
    ("elevated", "elevated shot");
    ("high-angle", "high-angle shot") ].

Definition MULTI_ANGLE_DISTANCES : list (string * string) :=
  [ ("close-up", "close-up");
    ("medium", "medium shot");
    ("wide", "wide shot") ].

Definition MULTI_ANGLE_AZIMUTH_ALIASES : list (string * string) :=
  [ ("front-right quarter", "front-right");
    ("front right quarter", "front-right");
    ("back-right quarter", "back-right");
    ("back right quarter", "back-right");
    ("back-left quarter", "back-left");
    ("back left quarter", "back-left");
    ("front-left quarter", "front-left");
    ("front left quarter", "front-left") ].

Definition MULTI_ANGLE_ELEVATION_ALIASES : list (string * string) :=
  [ ("low angle", "low-angle");
    ("eye level", "eye-level");
    ("high angle", "high-angle") ].

Definition MULTI_ANGLE_DISTANCE_ALIASES : list (string * string) :=
  [ ("close up", "close-up");
    ("medium shot", "medium");
    ("wide shot", "wide") ].

(** [map.get(key)] / [array.find(e => e.key === key)?.prompt] *)
Fixpoint lookup (table : list (string * string)) (key : string) : option string :=
  match table with
  | [] => None
  | (k, v) :: r => if String.eqb k key then Some v else lookup r key
  end.

Definition normalizeMultiAngleValue (value : option string)
    (aliases : list (string * string)) (allowedKeys : list string)
    (label : string) : Proc.M (option string) :=
  if negb (JS.truthy_string value) then Proc.ret None
  else
    let raw := JS.or_empty value in
    let normalized :=
      JS.trim (JS.collapse_spaces false (JS.underscores_to_dashes (JS.toLowerCase raw))) in
    let aliased := JS.or_empty (JS.or_string (lookup aliases normalized) (Some normalized)) in
    if negb (JS.array_includes allowedKeys aliased)
    then Proc.fail ("Error: Invalid " ++ label ++ " " ++ quoted raw
                    ++ ". Valid options: " ++ JS.join ", " allowedKeys)
    else Proc.ret (Some aliased).

Definition buildMultiAnglePrompt (azimuth elevation distance : option string)
    (description : string) : string :=
  let find table key :=
    match key with Some k => lookup table k | None => None end in
  let parts :=
    filter JS.truthy_string
      [ Some "<sks>"; find MULTI_ANGLE_AZIMUTHS azimuth;
        find MULTI_ANGLE_ELEVATIONS elevation; find MULTI_ANGLE_DISTANCES distance ] in
  let parts := if JS.truthy_string (Some description)
               then (parts ++ [Some description])%list else parts in
  JS.join " " (map JS.or_empty parts).

Definition int_opt (z : option Z) : option JS.jsint := option_map JS.Int z.

Definition or_else {A} (a : option A) (d : A) : A :=
  match a with Some x => x | None => d end.

(** [if (openclawConfig) { ... }]: the configured defaults, where the
    command line did not set the option.  Returns [timeoutFromConfig]
    beside the options. *)
Definition applyConfig (e : Env) (cs : CliSet.t) (o : Options) : Options * bool :=
  match openclawConfig e with
  | None => (o, false)
  | Some c =>
      let take {A} (isSet : bool) (d : option A) (set : A -> Options -> Options)
                   (o : Options) : Options :=
        match d with
        | Some v => if isSet then o else set v o
        | None => o
        end in
      let o := take (CliSet.width cs) (int_opt (OpenClawConfig.defaultWidth c)) set_width o in
      let o := take (CliSet.height cs) (int_opt (OpenClawConfig.defaultHeight c)) set_height o in
      let o := take (CliSet.count cs) (int_opt (OpenClawConfig.defaultCount c)) set_count o in
      let o := if negb (CliSet.tokenType cs)
                  && JS.truthy_string (OpenClawConfig.defaultTokenType c)
               then set_tokenType (OpenClawConfig.defaultTokenType c) o else o in
      let o := if negb (CliSet.seedStrategy cs)
                  && JS.truthy_string (OpenClawConfig.seedStrategy c)
               then set_seedStrategy (OpenClawConfig.seedStrategy c) o else o in
      if video o then
        let o := if negb (CliSet.workflow cs)
                    && JS.truthy_string (OpenClawConfig.defaultVideoWorkflow c)
                 then set_videoWorkflow (OpenClawConfig.defaultVideoWorkflow c) o else o in
        let o := take (CliSet.fps cs) (int_opt (OpenClawConfig.defaultFps c)) set_fps o in
        let o := take (CliSet.frames cs || CliSet.duration cs)
                      (int_opt (OpenClawConfig.defaultDurationSec c)) set_duration o in
        match OpenClawConfig.defaultVideoTimeoutSec c with
        | Some s => if CliSet.timeout cs then (o, false)
                    else (set_timeout (JS.Int (s * 1000)) o, true)
        | None => (o, false)
        end
      else
        match OpenClawConfig.defaultImageTimeoutSec c with
        | Some s => if CliSet.timeout cs then (o, false)
                    else (set_timeout (JS.Int (s * 1000)) o, true)
        | None => (o, false)
        end
  end.

Definition checkTokenType (o : Options) : Proc.M Options :=
  if JS.truthy_string (tokenType o) then
    let token := JS.toLowerCase (JS.or_empty (tokenType o)) in
    if negb (String.eqb token "spark") && negb (String.eqb token "sogni")
    then Proc.fail ("Error: --token-type must be " ++ quoted "spark" ++ " or "
                    ++ quoted "sogni" ++ ".")
    else Proc.ret (set_tokenType (Some token) o)
  else Proc.ret o.

Definition checkSeedStrategy (o : Options) : Proc.M Options :=
  if JS.truthy_string (seedStrategy o) then
    match normalizeSeedStrategy (seedStrategy o) with
    | None => Proc.fail ("Error: --seed-strategy must be " ++ quoted "random" ++ " or "
                         ++ quoted "prompt-hash" ++ ".")
    | Some s => Proc.ret (set_seedStrategy (Some s) o)
    end
  else Proc.ret o.

Definition finite_optint (n : option JS.jsint) : bool :=
  match n with Some v => JS.isFinite_int v | None => false end.

Definition finite_optfloat (n : option JS.jsfloat) : bool :=
  match n with Some v => JS.isFinite_float v | None => false end.

Definition checkNumbers (cs : CliSet.t) (o : Options) : Proc.M Options :=
  if CliSet.steps cs && negb (finite_optint (steps o))
  then Proc.fail "Error: --steps must be a number."
  else if CliSet.guidance cs && negb (finite_optfloat (guidance o))
  then Proc.fail "Error: --guidance must be a number."
  else Proc.ret o.

Definition MULTIPLE_ANGLES : string := "multiple_angles".

Definition is_empty {A} (l : list A) : bool :=
  match l with [] => true | _ => false end.

(** A lone [--lora-strength] without any [--lora] is the angle strength. *)
Definition loneStrength (o : Options) : Proc.M Options :=
  if is_empty (loras o) && negb (is_empty (loraStrengths o)) then
    if (1 <? List.length (loraStrengths o))%nat
    then Proc.fail
           "Error: --lora-strengths requires explicit --loras when using --multi-angle."
    else
      let o := match angleStrength o with
               | None => set_angleStrength (hd_error (loraStrengths o)) o
               | Some _ => o
               end in
      Proc.ret (set_loraStrengths [] o)
  else Proc.ret o.

Definition defaultGuidance (cs : CliSet.t) (o : Options) : Options :=
  match guidance o with
  | None =>
      if negb (CliSet.guidance cs)
      then set_guidance
             (Some (JS.Fin (if JS.includes (JS.or_empty (model o)) "lightning"
                            then JS.r1_0 else JS.r4_0))) o
      else o
  | Some _ => o
  end.

(** [arr[i] = v]: inside the array the entry is replaced, at its end one
    is added. *)
Fixpoint array_set {A} (l : list A) (i : nat) (v : A) : list A :=
  match l, i with
  | [], _ => [v]
  | _ :: r, O => v :: r
  | x :: r, S j => x :: array_set r j v
  end.

(** The angle strength, the [multiple_angles] LoRA and its strength (from
    the default of [options.angleStrength] to the end of the block). *)
Definition ensureMultipleAngles (o : Options) : Options :=
  let multiAngleStrength := or_else (angleStrength o) JS.r0_9 in
  let o := set_angleStrength (Some multiAngleStrength) o in
  let '(o, multiAngleIndex) :=
    match JS.indexOf (loras o) MULTIPLE_ANGLES with
    | None =>
        let o1 := set_loras (loras o ++ [MULTIPLE_ANGLES])%list o in
        let index := (List.length (loras o1) - 1)%nat in
        if negb (is_empty (loraStrengths o1))
        then (set_loraStrengths (loraStrengths o1 ++ [multiAngleStrength])%list o1, index)
        else (o1, index)
    | Some index => (o, index)
    end in
  if is_empty (loraStrengths o) && negb (is_empty (loras o))
  then set_loraStrengths
         (map (fun id => if String.eqb id MULTIPLE_ANGLES
                         then multiAngleStrength else JS.r1_0) (loras o)) o
  else if (List.length (loraStrengths o) =? List.length (loras o))%nat
  then match nth_error (loraStrengths o) multiAngleIndex with
       | None => set_loraStrengths
                   (array_set (loraStrengths o) multiAngleIndex multiAngleStrength) o
       | Some _ => o
       end
  else o.

Definition multiAngleBlock (cs : CliSet.t) (o : Options) : Proc.M Options :=
  if negb (multiAngle o) then Proc.ret o
  else if video o then Proc.fail "Error: --multi-angle is only for image editing."
  else if truthy_a360 (angles360Video o) && negb (angles360 o)
  then Proc.fail "Error: --angles-360-video requires --angles-360."
  else if truthy_a360 (angles360Video o) && negb (JS.int_eqb (count o) (JS.Int 1))
  then Proc.fail "Error: --angles-360-video requires --count 1."
  else
    let o := if JS.truthy_string (_lastImagePath o) && is_empty (contextImages o)
             then set_lastImagePath None
                    (set_contextImages [JS.or_empty (_lastImagePath o)] o)
             else o in
    if is_empty (contextImages o)
    then Proc.fail
           "Error: --multi-angle requires a reference image (--context or --last-image)."
    else
      o <- (if negb (angles360 o)
            then (a <- normalizeMultiAngleValue (azimuth o) MULTI_ANGLE_AZIMUTH_ALIASES
                         (map fst MULTI_ANGLE_AZIMUTHS) "azimuth" ;;
                  Proc.ret (set_azimuth a o))
            else (Proc.when (negb (quiet o) && CliSet.azimuth cs)
                    (Proc.console_error "Warning: --azimuth ignored for --angles-360.") ;;;
                  Proc.ret o)) ;;
      el <- normalizeMultiAngleValue (elevation o) MULTI_ANGLE_ELEVATION_ALIASES
              (map fst MULTI_ANGLE_ELEVATIONS) "elevation" ;;
      let o := set_elevation el o in
      di <- normalizeMultiAngleValue (distance o) MULTI_ANGLE_DISTANCE_ALIASES
              (map fst MULTI_ANGLE_DISTANCES) "distance" ;;
      let o := set_distance di o in
      if JS.truthy_string (model o)
         && negb (JS.includes (JS.or_empty (model o)) "qwen_image_edit_2511")
      then Proc.fail "Error: --multi-angle requires a Qwen Image Edit 2511 model."
      else
        let o := if JS.truthy_string (model o) then o
                 else set_model (Some "qwen_image_edit_2511_fp8_lightning") o in
        let o := if JS.truthy_string (outputFormat o) then o
                 else set_outputFormat (Some "jpg") o in
        let o := if JS.truthy_string (sampler o) then o
                 else set_sampler (Some "euler") o in
        let o := if JS.truthy_string (scheduler o) then o
                 else set_scheduler (Some "simple") o in
        let o := if negb (JS.truthy_string (Some (angleDescription o)))
                    && JS.truthy_string (prompt o)
                 then set_angleDescription (JS.or_empty (prompt o)) o else o in
        o <- loneStrength o ;;
        Proc.ret (ensureMultipleAngles (defaultGuidance cs o)).


Definition checkOutputFormat (o : Options) : Proc.M Options :=
  if JS.truthy_string (outputFormat o) then
    let normalized := JS.toLowerCase (JS.or_empty (outputFormat o)) in
    let format := if String.eqb normalized "jpeg" then "jpg" else normalized in
    let o := set_outputFormat (Some format) o in
    if video o then
      if negb (String.eqb format "mp4")
      then Proc.fail ("Error: Video output format must be " ++ quoted "mp4" ++ ".")
      else Proc.ret o
    else if negb (one_of format ["png"; "jpg"])
    then Proc.fail ("Error: Image output format must be " ++ quoted "png" ++ " or "
                    ++ quoted "jpg" ++ ".")
    else Proc.ret o
  else Proc.ret o.

(** The mutual-exclusion rules on LoRA, sampler, scheduler and the
    video-only flags. *)
Definition checkExclusive (o : Options) : Proc.M Options :=
  if negb (is_empty (loraStrengths o)) && is_empty (loras o)
  then Proc.fail "Error: --lora-strength requires at least one --lora."
  else if negb (is_empty (loraStrengths o)) && negb (is_empty (loras o))
          && negb (List.length (loraStrengths o) =? List.length (loras o))%nat
  then Proc.fail "Error: --lora-strengths count must match --loras count."
  else if video o && negb (is_empty (loras o))
  then Proc.fail "Error: --lora options are image-only."
  else if video o && (JS.truthy_string (sampler o) || JS.truthy_string (scheduler o))
  then Proc.fail "Error: --sampler/--scheduler are image-only options."
  else if negb (video o)
          && match autoResizeVideoAssets o with Some _ => true | None => false end
  then Proc.fail "Error: --auto-resize-assets is only valid with --video."
  else if estimateVideoCost o && negb (video o)
  then Proc.fail "Error: --estimate-video-cost requires --video."
  else if truthy_a360 (angles360Video o) && negb (angles360 o)
  then Proc.fail "Error: --angles-360-video requires --angles-360."
  else Proc.ret o.

Definition optstring_eqb (a b : option string) : bool :=
  match a, b with
  | Some x, Some y => String.eqb x y
  | None, None => true
  | _, _ => false
  end.

Definition resolveWorkflow (e : Env) (o : Options) : Proc.M Options :=
  if negb (video o) then Proc.ret o
  else
    o <- (if JS.truthy_string (videoWorkflow o) then
            match normalizeVideoWorkflow (videoWorkflow o) with
            | None =>
                Proc.fail ("Error: Unknown workflow "
                           ++ quoted (JS.or_empty (videoWorkflow o))
                           ++ ". Use t2v|i2v|s2v|animate-move|animate-replace.")
            | Some w => Proc.ret (set_videoWorkflow (Some w) o)
            end
          else Proc.ret o) ;;
    let workflowFromModel := inferVideoWorkflowFromModel (model o) in
    if JS.truthy_string (videoWorkflow o) && JS.truthy_string workflowFromModel
       && negb (optstring_eqb (videoWorkflow o) workflowFromModel)
    then Proc.fail ("Error: Workflow " ++ quoted (JS.or_empty (videoWorkflow o))
                    ++ " does not match model " ++ quoted (JS.or_empty (model o)) ++ ".")
    else if negb (JS.truthy_string (videoWorkflow o))
    then Proc.ret
           (set_videoWorkflow
              (JS.or_string workflowFromModel
                 (JS.or_string (inferVideoWorkflowFromAssets o)
                    (JS.or_string (cfg e OpenClawConfig.defaultVideoWorkflow)
                       (Some "t2v")))) o)
    else Proc.ret o.

(** [--last-image], once the workflow is known. *)
Definition resolveLastImage (o : Options) : Proc.M Options :=
  if JS.truthy_string (_lastImagePath o) then
    o <- (if video o then
            if workflowRequiresImage (videoWorkflow o)
            then Proc.ret (if JS.truthy_string (refImage o) then o
                           else set_refImage (_lastImagePath o) o)
            else (Proc.when (negb (quiet o))
                    (Proc.console_error
                       "Warning: --last-image ignored for text-to-video workflow.") ;;;
                  Proc.ret o)
          else Proc.ret (set_contextImages
                           (contextImages o ++ [JS.or_empty (_lastImagePath o)])%list o)) ;;
    Proc.ret (set_lastImagePath None o)
  else Proc.ret o.

(** The default model and timeout by type of request. *)
Definition applyTypeDefaults (e : Env) (cs : CliSet.t) (timeoutFromConfig : bool)
    (o : Options) : Options :=
  let untouched :=
    negb (CliSet.timeout cs) && negb timeoutFromConfig
    && JS.int_eqb (timeout o) (JS.Int 30000) in
  if video o then
    let cfgModel :=
      match videoWorkflow o, openclawConfig e with
      | Some w, Some c =>
          if JS.truthy_string (Some w) then OpenClawConfig.videoModels c w else None
      | _, _ => None
      end in
    let byWorkflow :=
      match videoWorkflow o with
      | Some w => VIDEO_WORKFLOW_DEFAULT_MODELS w
      | None => None
      end in
    let o := set_model
               (JS.or_string (model o)
                  (JS.or_string cfgModel
                     (JS.or_string byWorkflow (Some "wan_v2.2-14b-fp8_i2v_lightx2v")))) o in
    if untouched then set_timeout (JS.Int 300000) o else o
  else if negb (is_empty (contextImages o)) then
    let o := set_model
               (JS.or_string (model o)
                  (JS.or_string (cfg e OpenClawConfig.defaultEditModel)
                     (Some "qwen_image_edit_2511_fp8_lightning"))) o in
    if untouched then set_timeout (JS.Int 60000) o else o
  else
    set_model
      (JS.or_string (model o)
         (JS.or_string (cfg e OpenClawConfig.defaultImageModel)
            (Some "z_image_turbo_bf16"))) o.

Definition checkPrompt (o : Options) : Proc.M Options :=
  if negb (JS.truthy_string (prompt o)) && negb (estimateVideoCost o)
     && negb (multiAngle o)
  then Proc.fail "Error: No prompt provided. Use --help for usage."
  else if negb (video o)
          && (JS.truthy_string (refAudio o) || JS.truthy_string (refVideo o)
              || JS.truthy_string (videoWorkflow o) || JS.truthy_optint (frames o))
  then Proc.fail
         "Error: Video-only options (--workflow/--frames/--ref-audio/--ref-video) require --video"
  else Proc.ret o.

(** The reference assets each workflow requires and refuses. *)
Definition checkAssets (o : Options) : Proc.M Options :=
  let has f := JS.truthy_string (f o) in
  let workflow_is w := optstring_eqb (videoWorkflow o) (Some w) in
  if negb (video o) then Proc.ret o
  else if workflow_is "t2v" then
    if has refImage || has refImageEnd || has refAudio || has refVideo
    then Proc.fail "Error: t2v does not accept reference image/audio/video."
    else Proc.ret o
  else if workflow_is "i2v" then
    if negb (has refImage) && negb (has refImageEnd)
    then Proc.fail "Error: i2v requires --ref and/or --ref-end."
    else if has refAudio || has refVideo
    then Proc.fail "Error: i2v does not accept reference audio/video."
    else Proc.ret o
  else if workflow_is "s2v" then
    if negb (has refImage) || negb (has refAudio)
    then Proc.fail "Error: s2v requires both --ref and --ref-audio."
    else if has refVideo
    then Proc.fail "Error: s2v does not accept reference video."
    else Proc.ret o
  else if workflow_is "animate-move" || workflow_is "animate-replace" then
    if negb (has refImage) || negb (has refVideo)
    then Proc.fail "Error: animate workflows require both --ref and --ref-video."
    else if has refAudio
    then Proc.fail "Error: animate workflows do not accept reference audio."
    else Proc.ret o
  else Proc.ret o.

(** The context images against the model's capacity. *)
Definition checkContextImages (e : Env) (o : Options) : Proc.M Options :=
  if negb (is_empty (contextImages o)) && negb (video o) then
    let maxImages := getMaxContextImages e (model o) in
    let given := Z.of_nat (List.length (contextImages o)) in
    if maxImages =? 0 then
      Proc.console_error ("Error: Model " ++ JS.or_empty (model o)
                          ++ " does not support context images.") ;;;
      Proc.console_error
        "Try: qwen_image_edit_2511_fp8 or qwen_image_edit_2511_fp8_lightning" ;;;
      Proc.process_exit 1
    else if maxImages <? given
    then Proc.fail ("Error: Model " ++ JS.or_empty (model o) ++ " supports max "
                    ++ JS.Z_toString maxImages ++ " context images, got "
                    ++ JS.Z_toString given)
    else Proc.ret o
  else Proc.ret o.

Definition loadLastSeed (e : Env) (o : Options) : Proc.M Options :=
  if lastSeed o then
    match lastRender e with
    | Rendered s =>
        if JS.truthy_optint s then
          let o := set_seed s o in
          Proc.when (negb (quiet o))
            (Proc.console_error ("Using seed from last render: "
                                 ++ JS.jsint_toString (or_else s JS.NaN))) ;;;
          Proc.ret o
        else Proc.ret o
    | Unparsable =>
        Proc.console_error "Warning: Could not load last render seed" ;;;
        Proc.ret o
    | NoFile =>
        Proc.console_error "Warning: No previous render found, generating seed" ;;;
        Proc.ret o
    end
  else Proc.ret o.

Definition deriveSeed (e : Env) (o : Options) : Proc.M Options :=
  match seed o with
  | None =>
      if estimateVideoCost o then Proc.ret o
      else
        let strategy :=
          JS.or_string (seedStrategy o)
            (JS.or_string (cfg e OpenClawConfig.seedStrategy) (Some "prompt-hash")) in
        let normalized := or_else (normalizeSeedStrategy strategy) "prompt-hash" in
        let o := set_seedStrategy (Some normalized) o in
        let o := set_seed
                   (Some (JS.Int (if String.eqb normalized "random"
                                  then randomSeed e
                                  else Seed.computePromptHashSeed o))) o in
        Proc.when (negb (quiet o))
          (Proc.console_error ("Using " ++ normalized ++ " seed: "
                               ++ JS.jsint_toString (or_else (seed o) JS.NaN))) ;;;
        Proc.ret o
  | Some _ => Proc.ret o
  end.

(** Everything between the argument loop and [main()], in source order. *)
Definition compile (e : Env) (cs : CliSet.t) (o : Options) : Proc.M Options :=
  let '(o, timeoutFromConfig) := applyConfig e cs o in
  o <- checkTokenType o ;;
  o <- checkSeedStrategy o ;;
  o <- checkNumbers cs o ;;
  o <- multiAngleBlock cs o ;;
  o <- checkOutputFormat o ;;
  o <- checkExclusive o ;;
  o <- resolveWorkflow e o ;;
  o <- resolveLastImage o ;;
  o <- checkPrompt (applyTypeDefaults e cs timeoutFromConfig o) ;;
  o <- checkAssets o ;;
  o <- checkContextImages e o ;;
  o <- loadLastSeed e o ;;
  deriveSeed e o.

End Compile.

(* ------------------------------------------------------------------ *)
(** ** [runImageEditProjectWithEvents]: one image-edit job, driven by the
    client's events *)

Module EditRun.
Import Events.

Record state : Type := mk {
  results : list JobResult.t;
  completed : Z;
  projectId : option string;
  completion : Settlement;       (* completionPromise *)
  submission : Submission;       (* await client.createImageEditProject(...) *)
  timer : bool;                  (* the timeout is armed *)
  table : Listeners;             (* the client's listeners *)
  log : list string
}.

Section Run.

Variable run : nat.                  (* names the closures of this call *)
Variable expectedCount : JS.jsint.
Variable timeoutMs : JS.jsint.
Variable label : option string.

Definition hCompleted : Handler := mkHandler run OnCompleted.
Definition hFailed : Handler := mkHandler run OnFailed.

(** The state when [createImageEditProject] is called: the timer armed,
    both listeners registered. *)
Definition start (client : Listeners) : state :=
  mk [] 0 None Pending InFlight true
     (on (on client JOB_COMPLETED hCompleted) JOB_FAILED hFailed) [].

Definition cleanup (s : state) : state :=
  mk (results s) (completed s) (projectId s) (completion s) (submission s)
     false
     (off (off (table s) JOB_COMPLETED hCompleted) JOB_FAILED hFailed)
     (log s).

Definition finish (v : Settlement) (s : state) : state :=
  mk (results s) (completed s) (projectId s) (settle (completion s) v)
     (submission s) (timer s) (table s) (log s).

(** [projectId && data.projectId !== projectId] *)
Definition foreign (s : state) (data : JobEvent.data) : bool :=
  JS.truthy_string (projectId s)
  && negb (Compile.optstring_eqb (JobEvent.projectId data) (projectId s)).

Definition latch (s : state) (data : JobEvent.data) : option string :=
  if JS.truthy_string (projectId s) then projectId s else JobEvent.projectId data.

Definition onCompleted (s : state) (data : JobEvent.data) : state :=
  if foreign s data then s
  else
    let pid := latch s data in
    let results' :=
      (results s ++ [JobResult.mk (JobEvent.imageUrl data) None (JobEvent.job_seed data)
                                  (JobEvent.jobIndex data) (JobEvent.projectId data)])%list in
    let completed' := completed s + 1 in
    let line :=
      "Image " ++ JS.Z_toString completed' ++ "/" ++ JS.jsint_toString expectedCount
      ++ (if JS.truthy_string label then " (" ++ JS.or_empty label ++ ")" else "")
      ++ " completed" in
    let s' := mk results' completed' pid (completion s) (submission s) (timer s)
                 (table s) (log s ++ [line])%list in
    if JS.geb (JS.Int completed') expectedCount
    then finish (Resolved results' pid) (cleanup s')
    else s'.

Definition onFailed (s : state) (data : JobEvent.data) : state :=
  if foreign s data then s
  else
    let s' := mk (results s) (completed s) (latch s data) (completion s) (submission s)
                 (timer s) (table s) (log s) in
    finish (Rejected (JS.or_empty (JS.or_string (JobEvent.error data) (Some "Job failed"))))
           (cleanup s').

Definition onTimeout (s : state) : state :=
  finish (Rejected (timeout_message timeoutMs)) (cleanup s).

Definition step (s : state) (x : Stimulus) : state :=
  match x with
  | Emit JOB_COMPLETED data =>
      if registered (table s) JOB_COMPLETED hCompleted then onCompleted s data else s
  | Emit JOB_FAILED data =>
      if registered (table s) JOB_FAILED hFailed then onFailed s data else s
  | Emit PROJECT_PROGRESS _ => s
  | Progress _ => s
  | TimerFired => if timer s then onTimeout s else s
  | SubmitResolved id =>
      match submission s with
      | InFlight =>
          mk (results s) (completed s) (JS.or_string id (projectId s)) (completion s)
             Returned (timer s) (table s) (log s)
      | _ => s
      end
  | SubmitRejected e =>
      match submission s with
      | InFlight =>
          let s' := cleanup s in
          mk (results s') (completed s') (projectId s') (completion s') (Failed e)
             (timer s') (table s') (log s')
      | _ => s
      end
  end.

(** The promise the async function returns: rejected when the submission
    threw, else [completionPromise] once the submission has returned. *)
Definition outcome (s : state) : Settlement :=
  match submission s with
  | InFlight => Pending
  | Failed e => Rejected e
  | Returned => completion s
  end.

(** The caller resumes as soon as the promise is settled. *)
Fixpoint feed (s : state) (l : list Stimulus) : state :=
  match l with
  | [] => s
  | x :: r => if is_pending (outcome s) then feed (step s x) r else s
  end.

Definition runImageEditProjectWithEvents (client : Listeners)
    (stimuli : list Stimulus) : state :=
  feed (start client) stimuli.

End Run.

End EditRun.

(* ------------------------------------------------------------------ *)
(** ** The orchestration of [main]: [completionPromise] and its listeners *)

Module MainRun.
Import Events.

Record state : Type := mk {
  results : list JobResult.t;
  completedJobs : Z;
  completion : Settlement;       (* completionPromise *)
  submission : Submission;       (* await client.create...Project(...) *)
  timer : bool;
  table : Listeners;
  log : list string
}.

Section Run.

Variable run : nat.
Variable count : JS.jsint.           (* options.count *)
Variable timeoutMs : JS.jsint.       (* options.timeout *)
Variable video : bool.               (* options.video *)

Definition hCompleted : Handler := mkHandler run OnCompleted.
Definition hFailed : Handler := mkHandler run OnFailed.
Definition hProgress : Handler := mkHandler run OnProgress.

Definition start (client : Listeners) : state :=
  let l := on (on client JOB_COMPLETED hCompleted) JOB_FAILED hFailed in
  mk [] 0 Pending InFlight true
     (if video then on l PROJECT_PROGRESS hProgress else l) [].

Definition finish (v : Settlement) (s : state) : state :=
  mk (results s) (completedJobs s) (settle (completion s) v) (submission s)
     (timer s) (table s) (log s).

Definition clearTimeout (s : state) : state :=
  mk (results s) (completedJobs s) (completion s) (submission s) false
     (table s) (log s).

Definition onCompleted (s : state) (data : JobEvent.data) : state :=
  let results' :=
    (results s ++ [JobResult.mk (JobEvent.imageUrl data) (JobEvent.videoUrl data)
                                (JobEvent.job_seed data) (JobEvent.jobIndex data)
                                (JobEvent.projectId data)])%list in
  let completed' := completedJobs s + 1 in
  let line :=
    (if video then "Video" else "Image") ++ " " ++ JS.Z_toString completed' ++ "/"
    ++ JS.jsint_toString count ++ " completed" in
  let s' := mk results' completed' (completion s) (submission s) (timer s) (table s)
               (log s ++ [line])%list in
  if JS.geb (JS.Int completed') count
  then finish (Resolved results' None) (clearTimeout s')
  else s'.

Definition onFailed (s : state) (data : JobEvent.data) : state :=
  finish (Rejected (JS.or_empty (JS.or_string (JobEvent.error data) (Some "Job failed"))))
         (clearTimeout s).

Definition onProgress (s : state) (percentage : option Z) : state :=
  match percentage with
  | Some p =>
      if 0 <? p
      then mk (results s) (completedJobs s) (completion s) (submission s) (timer s)
              (table s) (log s ++ [("Progress: " ++ JS.Z_toString p ++ "%")%string])%list
      else s
  | None => s
  end.

Definition onTimeout (s : state) : state :=
  finish (Rejected (timeout_message timeoutMs))
         (mk (results s) (completedJobs s) (completion s) (submission s) false
             (table s) (log s)).

Definition step (s : state) (x : Stimulus) : state :=
  match x with
  | Emit JOB_COMPLETED data =>
      if registered (table s) JOB_COMPLETED hCompleted then onCompleted s data else s
  | Emit JOB_FAILED data =>
      if registered (table s) JOB_FAILED hFailed then onFailed s data else s
  | Emit PROJECT_PROGRESS _ => s
  | Progress p =>
      if registered (table s) PROJECT_PROGRESS hProgress then onProgress s p else s
  | TimerFired => if timer s then onTimeout s else s
  | SubmitResolved _ =>
      match submission s with
      | InFlight =>
          mk (results s) (completedJobs s) (completion s) Returned (timer s)
             (table s) (log s)
      | _ => s
      end
  | SubmitRejected e =>
      match submission s with
      | InFlight =>
          mk (results s) (completedJobs s) (completion s) (Failed e) (timer s)
             (table s) (log s)
      | _ => s
      end
  end.

(** [main] goes on when the submission threw, or when it has returned and
    [completionPromise] is settled; it then reads [results]. *)
Definition outcome (s : state) : Settlement :=
  match submission s with
  | InFlight => Pending
  | Failed e => Rejected e
  | Returned =>
      match completion s with
      | Resolved _ _ => Resolved (results s) None
      | c => c
      end
  end.

Fixpoint feed (s : state) (l : list Stimulus) : state :=
  match l with
  | [] => s
  | x :: r => if is_pending (outcome s) then feed (step s x) r else s
  end.

Definition orchestrate (client : Listeners) (stimuli : list Stimulus) : state :=
  feed (start client) stimuli.

End Run.

End MainRun.

(* ------------------------------------------------------------------ *)
(** ** The surroundings of [main]: the client, the network, node's
    [path], [fs] and [os] *)

Module Client.

(** What [createVideoProject] does when it waits for completion. *)
Inductive VideoOutcome : Type :=
| VideoThrows (message : string)
| VideoReturns (videoUrls : list string).

Inductive FetchOutcome : Type :=
| FetchOk
| FetchNotOk (statusText : string)
| FetchThrows (message : string).

Record t : Type := mk {
  credentials : bool;                       (* loadCredentials finds them *)
  connectError : option string;             (* client.connect() throws *)
  (* what happens while the n-th orchestration of the process waits *)
  stimuli : nat -> list Events.Stimulus;
  (* the n-th segment of a 360 video *)
  videoResult : nat -> VideoProject.config -> VideoOutcome;
  fetch : string -> FetchOutcome;
  readable : string -> bool;                (* readFileSync succeeds *)
  estimate : Json.value;
  ffmpegAvailable : bool;
  ffmpegSucceeds : bool
}.

End Client.

Module Node.
Record t : Type := mk {
  extname : string -> string;
  dirname : string -> string;
  basename : string -> string -> string;
  join : string -> string -> string;
  mkdtemp : string -> string;               (* mkdtempSync(join(tmpdir(), prefix)) *)
  cwd : string
}.
End Node.

(* ------------------------------------------------------------------ *)
(** ** [runMultiAngleFlow] and [main] *)

Module Flow.
Import Cli.

Section WithSurroundings.

Variable env : Compile.Env.
Variable client : Client.t.
Variable node : Node.t.
Variable options : Options.

Definition log (line : string) : Proc.M unit :=
  if quiet options then Proc.ret tt else Proc.console_error line.

Definition fetchMediaBuffer (pathOrUrl : string) : Proc.M Buffer :=
  if JS.startsWith pathOrUrl "http://" || JS.startsWith pathOrUrl "https://" then
    match Client.fetch client pathOrUrl with
    | Client.FetchThrows e => Proc.throw e
    | _ => Proc.ret (BufferOf pathOrUrl)
    end
  else if Client.readable client pathOrUrl then Proc.ret (BufferOf pathOrUrl)
  else Proc.throw ("ENOENT: no such file or directory, open '" ++ pathOrUrl ++ "'").

Definition downloadUrlToFile (url filePath : string) : Proc.M unit :=
  match Client.fetch client url with
  | Client.FetchThrows e => Proc.throw e
  | Client.FetchNotOk statusText =>
      Proc.throw ("Failed to download image: " ++ statusText)
  | Client.FetchOk => Proc.writeFile filePath
  end.

Definition getModelDefaults (modelId : option string) : option ModelDefaults.t :=
  if negb (JS.truthy_string modelId) then None
  else match Compile.openclawConfig env with
       | Some c => OpenClawConfig.modelDefaults c (JS.or_empty modelId)
       | None => None
       end.

Definition tokenTypeOrSpark : string :=
  JS.or_empty (JS.or_string (tokenType options) (Some "spark")).

(** [s.replace('.', '')]: the first dot is removed. *)
Fixpoint remove_first_dot (s : string) : string :=
  match s with
  | EmptyString => EmptyString
  | String c r => if Ascii.eqb c "."%char then r else String c (remove_first_dot r)
  end.

Definition endsWith (s suffix : string) : bool :=
  JS.startsWith (JS.string_rev s) (JS.string_rev suffix).

Record OutputConfig : Type := mkOutputConfig {
  dir : string;
  prefix : string;
  ext : string
}.

Definition desiredExt : string :=
  remove_first_dot (JS.or_empty (JS.or_string (outputFormat options) (Some "jpg"))).

Definition resolveMultiAngleOutputConfig : option OutputConfig :=
  if negb (JS.truthy_string (output options)) then None
  else
    let outputPath := JS.or_empty (output options) in
    let e := Node.extname node outputPath in
    if negb (JS.truthy_string (Some e))
    then Some (mkOutputConfig outputPath "" desiredExt)
    else Some (mkOutputConfig (Node.dirname node outputPath)
                 (Node.basename node outputPath e)
                 (JS.or_empty (JS.or_string (Some (remove_first_dot e)) (Some desiredExt)))).

(** One image-edit job: [runImageEditProjectWithEvents] on what the
    client does while it waits; the timer fires if nothing settled it. *)
Definition runEdit (editConfig : EditProject.config) (label : option string)
  : Proc.M (list JobResult.t) :=
  run <- Proc.fresh_run ;;
  table <- Proc.get_listeners ;;
  Proc.call (Proc.CreateImageEditProject editConfig) ;;;
  let s := EditRun.runImageEditProjectWithEvents run (count options) (timeout options)
             label table (Client.stimuli client run ++ [Events.TimerFired])%list in
  Proc.set_listeners (EditRun.table s) ;;;
  Proc.each log (EditRun.log s) ;;;
  match EditRun.outcome s with
  | Events.Resolved results _ => Proc.ret results
  | Events.Rejected e => Proc.throw e
  | Events.Pending => Proc.stuck
  end.

Definition steps_edit (lightning4 lightning20 : Z) : JS.jsint :=
  match steps options with
  | Some n => n
  | None =>
      match getModelDefaults (model options) with
      | Some (ModelDefaults.mk (Some n) _) => JS.Int n
      | _ => JS.Int (if JS.includes (JS.or_empty (model options)) "lightning"
                     then lightning4 else lightning20)
      end
  end.

Definition guidance_edit (fast slow : JS.real) : JS.jsfloat :=
  match guidance options with
  | Some g => g
  | None =>
      match getModelDefaults (model options) with
      | Some (ModelDefaults.mk _ (Some g)) => JS.Fin g
      | _ => JS.Fin (if JS.includes (JS.or_empty (model options)) "lightning"
                     then fast else slow)
      end
  end.

Definition non_empty {A} (l : list A) : option (list A) :=
  match l with [] => None | _ => Some l end.

Definition angleEditConfig (contextBuffer : Buffer) (prompt : string) : EditProject.config :=
  EditProject.mk (model options) (Some prompt) [contextBuffer] (count options)
    (width options) (height options) (steps_edit 4 20) (guidance_edit JS.r1_0 JS.r4_0)
    tokenTypeOrSpark (Some false)
    (if JS.truthy_string (outputFormat options) then outputFormat options else None)
    (if JS.truthy_string (sampler options) then sampler options else None)
    (if JS.truthy_string (scheduler options) then scheduler options else None)
    (non_empty (loras options)) (non_empty (loraStrengths options)) (seed options).

(** [azimuth.replace(/[^a-z0-9-]/gi, '-')] *)
Definition safe_char (c : ascii) : ascii :=
  let n := nat_of_ascii c in
  if ((97 <=? n) && (n <=? 122) || (65 <=? n) && (n <=? 90)
      || (48 <=? n) && (n <=? 57) || (n =? 45))%nat
  then c else "-"%char.

Fixpoint safe_name (s : string) : string :=
  match s with
  | EmptyString => EmptyString
  | String c r => String (safe_char c) (safe_name r)
  end.

Record AngleResult : Type := mkAngleResult {
  ar_azimuth : option string;
  ar_prompt : string;
  ar_urls : list string;
  ar_seeds : list (option JS.jsint)
}.

Definition urls_of (results : list JobResult.t) : list string :=
  map JS.or_empty (filter JS.truthy_string (map JobResult.imageUrl results)).

Definition seeds_of (results : list JobResult.t) : list (option JS.jsint) :=
  map (fun r => match JobResult.seed r with
                | Some x => Some x
                | None => seed options
                end) results.

(** The downloads of one angle; returns the frame kept for the video. *)
Fixpoint saveAngle (oc : OutputConfig) (safeAzimuth : string) (many : bool)
    (i : nat) (urls : list string) : Proc.M (list string) :=
  match urls with
  | [] => Proc.ret []
  | url :: rest =>
      let suffix := if many then "-" ++ JS.Z_toString (Z.of_nat (i + 1)) else "" in
      let pre := if JS.truthy_string (Some (prefix oc)) then prefix oc ++ "-" else "" in
      let filename := pre ++ safeAzimuth ++ suffix ++ "." ++ ext oc in
      let filePath := Node.join node (dir oc) filename in
      downloadUrlToFile url filePath ;;;
      more <- saveAngle oc safeAzimuth many (S i) rest ;;
      Proc.ret (if truthy_a360 (angles360Video options) && Nat.eqb i 0
                then (filePath :: more) else more)
  end.

(** The body of [for (const azimuth of azimuths)]. *)
Definition runAngle (contextBuffer : Buffer) (outputConfig : option OutputConfig)
    (azimuth : option string) : Proc.M (AngleResult * list string) :=
  let prompt := Compile.buildMultiAnglePrompt azimuth (elevation options)
                  (distance options) (angleDescription options) in
  results <- runEdit (angleEditConfig contextBuffer prompt) azimuth ;;
  let urls := urls_of results in
  frames <- match outputConfig with
            | Some oc =>
                match azimuth with
                | Some a => saveAngle oc (safe_name a) (1 <? List.length urls)%nat O urls
                | None => Proc.throw "Cannot read properties of null (reading 'replace')"
                end
            | None => Proc.ret []
            end ;;
  Proc.ret (mkAngleResult azimuth prompt urls (seeds_of results), frames).

Fixpoint runAngles (contextBuffer : Buffer) (outputConfig : option OutputConfig)
    (azimuths : list (option string)) : Proc.M (list AngleResult * list string) :=
  match azimuths with
  | [] => Proc.ret ([], [])
  | a :: rest =>
      r <- runAngle contextBuffer outputConfig a ;;
      rs <- runAngles contextBuffer outputConfig rest ;;
      Proc.ret (fst r :: fst rs, (snd r ++ snd rs)%list)
  end.

(** *** The 360 video: one clip between each angle and the next *)

Definition videoModelId : option string :=
  JS.or_string (videoModel options)
    (JS.or_string
       (match Compile.openclawConfig env with
        | Some c => OpenClawConfig.videoModels c "i2v"
        | None => None
        end)
       (Compile.VIDEO_WORKFLOW_DEFAULT_MODELS "i2v")).

Definition videoSteps : option JS.jsint :=
  match steps options with
  | Some n => Some n
  | None => match getModelDefaults videoModelId with
            | Some d => Compile.int_opt (ModelDefaults.steps d)
            | None => None
            end
  end.

Definition videoGuidance : option JS.jsfloat :=
  match guidance options with
  | Some g => Some g
  | None => match getModelDefaults videoModelId with
            | Some d => option_map JS.Fin (ModelDefaults.guidance d)
            | None => None
            end
  end.

(** [segmentFrames]: null unless [options.frames] is set (and not 0). *)
Definition segmentFrames (segmentCount : Z) : option JS.jsint :=
  if JS.truthy_optint (frames options)
  then Some (JS.max_round_div 17 (Compile.or_else (frames options) JS.NaN) segmentCount)
  else None.

Definition segmentDuration (segmentCount : Z) : JS.jsint :=
  if JS.truthy_optint (frames options) then duration options
  else JS.max_round_div 1 (duration options) segmentCount.

Definition videoPrompt : string :=
  JS.or_empty
    (JS.or_string (Some (angleDescription options))
       (JS.or_string (prompt options) (Some "smooth camera rotation"))).

(** [clipConfig] of the loop's pass [i]. *)
Definition clipConfig (videoFrames : list string) (i : nat) : VideoProject.config :=
  let segmentCount := Z.of_nat (List.length videoFrames) in
  let startPath := nth i videoFrames "" in
  let endPath := nth ((i + 1) mod List.length videoFrames) videoFrames "" in
  VideoProject.mk videoModelId (Some videoPrompt) "" "" (JS.Int 1)
    (Some (BufferOf startPath)) (Some (BufferOf endPath)) None None
    (fps options) (width options) (height options) tokenTypeOrSpark true None
    (autoResizeVideoAssets options)
    (if JS.truthy_optint (segmentFrames segmentCount)
     then segmentFrames segmentCount else None)
    (if JS.truthy_optint (segmentFrames segmentCount)
     then None else Some (segmentDuration segmentCount))
    None
    (if JS.truthy_optint videoSteps then videoSteps else None)
    videoGuidance.

(** The passes [i, i+1, ...] of the segment loop ([todo] of them are left);
    returns [clipPaths]. *)
Fixpoint runSegments (clipDir : string) (videoFrames : list string)
    (i todo : nat) : Proc.M (list string) :=
  match todo with
  | O => Proc.ret []
  | S todo' =>
      let c := clipConfig videoFrames i in
      Proc.call (Proc.CreateVideoProject c) ;;;
      clipUrl <- match Client.videoResult client i c with
                 | Client.VideoThrows e => Proc.throw e
                 | Client.VideoReturns urls =>
                     if JS.truthy_string (hd_error urls)
                     then Proc.ret (JS.or_empty (hd_error urls))
                     else Proc.throw "No video URL returned for 360 segment."
                 end ;;
      let clipPath :=
        Node.join node clipDir ("segment-" ++ JS.Z_toString (Z.of_nat (i + 1)) ++ ".mp4") in
      downloadUrlToFile clipUrl clipPath ;;;
      more <- runSegments clipDir videoFrames (S i) todo' ;;
      Proc.ret (clipPath :: more)
  end.

Definition concat_list_path (outputPath : string) : string :=
  (if endsWith (JS.toLowerCase outputPath) ".mp4"
   then substring 0 (String.length outputPath - 4) outputPath
   else outputPath) ++ ".concat.txt".

Definition buildConcatVideoFromClips (outputPath : string) (clips : list string)
  : Proc.M unit :=
  if negb (Client.ffmpegAvailable client)
  then Proc.fail
         "Error: ffmpeg is required to assemble the 360 video. Install ffmpeg or set FFMPEG_PATH."
  else
    Proc.writeFile (concat_list_path outputPath) ;;;
    Proc.call (Proc.Concat outputPath clips) ;;;
    if Client.ffmpegSucceeds client then Proc.writeFile outputPath
    else Proc.fail "Error: ffmpeg failed to concatenate 360 video clips.".

Definition build360Video (videoOutputPath : string) (videoFrames : list string)
  : Proc.M unit :=
  if Compile.is_empty videoFrames
  then Proc.fail "Error: No local frames available to assemble 360 video."
  else
    let clipDir := Node.mkdtemp node "sogni-angles-clips-" in
    clipPaths <- runSegments clipDir videoFrames O (List.length videoFrames) ;;
    buildConcatVideoFromClips videoOutputPath clipPaths ;;;
    Proc.when (negb (quiet options))
      (Proc.console_error ("Saved 360 video: " ++ videoOutputPath)).

(** *** [runMultiAngleFlow] *)

Definition angleAzimuths : list (option string) :=
  if angles360 options
  then map (fun a => Some (fst a)) Compile.MULTI_ANGLE_AZIMUTHS
  else [azimuth options].

(** [outputConfig] before the angle loop: resolved from [--output], or a
    temporary directory when a 360 video needs the frames. *)
Definition outputConfigBeforeVideo : option OutputConfig :=
  match resolveMultiAngleOutputConfig with
  | Some oc => Some oc
  | None =>
      if truthy_a360 (angles360Video options)
      then Some (mkOutputConfig (Node.mkdtemp node "sogni-angles-") "angles-360" desiredExt)
      else None
  end.

Definition videoOutputPath : option string :=
  if truthy_a360 (angles360Video options) then
    let path :=
      match angles360Video options, outputConfigBeforeVideo with
      | VideoPath p, _ => p
      | _, Some oc =>
          if JS.truthy_string (output options) && String.eqb (ext oc) "mp4"
          then JS.or_empty (output options)
          else Node.join node (dir oc)
                 ((if JS.truthy_string (Some (prefix oc)) then prefix oc else "angles-360")
                  ++ ".mp4")
      | _, None => Node.join node (Node.cwd node) "angles-360.mp4"
      end in
    Some (if endsWith (JS.toLowerCase path) ".mp4" then path else path ++ ".mp4")
  else None.

Definition outputConfig : option OutputConfig :=
  match outputConfigBeforeVideo with
  | Some oc =>
      Some (if String.eqb (ext oc) "mp4"
            then mkOutputConfig (dir oc) (prefix oc) desiredExt else oc)
  | None => None
  end.

Definition json_strings_or_null (l : list string) : Json.value :=
  match l with [] => Json.JNull | _ => Json.of_strings l end.

Definition json_reals_or_null (l : list JS.real) : Json.value :=
  match l with [] => Json.JNull | _ => Json.of_reals l end.

(** [x || null] on a string *)
Definition json_string_or_null (s : option string) : Json.value :=
  if JS.truthy_string s then Seed.of_optstring s else Json.JNull.

Definition json_angle (a : AngleResult) : Json.value :=
  Json.JObject
    [ ("azimuth", Seed.of_optstring (ar_azimuth a));
      ("elevation", Seed.of_optstring (elevation options));
      ("distance", Seed.of_optstring (distance options));
      ("prompt", Json.JString (ar_prompt a));
      ("urls", Json.of_strings (ar_urls a));
      ("seeds", Json.JArray (map Seed.of_optint (ar_seeds a))) ].

Definition multiAngleJson (angleResults : list AngleResult) : Json.value :=
  Json.JObject
    [ ("success", Json.JBool true);
      ("type", Json.JString (if angles360 options then "multi-angle-360" else "multi-angle"));
      ("model", Seed.of_optstring (model options));
      ("width", Json.of_int (width options));
      ("height", Json.of_int (height options));
      ("count", Json.of_int (count options));
      ("tokenType", Json.JString tokenTypeOrSpark);
      ("seed", Seed.of_optint (seed options));
      ("seedStrategy", json_string_or_null (seedStrategy options));
      ("outputFormat", json_string_or_null (outputFormat options));
      ("sampler", json_string_or_null (sampler options));
      ("scheduler", json_string_or_null (scheduler options));
      ("loras", json_strings_or_null (loras options));
      ("loraStrengths", json_reals_or_null (loraStrengths options));
      ("videoPath", json_string_or_null videoOutputPath);
      ("videoModel", match videoOutputPath with
                     | Some _ => json_string_or_null videoModelId
                     | None => Json.JNull
                     end);
      ("angles", Json.JArray (map json_angle angleResults)) ].

Fixpoint indexed {A} (i : nat) (l : list A) : list (nat * A) :=
  match l with
  | [] => []
  | x :: r => (i, x) :: indexed (S i) r
  end.

Definition printAngle (a : AngleResult) : Proc.M unit :=
  Proc.each
    (fun iu : nat * string =>
       let suffix := if (1 <? List.length (ar_urls a))%nat
                     then "#" ++ JS.Z_toString (Z.of_nat (fst iu + 1)) else "" in
       Proc.console_log (JS.or_empty (ar_azimuth a) ++ suffix ++ ": " ++ snd iu))
    (indexed O (ar_urls a)).

Definition runMultiAngleFlow : Proc.M unit :=
  contextBuffer <- fetchMediaBuffer (JS.or_empty (hd_error (contextImages options))) ;;
  r <- runAngles contextBuffer outputConfig angleAzimuths ;;
  let angleResults := fst r in
  let videoFrames := snd r in
  match videoOutputPath with
  | Some p => build360Video p videoFrames
  | None => Proc.ret tt
  end ;;;
  Proc.call Proc.SaveLastRender ;;;
  if json options
  then Proc.console_log (Json.stringify (multiAngleJson angleResults))
  else
    match videoOutputPath with
    | Some p => Proc.console_log ("video: " ++ p)
    | None => Proc.ret tt
    end ;;;
    Proc.each printAngle angleResults.

(** *** [main] *)

Definition optional_buffer (source : option string) : Proc.M (option Buffer) :=
  if JS.truthy_string source
  then (b <- fetchMediaBuffer (JS.or_empty source) ;; Proc.ret (Some b))
  else Proc.ret None.

Definition truthy_or_none (s : option string) : option string :=
  if JS.truthy_string s then s else None.

Definition steps_or_default : option JS.jsint :=
  match steps options with
  | Some n => Some n
  | None => match getModelDefaults (model options) with
            | Some d => Compile.int_opt (ModelDefaults.steps d)
            | None => None
            end
  end.

Definition guidance_or_default : option JS.jsfloat :=
  match guidance options with
  | Some g => Some g
  | None => match getModelDefaults (model options) with
            | Some d => option_map JS.Fin (ModelDefaults.guidance d)
            | None => None
            end
  end.

(** [projectConfig] of the video branch of [main]. *)
Definition videoProjectConfig (imageBuffer endImageBuffer audioBuffer videoBuffer
    : option Buffer) : VideoProject.config :=
  VideoProject.mk (model options) (prompt options) "" "" (count options)
    imageBuffer endImageBuffer audioBuffer videoBuffer
    (fps options) (width options) (height options) tokenTypeOrSpark false
    (truthy_or_none (outputFormat options))
    (autoResizeVideoAssets options)
    (if JS.truthy_optint (frames options) then frames options else None)
    (if JS.truthy_optint (frames options) then None else Some (duration options))
    (seed options)
    (if JS.truthy_optint steps_or_default then steps_or_default else None)
    guidance_or_default.

(** [editConfig] of the image-edit branch of [main]. *)
Definition editProjectConfig (contextBuffers : list Buffer) : EditProject.config :=
  EditProject.mk (model options) (prompt options) contextBuffers (count options)
    (width options) (height options) (steps_edit 4 20)
    (guidance_edit (JS.Real false 3 (Decimal.D5 Decimal.Nil))
                   (JS.Real false 7 (Decimal.D5 Decimal.Nil)))
    tokenTypeOrSpark None
    (truthy_or_none (outputFormat options))
    (truthy_or_none (sampler options))
    (truthy_or_none (scheduler options))
    (non_empty (loras options)) (non_empty (loraStrengths options)) (seed options).

(** [projectConfig] of the plain image branch of [main]. *)
Definition imageProjectConfig : ImageProject.config :=
  ImageProject.mk (model options) (prompt options) "" "" (count options)
    tokenTypeOrSpark false "custom" (width options) (height options)
    (Compile.or_else guidance_or_default (JS.Fin JS.r1_0))
    (truthy_or_none (outputFormat options))
    (truthy_or_none (sampler options))
    (truthy_or_none (scheduler options))
    (if JS.truthy_optint steps_or_default then steps_or_default else None)
    (seed options).

Fixpoint fetchAll (l : list string) : Proc.M (list Buffer) :=
  match l with
  | [] => Proc.ret []
  | x :: r =>
      b <- fetchMediaBuffer x ;;
      bs <- fetchAll r ;;
      Proc.ret (b :: bs)
  end.

Definition log_if (value : option string) (what : string) : Proc.M unit :=
  if JS.truthy_string value then log (what ++ JS.or_empty value) else Proc.ret tt.

Definition log_seed : Proc.M unit :=
  match seed options with
  | Some n => log ("Using seed: " ++ JS.jsint_toString n)
  | None => Proc.ret tt
  end.

(** The submission of the one job of [main]. *)
Definition submit : Proc.M unit :=
  if video options then
    log ("Generating video (" ++ JS.or_empty (videoWorkflow options) ++ ") with "
         ++ JS.or_empty (model options) ++ "...") ;;;
    log_if (refImage options) "Reference image: " ;;;
    log_if (refImageEnd options) "End frame: " ;;;
    log_if (refAudio options) "Reference audio: " ;;;
    log_if (refVideo options) "Reference video: " ;;;
    imageBuffer <- optional_buffer (refImage options) ;;
    endImageBuffer <- optional_buffer (refImageEnd options) ;;
    audioBuffer <- optional_buffer (refAudio options) ;;
    videoBuffer <- optional_buffer (refVideo options) ;;
    Proc.call (Proc.CreateVideoProject
                 (videoProjectConfig imageBuffer endImageBuffer audioBuffer videoBuffer))
  else if negb (Compile.is_empty (contextImages options)) then
    log ("Editing with " ++ JS.or_empty (model options) ++ "...") ;;;
    log ("Context images: "
         ++ JS.Z_toString (Z.of_nat (List.length (contextImages options)))) ;;;
    log_seed ;;;
    contextBuffers <- fetchAll (contextImages options) ;;
    Proc.call (Proc.CreateImageEditProject (editProjectConfig contextBuffers))
  else
    log ("Generating with " ++ JS.or_empty (model options) ++ "...") ;;;
    log_seed ;;;
    Proc.call (Proc.CreateImageProject imageProjectConfig).

Definition result_urls (results : list JobResult.t) : list string :=
  map JS.or_empty
    (filter JS.truthy_string
       (map (fun r => if video options then JobResult.videoUrl r
                      else JobResult.imageUrl r) results)).

(** The success line of JSON mode, up to [tokenType]; the optional
    properties that follow it in the source (output format, sampler,
    LoRAs, the video fields) are left out. *)
Definition successJson (results : list JobResult.t) : Json.value :=
  let firstSeed :=
    match results with
    | r :: _ => match JobResult.seed r with Some x => Some x | None => seed options end
    | [] => seed options
    end in
  Json.JObject
    [ ("success", Json.JBool true);
      ("type", Json.JString (if video options then "video" else "image"));
      ("prompt", Seed.of_optstring (prompt options));
      ("model", Seed.of_optstring (model options));
      ("width", Json.of_int (width options));
      ("height", Json.of_int (height options));
      ("seed", Seed.of_optint firstSeed);
      ("seedStrategy", json_string_or_null (seedStrategy options));
      ("seeds", Json.JArray (map Seed.of_optint (seeds_of results)));
      ("urls", Json.of_strings (result_urls results));
      ("localPath", json_string_or_null (output options));
      ("tokenType", Json.JString tokenTypeOrSpark) ].

(** The payload the [catch] block of [main] prints in JSON mode. *)
Definition errorJson (message : string) : Json.value :=
  Json.JObject
    [ ("success", Json.JBool false);
      ("error", Json.JString message);
      ("prompt", Seed.of_optstring (prompt options)) ].

(** The single job of [main]: listeners and timer first, then the
    submission, then the wait on [completionPromise]. *)
Definition runSingleJob : Proc.M unit :=
  run <- Proc.fresh_run ;;
  table <- Proc.get_listeners ;;
  let s0 := MainRun.start run (video options) table in
  Proc.set_listeners (MainRun.table s0) ;;;
  submit ;;;
  let s := MainRun.feed run (count options) (timeout options) (video options) s0
             (Client.stimuli client run ++ [Events.TimerFired])%list in
  Proc.set_listeners (MainRun.table s) ;;;
  Proc.each log (MainRun.log s) ;;;
  match MainRun.outcome s with
  | Events.Pending => Proc.stuck
  | Events.Rejected e => Proc.throw e
  | Events.Resolved results _ =>
      if Compile.is_empty results
      then Proc.throw "No output generated - may have been filtered"
      else
        let urls := result_urls results in
        Proc.call Proc.SaveLastRender ;;;
        (if JS.truthy_string (output options) && JS.truthy_string (hd_error urls)
         then
           match Client.fetch client (JS.or_empty (hd_error urls)) with
           | Client.FetchThrows e => Proc.throw e
           | _ =>
               Proc.writeFile (JS.or_empty (output options)) ;;;
               log ("Saved to " ++ JS.or_empty (output options))
           end
         else Proc.ret tt) ;;;
        if json options
        then Proc.console_log (Json.stringify (successJson results))
        else Proc.each Proc.console_log urls
  end.

(** [--estimate-video-cost].  The JSON line leaves out its [duration]
    field (a quotient of two numbers). *)
Definition estimateCost : Proc.M unit :=
  match steps_or_default with
  | Some (JS.Int n) =>
      let params :=
        VideoCost.mk (model options) (width options) (height options) (fps options)
          (JS.Int n) (count options) tokenTypeOrSpark
          (if JS.truthy_optint (frames options) then frames options else None)
          (if JS.truthy_optint (frames options) then None else Some (duration options)) in
      Proc.call (Proc.EstimateVideoCost params) ;;;
      if json options
      then Proc.console_log
             (Json.stringify
                (Json.JObject
                   [ ("success", Json.JBool true);
                     ("type", Json.JString "video-cost");
                     ("model", Seed.of_optstring (model options));
                     ("width", Json.of_int (width options));
                     ("height", Json.of_int (height options));
                     ("fps", Json.of_int (fps options));
                     ("frames", Seed.of_optint (frames options));
                     ("steps", Json.of_int (JS.Int n));
                     ("tokenType", Json.JString tokenTypeOrSpark);
                     ("count", Json.of_int (count options));
                     ("estimate", Client.estimate client) ]))
      else Proc.console_log ("Estimated cost: " ++ Json.stringify (Client.estimate client))
  | _ =>
      Proc.fail
        "Error: --estimate-video-cost requires --steps (or modelDefaults for this model)."
  end.

Definition main : Proc.M unit :=
  if negb (Client.credentials client) then
    Proc.console_error "Error: No Sogni credentials found." ;;;
    Proc.console_error "Create ~/.config/sogni/credentials with:" ;;;
    Proc.console_error "  SOGNI_USERNAME=your_username" ;;;
    Proc.console_error "  SOGNI_PASSWORD=your_password" ;;;
    Proc.process_exit 1
  else
    log "Connecting to Sogni..." ;;;
    Proc.try_catch
      ((* try *)
       match Client.connectError client with
       | Some e => Proc.throw e
       | None => Proc.call Proc.Connect
       end ;;;
       log "Connected." ;;;
       (if estimateVideoCost options then estimateCost
        else if multiAngle options then
          Proc.when ((1 <? List.length (contextImages options))%nat && negb (quiet options))
            (Proc.console_error "Warning: --multi-angle uses the first context image only.") ;;;
          runMultiAngleFlow
        else runSingleJob) ;;;
       (* finally *)
       Proc.call Proc.Disconnect ;;;
       Proc.process_exit 0)
      (fun message =>
         (* catch *)
         (if json options
          then Proc.console_log (Json.stringify (errorJson message))
          else Proc.console_error ("Error: " ++ message)) ;;;
         Proc.process_exit 1).

End WithSurroundings.

(** The whole script: the options are compiled, then [main] runs. *)
Definition program (env : Compile.Env) (client : Client.t) (node : Node.t)
    (cliSet : CliSet.t) (parsed : Options) : Proc.M unit :=
  options <- Compile.compile env cliSet parsed ;;
  main env client node options.

End Flow.

(* ------------------------------------------------------------------ *)
(** ** Concrete surroundings and requests *)

Module Examples.
Import Cli.

(** The part of [a/b/c] after its last [sep], and the part before. *)
Fixpoint split_last (sep : ascii) (s : string) : option (string * string) :=
  match s with
  | EmptyString => None
  | String a r =>
      match split_last sep r with
      | Some (x, y) => Some (String a x, y)
      | None => if Ascii.eqb a sep then Some (EmptyString, r) else None
      end
  end.

Definition last_component (p : string) : string :=
  match split_last "/"%char p with
  | Some (_, b) => b
  | None => p
  end.

Definition extname (p : string) : string :=
  match split_last "."%char (last_component p) with
  | Some (EmptyString, _) => ""
  | Some (_, e) => "." ++ e
  | None => ""
  end.

Definition dirname (p : string) : string :=
  match split_last "/"%char p with
  | Some (EmptyString, _) => "/"
  | Some (d, _) => d
  | None => "."
  end.

Definition basename (p e : string) : string :=
  let b := last_component p in
  if negb (String.eqb e "") && Flow.endsWith b e
  then substring 0 (String.length b - String.length e) b
  else b.

Definition node : Node.t :=
  Node.mk extname dirname basename (fun a b => a ++ "/" ++ b)
    (fun prefix => "/tmp/" ++ prefix ++ "k3Yp0Q") "/home/user".

(** No plugin configuration, no earlier render; the Qwen edit models take
    three context images. *)
Definition env : Compile.Env :=
  Compile.mkEnv None
    (fun m => if JS.includes (JS.or_empty m) "qwen_image_edit" then 3 else 0)
    Compile.NoFile 7.

Definition completed (project url : string) : JobEvent.data :=
  JobEvent.mk (Some project) (Some url) None (Some 0) (Some (JS.Int 42)) None.

Definition video_completed (project url : string) : JobEvent.data :=
  JobEvent.mk (Some project) None (Some url) (Some 0) (Some (JS.Int 42)) None.

(** A client on which every job succeeds. *)
Definition client : Client.t :=
  Client.mk true None
    (fun run =>
       [ Events.SubmitResolved (Some "project-1");
         Events.Emit Events.JOB_COMPLETED
           (completed "project-1" "https://cdn.example/frame.jpg") ])
    (fun _ _ => Client.VideoReturns ["https://cdn.example/clip.mp4"])
    (fun _ => Client.FetchOk) (fun _ => true) Json.JNull true true.


(** The same client, except that the third angle's job fails. *)
Definition client_angle_3_fails : Client.t :=
  Client.mk true None
    (fun run =>
       if Nat.eqb run 2
       then [ Events.SubmitResolved (Some "project-1");
              Events.Emit Events.JOB_FAILED
                (JobEvent.mk (Some "project-1") None None None None
                   (Some "NSFW filter")) ]
       else Client.stimuli client run)
    (Client.videoResult client) (Client.fetch client) (Client.readable client)
    Json.JNull true true.

(** [--video --width 500 --height 512 "ocean waves"] *)
Definition video_500x512 : Options :=
  set_video true
    (set_width (JS.Int 500)
       (set_height (JS.Int 512) (set_prompt (Some "ocean waves") defaults))).

Definition video_500x512_set : CliSet.t :=
  CliSet.mk true true false false false false false false false false false false false.

(** [--json -m qwen_image_edit_2511_fp8 -c a.png -c b.png -c c.png -c d.png
    "blend these"] *)
Definition four_context_images : Options :=
  set_json true
    (set_model (Some "qwen_image_edit_2511_fp8")
       (set_contextImages ["a.png"; "b.png"; "c.png"; "d.png"]
          (set_prompt (Some "blend these") defaults))).

(** [--multi-angle -c subject.jpg --lora multiple_angles --lora-strength 0.5
    "studio portrait"] *)
Definition angle_with_own_strength : Options :=
  set_multiAngle true
    (set_loras [Compile.MULTIPLE_ANGLES]
       (set_loraStrengths [JS.r0_5]
          (set_contextImages ["subject.jpg"]
             (set_prompt (Some "studio portrait") defaults)))).

(** [--multi-angle -c subject.jpg --lora sketch "studio portrait"] *)
Definition angle_with_sketch : Options :=
  set_multiAngle true
    (set_loras ["sketch"]
       (set_contextImages ["subject.jpg"]
          (set_prompt (Some "studio portrait") defaults))).

(** [--multi-angle --angles-360 --angles-360-video -c subject.jpg -q --json
    "studio portrait"] *)
Definition spin : Options :=
  set_multiAngle true
    (set_angles360 true
       (set_angles360Video VideoFlag
          (set_json true
             (set_quiet true
                (set_contextImages ["subject.jpg"]
                   (set_prompt (Some "studio portrait") defaults)))))).

(** ["a cat"] *)
Definition a_cat : Options := set_prompt (Some "a cat") defaults.

(** A client that also delivers the completion of another project,
    [project-2], while [project-1] is awaited. *)
Definition cross_talk : list Events.Stimulus :=
  [ Events.SubmitResolved (Some "project-1");
    Events.Emit Events.JOB_COMPLETED
      (completed "project-2" "https://cdn.example/other.jpg");
    Events.Emit Events.JOB_COMPLETED
      (completed "project-1" "https://cdn.example/mine.jpg") ].

Definition client_cross_talk : Client.t :=
  Client.mk true None (fun _ => cross_talk) (Client.videoResult client)
    (Client.fetch client) (Client.readable client) Json.JNull true true.

(** The options of [spin] as [main] finds them. *)
Definition spin_compiled : Options :=
  Eval vm_compute in
    match fst (Compile.compile env CliSet.none spin Proc.start) with
    | Proc.Return o => o
    | _ => spin
    end.

End Examples.

(* ------------------------------------------------------------------ *)
(** ** [parseCsv] and the credentials file *)

Module Parse.

(** [s.split(sep)] for a separator of one character: the pieces between
    the separators, the empty ones too. *)
Fixpoint split (sep : ascii) (s : string) : list string :=
  match s with
  | EmptyString => [EmptyString]
  | String c r =>
      if Ascii.eqb c sep then EmptyString :: split sep r
      else match split sep r with
           | piece :: pieces => String c piece :: pieces
           | [] => [String c EmptyString]
           end
  end.


End Parse.

Module Credentials.

Record t : Type := mk {
  SOGNI_USERNAME : string;
  SOGNI_PASSWORD : string
}.







End Credentials.

(* ================================================================== *)
(** * Theorems *)

(* ------------------------------------------------------------------ *)
(** * Facts about the listener table and the stimuli *)

Module TableFacts.
Import Events.
Local Open Scope list_scope.

Lemma handler_eqb_refl h : handler_eqb h h = true.
Proof.
  destruct h as [o r]. unfold handler_eqb. simpl.
  rewrite Nat.eqb_refl. destruct r; reflexivity.
Qed.

Lemma entry_eqb_refl x : entry_eqb x x = true.
Proof.
  destruct x as [e h]. unfold entry_eqb. simpl.
  rewrite handler_eqb_refl. destruct e; reflexivity.
Qed.

Lemma entry_eqb_owner x ev h :
  entry_eqb x (ev, h) = true -> owner (snd x) = owner h.
Proof.
  destruct x as [e [o r]]. destruct h as [o' r']. unfold entry_eqb, handler_eqb. simpl.
  intros H. apply andb_prop in H as [_ H]. apply andb_prop in H as [H _].
  now apply Nat.eqb_eq in H.
Qed.

Lemma entry_eqb_sym x y : entry_eqb x y = entry_eqb y x.
Proof.
  destruct x as [e [o r]], y as [e' [o' r']]. unfold entry_eqb, handler_eqb. simpl.
  rewrite (Nat.eqb_sym o o'). destruct e, e', r, r'; reflexivity.
Qed.

(** A table with no listener of [run] is left alone by [off]. *)
Lemma off_foreign l ev h :
  owned_by (owner h) l = [] -> off l ev h = l.
Proof.
  induction l as [|x l IH]; simpl; intros H; [reflexivity|].
  destruct (Nat.eqb (owner (snd x)) (owner h)) eqn:E; [discriminate|].
  destruct (entry_eqb x (ev, h)) eqn:E'.
  - apply entry_eqb_owner in E'. apply Nat.eqb_neq in E. contradiction.
  - f_equal. now apply IH.
Qed.

Lemma off_app_foreign l r ev h :
  owned_by (owner h) l = [] -> off (l ++ r) ev h = l ++ off r ev h.
Proof.
  induction l as [|x l IH]; simpl; intros H; [reflexivity|].
  destruct (Nat.eqb (owner (snd x)) (owner h)) eqn:E; [discriminate|].
  destruct (entry_eqb x (ev, h)) eqn:E'.
  - apply entry_eqb_owner in E'. apply Nat.eqb_neq in E. contradiction.
  - f_equal. now apply IH.
Qed.

Lemma registered_app l l' ev h :
  registered (l ++ l') ev h = registered l ev h || registered l' ev h.
Proof. unfold registered. apply existsb_app. Qed.

Lemma registered_foreign l ev h :
  owned_by (owner h) l = [] -> registered l ev h = false.
Proof.
  induction l as [|x l IH]; simpl; intros H; [reflexivity|].
  destruct (Nat.eqb (owner (snd x)) (owner h)) eqn:E; [discriminate|].
  unfold registered in *. simpl. rewrite (IH H), orb_false_r.
  destruct (entry_eqb (ev, h) x) eqn:E'; [|reflexivity].
  rewrite entry_eqb_sym in E'. apply entry_eqb_owner in E'.
  apply Nat.eqb_neq in E. contradiction.
Qed.

(** ** What arrives while an orchestration waits *)




End TableFacts.

(* ------------------------------------------------------------------ *)
(** * [runImageEditProjectWithEvents] *)

Module EditFacts.
Import Events EditRun TableFacts.
Local Open Scope list_scope.


Section Facts.
Variable run : nat.
Variable expectedCount timeoutMs : JS.jsint.
Variable label : option string.
Variable client : Listeners.
Hypothesis fresh : owned_by run client = [].

Let full : Listeners :=
  client ++ [(JOB_COMPLETED, hCompleted run); (JOB_FAILED, hFailed run)].

Lemma table_start : table (start run client) = full.
Proof. unfold start, on, full. simpl. now rewrite <- app_assoc. Qed.

Lemma off_head ev h r : off ((ev, h) :: r) ev h = r.
Proof. simpl. now rewrite entry_eqb_refl. Qed.

Lemma off_full :
  off (off full JOB_COMPLETED (hCompleted run)) JOB_FAILED (hFailed run) = client.
Proof.
  unfold full.
  rewrite off_app_foreign by exact fresh. rewrite off_head.
  rewrite off_app_foreign by exact fresh. rewrite off_head.
  apply app_nil_r.
Qed.

Lemma cleanup_full s : table s = full -> table (cleanup run s) = client.
Proof.
  intros H. unfold cleanup. simpl. rewrite H. apply off_full.
Qed.

Lemma cleanup_client s : table s = client -> table (cleanup run s) = client.
Proof.
  intros H. unfold cleanup. simpl. rewrite H.
  rewrite (off_foreign client JOB_COMPLETED (hCompleted run)) by exact fresh.
  now rewrite (off_foreign client JOB_FAILED (hFailed run)) by exact fresh.
Qed.

Lemma registered_full :
  registered full JOB_COMPLETED (hCompleted run) = true
  /\ registered full JOB_FAILED (hFailed run) = true.
Proof.
  unfold full. rewrite !registered_app.
  split; apply orb_true_iff; right; unfold registered, entry_eqb, handler_eqb;
    simpl; rewrite Nat.eqb_refl; reflexivity.
Qed.

Lemma registered_client ev r :
  registered client ev (mkHandler run r) = false.
Proof. apply registered_foreign. exact fresh. Qed.

(** The two shapes a reachable state has: still listening (nothing
    settled, timer armed, both listeners registered), or cleaned up. *)
Definition listening (s : state) : Prop :=
  table s = full /\ timer s = true /\ completion s = Pending
  /\ (submission s = InFlight \/ submission s = Returned).

Definition cleaned (s : state) : Prop :=
  table s = client /\ timer s = false.

Definition reachable_shape (s : state) : Prop := listening s \/ cleaned s.

Lemma start_listening : listening (start run client).
Proof.
  split; [apply table_start|]. simpl. auto.
Qed.

Lemma step_shape s x :
  reachable_shape s -> reachable_shape (step run expectedCount timeoutMs label s x).
Proof.
  destruct registered_full as [RC RF].
  intros [[Ht [Hm [Hc Hs]]] | [Ht Hm]].
  - (* listening *)
    destruct x as [[| |] d | p | | id | e]; simpl.
    + rewrite Ht, RC. unfold onCompleted.
      destruct (foreign s d); [left; repeat split; assumption|].
      match goal with |- context [if ?c then _ else _] => destruct c end.
      * right. split; simpl.
        -- rewrite Ht. apply off_full.
        -- reflexivity.
      * left. repeat split; simpl; assumption.
    + rewrite Ht, RF. unfold onFailed.
      destruct (foreign s d); [left; repeat split; assumption|].
      right. split; simpl.
      * rewrite Ht. apply off_full.
      * reflexivity.
    + left. repeat split; assumption.
    + left. repeat split; assumption.
    + rewrite Hm. right. split; [apply cleanup_full; exact Ht|reflexivity].
    + destruct (submission s) eqn:E.
      * left. repeat split; simpl; auto.
      * left. repeat split; try assumption. rewrite E. now right.
      * destruct Hs; discriminate.
    + destruct (submission s) eqn:E.
      * right. split; simpl; [|reflexivity]. apply (cleanup_full s Ht).
      * left. repeat split; try assumption. rewrite E. now right.
      * destruct Hs; discriminate.
  - (* cleaned *)
    destruct x as [[| |] d | p | | id | e]; simpl.
    + rewrite Ht. unfold hCompleted. rewrite registered_client.
      right. split; assumption.
    + rewrite Ht. unfold hFailed. rewrite registered_client.
      right. split; assumption.
    + right. split; assumption.
    + right. split; assumption.
    + rewrite Hm. right. split; assumption.
    + destruct (submission s); right; split; simpl; assumption.
    + destruct (submission s); right; split; simpl; try assumption;
        try reflexivity.
      apply (cleanup_client s Ht).
Qed.

Lemma feed_shape l : forall s,
  reachable_shape s -> reachable_shape (feed run expectedCount timeoutMs label s l).
Proof.
  induction l as [|x l IH]; simpl; intros s H; [exact H|].
  destruct (is_pending (outcome s)); [|exact H].
  apply IH. now apply step_shape.
Qed.

Lemma settled_is_cleaned s :
  reachable_shape s -> outcome s <> Pending -> cleaned s.
Proof.
  intros [[_ [_ [Hc Hs]]] | H] Hout; [|exact H].
  exfalso. apply Hout. unfold outcome.
  destruct Hs as [-> | ->]; [reflexivity | exact Hc].
Qed.

(** X3.  Once the promise of [runImageEditProjectWithEvents] is settled --
    resolved, rejected by a failure event or the timeout, or rejected
    because the submission threw -- the client's table is what it was
    before the call and the timer is cleared. *)
Theorem edit_run_cleans_up stimuli :
  let s := runImageEditProjectWithEvents run expectedCount timeoutMs label client stimuli in
  outcome s <> Pending ->
  table s = client /\ timer s = false /\ owned_by run (table s) = [].
Proof.
  intros s Hout.
  assert (H : cleaned s).
  { apply settled_is_cleaned; [|exact Hout].
    apply feed_shape. left. apply start_listening. }
  destruct H as [Ht Hm]. repeat split; try assumption.
  rewrite Ht. exact fresh.
Qed.

End Facts.

(** X2.  In [runImageEditProjectWithEvents] a completion or failure event
    of another project changes nothing once the project id is known. *)
Theorem edit_run_ignores_foreign run expectedCount timeoutMs label s d :
  JS.truthy_string (projectId s) = true ->
  JobEvent.projectId d <> projectId s ->
  step run expectedCount timeoutMs label s (Emit JOB_COMPLETED d) = s
  /\ step run expectedCount timeoutMs label s (Emit JOB_FAILED d) = s.
Proof.
  intros Ht Hne.
  assert (F : foreign s d = true).
  { unfold foreign. rewrite Ht. simpl.
    destruct (JobEvent.projectId d) as [a|], (projectId s) as [b|]; simpl;
      try reflexivity; try discriminate.
    - destruct (String.eqb a b) eqn:E; [|reflexivity].
      apply String.eqb_eq in E. subst. contradiction. }
  simpl. unfold onCompleted, onFailed. rewrite F.
  split; match goal with |- (if ?c then _ else _) = _ => destruct c end; reflexivity.
Qed.

(** *** Liveness: [N] completion events of the job resolve the promise *)

Section Liveness.
Variable run : nat.
Variable N : Z.
Variable timeoutMs : JS.jsint.
Variable label : option string.
Variable pid : string.
Hypothesis N_pos : 1 <= N.
Hypothesis pid_truthy : JS.truthy_string (Some pid) = true.














End Liveness.

End EditFacts.

(* ------------------------------------------------------------------ *)
(** * The orchestration of [main] *)

Module MainFacts.
Import Events MainRun TableFacts.
Local Open Scope list_scope.


Section Facts.
Variable run : nat.
Variable count timeoutMs : JS.jsint.
Variable video : bool.

Lemma registered_start client :
  registered (table (start run video client)) JOB_COMPLETED (hCompleted run) = true
  /\ registered (table (start run video client)) JOB_FAILED (hFailed run) = true.
Proof.
  unfold start. simpl. unfold on.
  destruct video; rewrite !registered_app; split.
  all: repeat rewrite orb_true_iff.
  - left. left. right.
    unfold registered, entry_eqb, handler_eqb. simpl. now rewrite Nat.eqb_refl.
  - left. right.
    unfold registered, entry_eqb, handler_eqb. simpl. now rewrite Nat.eqb_refl.
  - left. right.
    unfold registered, entry_eqb, handler_eqb. simpl. now rewrite Nat.eqb_refl.
  - right.
    unfold registered, entry_eqb, handler_eqb. simpl. now rewrite Nat.eqb_refl.
Qed.

(** No step of [main]'s orchestration touches the listener table. *)
Lemma step_table s x : table (step run count timeoutMs video s x) = table s.
Proof.
  destruct x as [[| |] d | p | | id | e]; simpl.
  - destruct (registered _ _ _); [|reflexivity]. unfold onCompleted.
    destruct (JS.geb _ _); reflexivity.
  - destruct (registered _ _ _); reflexivity.
  - reflexivity.
  - destruct (registered _ _ _); [|reflexivity]. unfold onProgress.
    destruct p as [p|]; [destruct (0 <? p)|]; reflexivity.
  - destruct (timer s); reflexivity.
  - destruct (submission s); reflexivity.
  - destruct (submission s); reflexivity.
Qed.

Lemma feed_table l : forall s, table (feed run count timeoutMs video s l) = table s.
Proof.
  induction l as [|x l IH]; simpl; intros s; [reflexivity|].
  destruct (is_pending (outcome s)); [|reflexivity].
  now rewrite IH, step_table.
Qed.

End Facts.

(** *** Liveness *)

Section Liveness.
Variable run : nat.
Variable N : Z.
Variable timeoutMs : JS.jsint.
Variable video : bool.
Hypothesis N_pos : 1 <= N.







(** A progress report leaves everything but the log as it is. *)
Definition same_but_log (s s' : state) : Prop :=
  results s' = results s /\ completedJobs s' = completedJobs s
  /\ completion s' = completion s /\ submission s' = submission s
  /\ table s' = table s.



Lemma same_but_log_outcome s s' : same_but_log s s' -> outcome s' = outcome s.
Proof. intros (h1 & _ & h3 & h4 & _). unfold outcome. now rewrite h1, h3, h4. Qed.







End Liveness.

End MainFacts.

(* ------------------------------------------------------------------ *)
(** * The two orchestrations side by side *)

Module OrchestratorFacts.
Import Events.
Local Open Scope list_scope.

(** C3 (the code departs from it in [main]).  While [main] awaits
    [project-1], the completion event of [project-2] is counted towards
    [options.count] and is the result: with [count = 1] the promise
    resolves on it, and the script prints the other project's URL.
    [runImageEditProjectWithEvents] drops the same event. *)
Theorem main_counts_foreign_completion :
  MainRun.outcome
    (MainRun.orchestrate 0 (JS.Int 1) (JS.Int 30000) false [] Examples.cross_talk)
  = Resolved
      [JobResult.mk (Some "https://cdn.example/other.jpg") None (Some (JS.Int 42))
                    (Some 0) (Some "project-2")] None
  /\ Proc.stdout
       (snd (Flow.program Examples.env Examples.client_cross_talk Examples.node
               CliSet.none Examples.a_cat Proc.start))
     = ["https://cdn.example/other.jpg"]
  /\ EditRun.outcome
       (EditRun.runImageEditProjectWithEvents 0 (JS.Int 1) (JS.Int 30000) None []
          Examples.cross_talk)
     = Resolved
         [JobResult.mk (Some "https://cdn.example/mine.jpg") None (Some (JS.Int 42))
                       (Some 0) (Some "project-1")] (Some "project-1").
Proof. vm_compute. repeat split. Qed.

(** C4 (the code departs from it in [main]).  Whatever happens while
    [main] waits, its listeners are still in the client's table when the
    orchestration is over; the script ends with them registered. *)
Theorem main_leaves_listeners_registered run count timeoutMs video client stimuli :
  let s := MainRun.orchestrate run count timeoutMs video client stimuli in
  MainRun.table s = MainRun.table (MainRun.start run video client)
  /\ registered (MainRun.table s) JOB_COMPLETED (MainRun.hCompleted run) = true
  /\ registered (MainRun.table s) JOB_FAILED (MainRun.hFailed run) = true
  /\ Proc.listeners
       (snd (Flow.program Examples.env Examples.client Examples.node
               CliSet.none Examples.a_cat Proc.start))
     = [(JOB_COMPLETED, MainRun.hCompleted 0); (JOB_FAILED, MainRun.hFailed 0)].
Proof.
  intros s. unfold s, MainRun.orchestrate.
  rewrite MainFacts.feed_table.
  destruct (MainFacts.registered_start run video client) as [H1 H2].
  split; [reflexivity|]. split; [exact H1|]. split; [exact H2|].
  vm_compute. reflexivity.
Qed.




(** [edit_run_ignores_foreign] on the event of [project-2] while
    [project-1] is awaited. *)
Lemma edit_run_ignores_foreign_witness :
  let s := EditRun.feed 0 (JS.Int 1) (JS.Int 30000) None (EditRun.start 0 [])
             [SubmitResolved (Some "project-1")] in
  let d := Examples.completed "project-2" "https://cdn.example/other.jpg" in
  EditRun.step 0 (JS.Int 1) (JS.Int 30000) None s (Emit JOB_COMPLETED d) = s
  /\ EditRun.step 0 (JS.Int 1) (JS.Int 30000) None s (Emit JOB_FAILED d) = s.
Proof.
  intros s d. apply EditFacts.edit_run_ignores_foreign.
  - reflexivity.
  - discriminate.
Defined.

(** [edit_run_cleans_up] on a run that the timer ends. *)
Lemma edit_run_cleans_up_witness :
  let s := EditRun.runImageEditProjectWithEvents 0 (JS.Int 1) (JS.Int 30000) None []
             [SubmitResolved (Some "project-1"); TimerFired] in
  EditRun.table s = [] /\ EditRun.timer s = false
  /\ owned_by 0 (EditRun.table s) = [].
Proof.
  intros s.
  apply (EditFacts.edit_run_cleans_up 0 (JS.Int 1) (JS.Int 30000) None [] eq_refl).
  discriminate.
Defined.

End OrchestratorFacts.

(* ------------------------------------------------------------------ *)
(** * The serialization of the seed payload is injective *)

Module JsonFacts.

Lemma append_assoc (a b c : string) : (a ++ b) ++ c = a ++ (b ++ c).
Proof. induction a as [|x a IH]; simpl; [reflexivity | now rewrite IH]. Qed.

Lemma append_nil_r (a : string) : a ++ "" = a.
Proof. induction a as [|x a IH]; simpl; [reflexivity | now rewrite IH]. Qed.

(** ** Quoted strings *)

Definition hex_value (c : ascii) : nat :=
  let n := nat_of_ascii c in
  if (n <? 58)%nat then (n - 48)%nat else (n - 87)%nat.

(** Reads back one escaped character. *)
Definition unescape_char (s : string) : option (ascii * string) :=
  match s with
  | EmptyString => None
  | String h t =>
      if Ascii.eqb h Json.backslash then
        match t with
        | String e t' =>
            if Ascii.eqb e Json.dquote then Some (Json.dquote, t')
            else if Ascii.eqb e Json.backslash then Some (Json.backslash, t')
            else if Ascii.eqb e "b" then Some (ascii_of_nat 8, t')
            else if Ascii.eqb e "t" then Some (ascii_of_nat 9, t')
            else if Ascii.eqb e "n" then Some (ascii_of_nat 10, t')
            else if Ascii.eqb e "f" then Some (ascii_of_nat 12, t')
            else if Ascii.eqb e "r" then Some (ascii_of_nat 13, t')
            else match t' with
                 | String _ (String _ (String h1 (String h2 t''))) =>
                     Some (ascii_of_nat (16 * hex_value h1 + hex_value h2), t'')
                 | _ => None
                 end
        | EmptyString => None
        end
      else Some (h, t)
  end.

Lemma unescape_escape c r :
  unescape_char (Json.escape_char c ++ r) = Some (c, r).
Proof.
  destruct c as [[] [] [] [] [] [] [] []]; reflexivity.
Qed.

Lemma escape_char_not_quote c r r' :
  Json.escape_char c ++ r <> String Json.dquote r'.
Proof.
  intros H. pose proof (unescape_escape c r) as U. rewrite H in U.
  simpl in U. injection U as <- _. discriminate.
Qed.

Lemma escape_prefix s : forall t r r',
  Json.escape s ++ String Json.dquote r = Json.escape t ++ String Json.dquote r' ->
  s = t /\ r = r'.
Proof.
  induction s as [|c s IH]; intros [|d t] r r' H; simpl in H.
  - injection H as ->. auto.
  - rewrite append_assoc in H. symmetry in H.
    now apply escape_char_not_quote in H.
  - rewrite append_assoc in H. now apply escape_char_not_quote in H.
  - rewrite !append_assoc in H.
    pose proof (unescape_escape c (Json.escape s ++ String Json.dquote r)) as U.
    rewrite H, unescape_escape in U. injection U as <- U.
    destruct (IH _ _ _ (eq_sym U)) as [-> ->]. auto.
Qed.

(** A quoted string followed by anything is read back in one way. *)
Lemma quote_prefix s t r r' :
  Json.quote s ++ r = Json.quote t ++ r' -> s = t /\ r = r'.
Proof.
  unfold Json.quote. simpl. intros H. injection H as H.
  rewrite !append_assoc in H. simpl in H. now apply escape_prefix in H.
Qed.

(** ** Tokens: numbers and literals, up to the next delimiter *)

Definition delimiter (c : ascii) : bool :=
  Ascii.eqb c "," || Ascii.eqb c "]" || Ascii.eqb c "}".

Fixpoint token (s : string) : bool :=
  match s with
  | EmptyString => true
  | String c r => negb (delimiter c) && token r
  end.

Lemma token_app a b : token (a ++ b) = token a && token b.
Proof.
  induction a as [|x a IH]; simpl; [reflexivity|].
  now rewrite IH, andb_assoc.
Qed.

Lemma token_split a : forall b c c' r r',
  token a = true -> token b = true ->
  delimiter c = true -> delimiter c' = true ->
  a ++ String c r = b ++ String c' r' -> a = b /\ c = c' /\ r = r'.
Proof.
  induction a as [|x a IH]; intros [|y b] c c' r r' Ha Hb Hc Hc' H; simpl in *.
  - injection H as -> ->. auto.
  - injection H as -> _. apply andb_prop in Hb as [Hb _].
    rewrite Hc in Hb. discriminate.
  - injection H as -> _. apply andb_prop in Ha as [Ha _].
    rewrite Hc' in Ha. discriminate.
  - injection H as -> H.
    apply andb_prop in Ha as [_ Ha]. apply andb_prop in Hb as [_ Hb].
    destruct (IH _ _ _ _ _ Ha Hb Hc Hc' H) as (-> & -> & ->). auto.
Qed.

(** ** Numbers *)

Definition digit (c : ascii) : bool :=
  let n := nat_of_ascii c in ((48 <=? n) && (n <=? 57))%nat.

Fixpoint digits (s : string) : bool :=
  match s with
  | EmptyString => true
  | String c r => digit c && digits r
  end.

Lemma digits_of_uint d : digits (NilEmpty.string_of_uint d) = true.
Proof. induction d; simpl; auto. Qed.

Lemma digits_token s : digits s = true -> token s = true.
Proof.
  induction s as [|c s IH]; simpl; [reflexivity|].
  intros H. apply andb_prop in H as [Hc Hs]. rewrite (IH Hs), andb_true_r.
  destruct c as [[] [] [] [] [] [] [] []]; try reflexivity; discriminate.
Qed.

Lemma string_of_uint_inj d d' :
  NilEmpty.string_of_uint d = NilEmpty.string_of_uint d' -> d = d'.
Proof.
  intros H. pose proof (NilEmpty.usu d) as U. rewrite H, NilEmpty.usu in U.
  now injection U.
Qed.

Lemma N_toString_inj n n' : JS.N_toString n = JS.N_toString n' -> n = n'.
Proof.
  unfold JS.N_toString. intros H.
  apply string_of_uint_inj in H. now apply DecimalN.Unsigned.to_uint_inj.
Qed.

Lemma N_toString_head n :
  exists c r, JS.N_toString n = String c r /\ digit c = true.
Proof.
  unfold JS.N_toString.
  pose proof (digits_of_uint (N.to_uint n)) as D.
  destruct (NilEmpty.string_of_uint (N.to_uint n)) as [|c r] eqn:E.
  - exfalso. change EmptyString with (NilEmpty.string_of_uint Decimal.Nil) in E.
    apply string_of_uint_inj in E.
    destruct n as [|p]; simpl in E; [discriminate|].
    pose proof (DecimalPos.Unsigned.to_uint_nonnil p). contradiction.
  - simpl in D. apply andb_prop in D as [D _]. eauto.
Qed.

(** Digits, then nothing or something that starts with no digit. *)
Lemma digits_split a : forall b s s',
  digits a = true -> digits b = true ->
  (s = "" \/ exists c r, s = String c r /\ digit c = false) ->
  (s' = "" \/ exists c r, s' = String c r /\ digit c = false) ->
  a ++ s = b ++ s' -> a = b /\ s = s'.
Proof.
  induction a as [|x a IH]; intros [|y b] s s' Ha Hb Hs Hs' H; simpl in *.
  - auto.
  - apply andb_prop in Hb as [Hy _].
    destruct Hs as [-> | (c & r & -> & Hc)]; [discriminate|].
    injection H as -> _. rewrite Hy in Hc. discriminate.
  - apply andb_prop in Ha as [Hx _].
    destruct Hs' as [-> | (c & r & -> & Hc)]; [discriminate|].
    injection H as -> _. rewrite Hx in Hc. discriminate.
  - injection H as -> H.
    apply andb_prop in Ha as [_ Ha]. apply andb_prop in Hb as [_ Hb].
    destruct (IH _ _ _ Ha Hb Hs Hs' H) as [-> ->]. auto.
Qed.

Definition fraction (f : Decimal.uint) : string :=
  match f with
  | Decimal.Nil => ""
  | _ => "." ++ NilEmpty.string_of_uint f
  end.

Lemma fraction_shape f :
  fraction f = "" \/ exists c r, fraction f = String c r /\ digit c = false.
Proof. destruct f; simpl; eauto. Qed.

Lemma fraction_inj f f' : fraction f = fraction f' -> f = f'.
Proof.
  intros H. apply string_of_uint_inj.
  destruct f, f'; simpl in *; try discriminate; try reflexivity; congruence.
Qed.

Lemma real_toString_unfold r :
  JS.real_toString r
  = (if JS.negative r then "-" else "") ++ JS.N_toString (JS.int_part r)
    ++ fraction (JS.frac_part r).
Proof. destruct r as [n i f]. unfold JS.real_toString. simpl. now destruct f. Qed.

Lemma real_toString_inj r r' :
  JS.real_toString r = JS.real_toString r' -> r = r'.
Proof.
  rewrite !real_toString_unfold.
  destruct r as [n i f], r' as [n' i' f']. simpl.
  destruct (N_toString_head i) as (c & t & Hi & Hc).
  destruct (N_toString_head i') as (c' & t' & Hi' & Hc').
  assert (Hsame : JS.N_toString i ++ fraction f = JS.N_toString i' ++ fraction f'
                  -> i = i' /\ f = f').
  { intros H.
    apply digits_split in H as [H1 H2];
      try apply digits_of_uint; try apply fraction_shape.
    split; [now apply N_toString_inj | now apply fraction_inj]. }
  destruct n, n'; simpl; intros H.
  - injection H as H. destruct (Hsame H) as [-> ->]. reflexivity.
  - rewrite Hi' in H. simpl in H. injection H as <- _. discriminate.
  - rewrite Hi in H. simpl in H. injection H as -> _. discriminate.
  - destruct (Hsame H) as [-> ->]. reflexivity.
Qed.

Lemma real_toString_token r : token (JS.real_toString r) = true.
Proof.
  rewrite real_toString_unfold, !token_app.
  assert (H1 : token (JS.N_toString (JS.int_part r)) = true)
    by apply digits_token, digits_of_uint.
  assert (H2 : token (fraction (JS.frac_part r)) = true).
  { destruct (JS.frac_part r); try reflexivity;
      simpl; apply digits_token, digits_of_uint. }
  rewrite H1, H2. now destruct (JS.negative r).
Qed.

(** A number starts with its sign or a digit. *)
Lemma real_toString_head r :
  exists c t, JS.real_toString r = String c t
              /\ (c = "-"%char \/ digit c = true).
Proof.
  rewrite real_toString_unfold.
  destruct (N_toString_head (JS.int_part r)) as (c & t & -> & Hc).
  destruct (JS.negative r); simpl; eauto.
Qed.

Lemma number_token x : token (Json.number x) = true.
Proof. destruct x; [apply real_toString_token | reflexivity]. Qed.

Lemma real_not_null r : JS.real_toString r <> "null".
Proof.
  destruct (real_toString_head r) as (c & t & -> & [-> | Hc]); intros H;
    first [discriminate H | injection H as -> _; discriminate].
Qed.

Lemma number_inj x y : Json.number x = Json.number y -> x = y.
Proof.
  destruct x as [r|], y as [r'|]; simpl; intros H.
  - f_equal. now apply real_toString_inj.
  - now apply real_not_null in H.
  - symmetry in H. now apply real_not_null in H.
  - reflexivity.
Qed.

Lemma real_of_Z_inj z z' : JS.real_of_Z z = JS.real_of_Z z' -> z = z'.
Proof.
  unfold JS.real_of_Z. intros H. injection H as Hs Ha.
  assert (Z.abs z = Z.abs z') by (rewrite <- !N2Z.inj_abs_N; now f_equal).
  destruct (Z.ltb_spec z 0), (Z.ltb_spec z' 0); try discriminate; lia.
Qed.

Lemma of_int_number n : exists x, Json.stringify (Json.of_int n) = Json.number x.
Proof.
  destruct n as [z|]; [exists (JS.Fin (JS.real_of_Z z)) | exists JS.NonFinite];
    reflexivity.
Qed.

Lemma of_int_inj n m :
  Json.stringify (Json.of_int n) = Json.stringify (Json.of_int m) -> n = m.
Proof.
  destruct n as [z|], m as [z'|]; simpl; intros H.
  - f_equal. now apply real_of_Z_inj, real_toString_inj.
  - now apply real_not_null in H.
  - symmetry in H. now apply real_not_null in H.
  - reflexivity.
Qed.

(** ** The encoders of the payload's fields *)

(** A value whose text ends at the next delimiter. *)
Definition delimited {A} (enc : A -> string) (ok : A -> Prop) : Prop :=
  forall x y c c' r r',
    ok x -> ok y -> delimiter c = true -> delimiter c' = true ->
    enc x ++ String c r = enc y ++ String c' r' -> x = y /\ r = r'.

Lemma delimited_of_token {A} (enc : A -> string) (ok : A -> Prop) :
  (forall x, token (enc x) = true) ->
  (forall x y, ok x -> ok y -> enc x = enc y -> x = y) ->
  delimited enc ok.
Proof.
  intros Ht Hinj x y c c' r r' Hx Hy Hc Hc' H.
  apply token_split in H as (H & _ & ->); auto.
Qed.

Lemma delimited_comma {A} (enc : A -> string) (ok : A -> Prop) :
  delimited enc ok ->
  forall x y r r', ok x -> ok y ->
    enc x ++ String "," r = enc y ++ String "," r' -> x = y /\ r = r'.
Proof. intros H x y r r' Hx Hy. now apply H. Qed.

Lemma delimited_brace {A} (enc : A -> string) (ok : A -> Prop) :
  delimited enc ok ->
  forall x y r r', ok x -> ok y ->
    enc x ++ String "}" r = enc y ++ String "}" r' -> x = y /\ r = r'.
Proof. intros H x y r r' Hx Hy. now apply H. Qed.

Definition any {A} (_ : A) : Prop := True.

Lemma int_delimited : delimited (fun n => Json.stringify (Json.of_int n)) any.
Proof.
  apply delimited_of_token.
  - intros n. destruct (of_int_number n) as [x ->]. apply number_token.
  - intros x y _ _. apply of_int_inj.
Qed.

Lemma optbool_delimited :
  delimited (fun b => Json.stringify (Seed.of_optbool b)) any.
Proof.
  apply delimited_of_token.
  - intros [[|]|]; reflexivity.
  - intros [[|]|] [[|]|] _ _ H; try reflexivity; discriminate.
Qed.

Definition finite_int (n : option JS.jsint) : Prop := n <> Some JS.NaN.
Definition finite_float (x : option JS.jsfloat) : Prop := x <> Some JS.NonFinite.

Lemma optint_delimited :
  delimited (fun n => Json.stringify (Seed.of_optint n)) finite_int.
Proof.
  apply delimited_of_token.
  - intros [n|]; [|reflexivity]. simpl.
    destruct (of_int_number n) as [x ->]. apply number_token.
  - unfold finite_int. intros [[z|]|] [[z'|]|] Hx Hy H; simpl in H;
      try contradiction; try reflexivity.
    + do 2 f_equal. now apply real_of_Z_inj, real_toString_inj.
    + now apply real_not_null in H.
    + symmetry in H. now apply real_not_null in H.
Qed.

Lemma optfloat_delimited :
  delimited (fun x => Json.stringify (Seed.of_optfloat x)) finite_float.
Proof.
  apply delimited_of_token.
  - intros [x|]; [apply number_token | reflexivity].
  - unfold finite_float. intros [[r|]|] [[r'|]|] Hx Hy H; simpl in H;
      try contradiction; try reflexivity.
    + do 2 f_equal. now apply real_toString_inj.
    + now apply real_not_null in H.
    + symmetry in H. now apply real_not_null in H.
Qed.

(** A value whose text is read back whatever follows. *)
Definition self_delimiting {A} (enc : A -> string) : Prop :=
  forall x y r r', enc x ++ r = enc y ++ r' -> x = y /\ r = r'.

Lemma string_self_delimiting :
  self_delimiting (fun s => Json.stringify (Json.JString s)).
Proof. intros x y r r'. simpl. apply quote_prefix. Qed.

Lemma optstring_self_delimiting :
  self_delimiting (fun s => Json.stringify (Seed.of_optstring s)).
Proof.
  intros [x|] [y|] r r' H; simpl in H.
  - apply quote_prefix in H as [-> ->]. auto.
  - discriminate.
  - discriminate.
  - injection H as ->. auto.
Qed.

(** *** Arrays *)

Definition string_items (l : list string) : string :=
  JS.join "," (map Json.stringify (map Json.JString l)).

Lemma string_items_cons x y l :
  string_items (x :: y :: l) = Json.quote x ++ String "," (string_items (y :: l)).
Proof. reflexivity. Qed.

Lemma string_items_prefix l : forall l' r r',
  string_items l ++ String "]" r = string_items l' ++ String "]" r' ->
  l = l' /\ r = r'.
Proof.
  induction l as [|x l IH]; intros [|y l'] r r' H.
  - injection H as ->. auto.
  - destruct l'; discriminate.
  - destruct l; discriminate.
  - destruct l as [|x' l], l' as [|y' l'].
    + apply quote_prefix in H as [-> H]. injection H as ->. auto.
    + rewrite string_items_cons, append_assoc in H.
      apply quote_prefix in H as [_ H]. discriminate.
    + rewrite string_items_cons, append_assoc in H.
      apply quote_prefix in H as [_ H]. discriminate.
    + rewrite !string_items_cons, !append_assoc in H.
      apply quote_prefix in H as [-> H]. simpl in H. injection H as H.
      apply IH in H as [-> ->]. auto.
Qed.

Lemma strings_self_delimiting :
  self_delimiting (fun l => Json.stringify (Json.of_strings l)).
Proof.
  intros l l' r r' H. unfold Json.of_strings in H. simpl in H.
  injection H as H. fold (string_items l) in H. fold (string_items l') in H.
  rewrite !append_assoc in H. simpl in H. now apply string_items_prefix in H.
Qed.

Definition real_items (l : list JS.real) : string :=
  JS.join "," (map Json.stringify (map (fun r => Json.JNumber (JS.Fin r)) l)).

Lemma real_items_cons x y l :
  real_items (x :: y :: l) = JS.real_toString x ++ String "," (real_items (y :: l)).
Proof. reflexivity. Qed.

Lemma real_items_prefix l : forall l' r r',
  real_items l ++ String "]" r = real_items l' ++ String "]" r' ->
  l = l' /\ r = r'.
Proof.
  assert (Hhead : forall x t r, String "]" r <> JS.real_toString x ++ t).
  { intros x t r H. destruct (real_toString_head x) as (c & u & E & Hc).
    rewrite E in H. simpl in H. injection H as <- _.
    destruct Hc; discriminate. }
  induction l as [|x l IH]; intros [|y l'] r r' H.
  - injection H as ->. auto.
  - destruct l'; [|rewrite real_items_cons, append_assoc in H];
      now apply Hhead in H.
  - symmetry in H. destruct l; [|rewrite real_items_cons, append_assoc in H];
      now apply Hhead in H.
  - destruct l as [|x' l], l' as [|y' l'].
    + apply token_split in H as (H & _ & ->);
        try apply real_toString_token; try reflexivity.
      apply real_toString_inj in H as ->. auto.
    + rewrite real_items_cons, append_assoc in H. simpl in H.
      apply token_split in H as (_ & H & _);
        try apply real_toString_token; try reflexivity. discriminate.
    + rewrite real_items_cons, append_assoc in H. simpl in H.
      apply token_split in H as (_ & H & _);
        try apply real_toString_token; try reflexivity. discriminate.
    + rewrite !real_items_cons, !append_assoc in H. simpl in H.
      apply token_split in H as (H1 & _ & H);
        try apply real_toString_token; try reflexivity.
      apply real_toString_inj in H1 as ->.
      apply IH in H as [-> ->]. auto.
Qed.

Lemma reals_self_delimiting :
  self_delimiting (fun l => Json.stringify (Json.of_reals l)).
Proof.
  intros l l' r r' H. unfold Json.of_reals in H. simpl in H.
  injection H as H. fold (real_items l) in H. fold (real_items l') in H.
  rewrite !append_assoc in H. simpl in H. now apply real_items_prefix in H.
Qed.


Lemma int_comma n m r r' :
  Json.stringify (Json.of_int n) ++ String "," r
  = Json.stringify (Json.of_int m) ++ String "," r' -> n = m /\ r = r'.
Proof. apply (delimited_comma _ _ int_delimited n m r r' I I). Qed.

Lemma optbool_comma b b' r r' :
  Json.stringify (Seed.of_optbool b) ++ String "," r
  = Json.stringify (Seed.of_optbool b') ++ String "," r' -> b = b' /\ r = r'.
Proof. apply (delimited_comma _ _ optbool_delimited b b' r r' I I). Qed.

Lemma optint_comma n m r r' :
  finite_int n -> finite_int m ->
  Json.stringify (Seed.of_optint n) ++ String "," r
  = Json.stringify (Seed.of_optint m) ++ String "," r' -> n = m /\ r = r'.
Proof. apply (delimited_comma _ _ optint_delimited n m r r'). Qed.

Lemma optfloat_brace x y r r' :
  finite_float x -> finite_float y ->
  Json.stringify (Seed.of_optfloat x) ++ String "}" r
  = Json.stringify (Seed.of_optfloat y) ++ String "}" r' -> x = y /\ r = r'.
Proof. apply (delimited_brace _ _ optfloat_delimited x y r r'). Qed.

(** ** The payload *)

(** One member of the object, and what follows it. *)
Definition member (key value rest : string) : string :=
  Json.quote key ++ String ":" (value ++ rest).

Lemma String_inj c (a b : string) : String c a = String c b -> a = b.
Proof. intros H. now injection H. Qed.

Lemma member_prefix k v v' r r' :
  member k v r = member k v' r' -> v ++ r = v' ++ r'.
Proof.
  unfold member. intros H. apply quote_prefix in H as [_ H]. now injection H.
Qed.

(** The text of the payload, member after member. *)
Definition flat (p : Seed.payload) : string :=
  String "{"
   (member "prompt" (Json.stringify (Json.JString (Seed.prompt p))) (String ","
   (member "model" (Json.stringify (Json.JString (Seed.model p))) (String ","
   (member "workflow" (Json.stringify (Seed.of_optstring (Seed.workflow p))) (String ","
   (member "width" (Json.stringify (Json.of_int (Seed.width p))) (String ","
   (member "height" (Json.stringify (Json.of_int (Seed.height p))) (String ","
   (member "azimuth" (Json.stringify (Json.JString (Seed.azimuth p))) (String ","
   (member "elevation" (Json.stringify (Json.JString (Seed.elevation p))) (String ","
   (member "distance" (Json.stringify (Json.JString (Seed.distance p))) (String ","
   (member "angleDescription" (Json.stringify (Json.JString (Seed.angleDescription p))) (String ","
   (member "outputFormat" (Json.stringify (Json.JString (Seed.outputFormat p))) (String ","
   (member "sampler" (Json.stringify (Json.JString (Seed.sampler p))) (String ","
   (member "scheduler" (Json.stringify (Json.JString (Seed.scheduler p))) (String ","
   (member "loras" (Json.stringify (Json.of_strings (Seed.loras p))) (String ","
   (member "loraStrengths" (Json.stringify (Json.of_reals (Seed.loraStrengths p))) (String ","
   (member "refImage" (Json.stringify (Json.JString (Seed.refImage p))) (String ","
   (member "refImageEnd" (Json.stringify (Json.JString (Seed.refImageEnd p))) (String ","
   (member "refAudio" (Json.stringify (Json.JString (Seed.refAudio p))) (String ","
   (member "refVideo" (Json.stringify (Json.JString (Seed.refVideo p))) (String ","
   (member "contextImages" (Json.stringify (Json.of_strings (Seed.contextImages p))) (String ","
   (member "autoResizeVideoAssets" (Json.stringify (Seed.of_optbool (Seed.autoResizeVideoAssets p))) (String ","
   (member "tokenType" (Json.stringify (Json.JString (Seed.tokenType p))) (String ","
   (member "steps" (Json.stringify (Seed.of_optint (Seed.steps p))) (String ","
   (member "guidance" (Json.stringify (Seed.of_optfloat (Seed.guidance p))) "}"))))))))))))))))))))))))))))))))))))))))))))).

Lemma serialize_flat p : Seed.serialize p = flat p.
Proof.
  unfold Seed.serialize, Seed.fields, flat, member.
  cbn [Json.stringify map JS.join fst snd].
  rewrite !append_assoc. reflexivity.
Qed.

(** Two payloads with the same text are the same payload, as long as
    [steps] and [guidance] are finite where they are set (a NaN is written
    as [null], like a value that is not set). *)
Lemma serialize_inj p q :
  finite_int (Seed.steps p) -> finite_int (Seed.steps q) ->
  finite_float (Seed.guidance p) -> finite_float (Seed.guidance q) ->
  Seed.serialize p = Seed.serialize q -> p = q.
Proof.
  intros Hsp Hsq Hgp Hgq H. rewrite !serialize_flat in H. unfold flat in H.
  apply String_inj in H.
  apply member_prefix in H. apply string_self_delimiting in H as [E0 H].
  apply String_inj in H.
  apply member_prefix in H. apply string_self_delimiting in H as [E1 H].
  apply String_inj in H.
  apply member_prefix in H. apply optstring_self_delimiting in H as [E2 H].
  apply String_inj in H.
  apply member_prefix in H.
  apply int_comma in H as [E3 H].
  apply member_prefix in H.
  apply int_comma in H as [E4 H].
  apply member_prefix in H. apply string_self_delimiting in H as [E5 H].
  apply String_inj in H.
  apply member_prefix in H. apply string_self_delimiting in H as [E6 H].
  apply String_inj in H.
  apply member_prefix in H. apply string_self_delimiting in H as [E7 H].
  apply String_inj in H.
  apply member_prefix in H. apply string_self_delimiting in H as [E8 H].
  apply String_inj in H.
  apply member_prefix in H. apply string_self_delimiting in H as [E9 H].
  apply String_inj in H.
  apply member_prefix in H. apply string_self_delimiting in H as [E10 H].
  apply String_inj in H.
  apply member_prefix in H. apply string_self_delimiting in H as [E11 H].
  apply String_inj in H.
  apply member_prefix in H. apply strings_self_delimiting in H as [E12 H].
  apply String_inj in H.
  apply member_prefix in H. apply reals_self_delimiting in H as [E13 H].
  apply String_inj in H.
  apply member_prefix in H. apply string_self_delimiting in H as [E14 H].
  apply String_inj in H.
  apply member_prefix in H. apply string_self_delimiting in H as [E15 H].
  apply String_inj in H.
  apply member_prefix in H. apply string_self_delimiting in H as [E16 H].
  apply String_inj in H.
  apply member_prefix in H. apply string_self_delimiting in H as [E17 H].
  apply String_inj in H.
  apply member_prefix in H. apply strings_self_delimiting in H as [E18 H].
  apply String_inj in H.
  apply member_prefix in H.
  apply optbool_comma in H as [E19 H].
  apply member_prefix in H. apply string_self_delimiting in H as [E20 H].
  apply String_inj in H.
  apply member_prefix in H.
  apply (optint_comma _ _ _ _ Hsp Hsq) in H as [E21 H].
  apply member_prefix in H.
  apply (optfloat_brace _ _ _ _ Hgp Hgq) in H as [E22 _].
  destruct p, q. simpl in *. subst. reflexivity.
Qed.

End JsonFacts.

(* ------------------------------------------------------------------ *)
(** * The prompt-hash seed *)

Module SeedFacts.
Local Open Scope list_scope.

Lemma word_bytes_range w : Forall (fun b => 0 <= b < 256) (Sha256.word_bytes w).
Proof.
  unfold Sha256.word_bytes.
  repeat constructor; apply Z.mod_pos_bound; lia.
Qed.

Lemma digest_bytes msg : Forall (fun b => 0 <= b < 256) (Sha256.digest msg).
Proof.
  unfold Sha256.digest. repeat (apply Forall_app; split); apply word_bytes_range.
Qed.

Lemma digest_length msg : List.length (Sha256.digest msg) = 32%nat.
Proof.
  unfold Sha256.digest, Sha256.word_bytes. rewrite !length_app. reflexivity.
Qed.

Lemma be32_range b0 b1 b2 b3 :
  0 <= b0 < 256 -> 0 <= b1 < 256 -> 0 <= b2 < 256 -> 0 <= b3 < 256 ->
  0 <= Sha256.be32 b0 b1 b2 b3 < 2 ^ 32.
Proof. unfold Sha256.be32. intros. lia. Qed.

Lemma nth_range (l : list Z) i :
  Forall (fun b => 0 <= b < 256) l -> 0 <= nth i l 0 < 256.
Proof.
  intros H. destruct (Nat.lt_ge_cases i (List.length l)) as [Hi | Hi].
  - rewrite Forall_forall in H. apply H. now apply nth_In.
  - rewrite nth_overflow by exact Hi. lia.
Qed.

Lemma readUInt32BE0_range buf :
  Forall (fun b => 0 <= b < 256) buf -> 0 <= Seed.readUInt32BE0 buf < 2 ^ 32.
Proof.
  intros H. unfold Seed.readUInt32BE0. apply be32_range; now apply nth_range.
Qed.


Lemma be32_inj b0 b1 b2 b3 c0 c1 c2 c3 :
  0 <= b0 < 256 -> 0 <= b1 < 256 -> 0 <= b2 < 256 -> 0 <= b3 < 256 ->
  0 <= c0 < 256 -> 0 <= c1 < 256 -> 0 <= c2 < 256 -> 0 <= c3 < 256 ->
  Sha256.be32 b0 b1 b2 b3 = Sha256.be32 c0 c1 c2 c3 ->
  b0 = c0 /\ b1 = c1 /\ b2 = c2 /\ b3 = c3.
Proof. unfold Sha256.be32. intros. lia. Qed.

Lemma firstn_4 (l : list Z) :
  (4 <= List.length l)%nat ->
  firstn 4 l = [nth 0 l 0; nth 1 l 0; nth 2 l 0; nth 3 l 0].
Proof.
  destruct l as [|a [|b [|c [|d l]]]]; simpl; intros H; try lia. reflexivity.
Qed.

Lemma readUInt32BE0_prefix (dp dq : list Z) :
  Forall (fun b => 0 <= b < 256) dp -> Forall (fun b => 0 <= b < 256) dq ->
  (4 <= List.length dp)%nat -> (4 <= List.length dq)%nat ->
  Seed.readUInt32BE0 dp = Seed.readUInt32BE0 dq <-> firstn 4 dp = firstn 4 dq.
Proof.
  intros Hp Hq Lp Lq. rewrite !firstn_4 by assumption.
  unfold Seed.readUInt32BE0. split; intros H.
  - apply be32_inj in H; try (now apply nth_range).
    destruct H as (H0 & H1 & H2 & H3). now rewrite H0, H1, H2, H3.
  - injection H as H0 H1 H2 H3. now rewrite H0, H1, H2, H3.
Qed.

Lemma seed_eq_iff_prefix p q :
  Seed.seed_of_payload p = Seed.seed_of_payload q
  <-> firstn 4 (Seed.digest_of p) = firstn 4 (Seed.digest_of q).
Proof.
  unfold Seed.seed_of_payload, Seed.digest_of.
  apply readUInt32BE0_prefix; try apply digest_bytes; rewrite digest_length; lia.
Qed.

Definition collision_a : Seed.payload :=
  Seed.mkPayload "a cat wearing hat 185680" "z_image_turbo_bf16" (Some "image")
    (JS.Int 512) (JS.Int 512) "front" "eye-level" "medium" "" "" "" "" [] []
    "" "" "" "" [] None "" None None.

Definition collision_b : Seed.payload :=
  Seed.mkPayload "a cat wearing hat 199602" "z_image_turbo_bf16" (Some "image")
    (JS.Int 512) (JS.Int 512) "front" "eye-level" "medium" "" "" "" "" [] []
    "" "" "" "" [] None "" None None.

(** C7 (as amended).  Payloads with finite steps and guidance that differ
    in any field have different canonical texts, so the digest is taken
    over different inputs; their seeds are equal exactly when the two
    digests agree on their first four bytes. *)
Theorem different_payloads_hash_different_texts p q :
  JsonFacts.finite_int (Seed.steps p) -> JsonFacts.finite_int (Seed.steps q) ->
  JsonFacts.finite_float (Seed.guidance p) -> JsonFacts.finite_float (Seed.guidance q) ->
  p <> q ->
  Seed.serialize p <> Seed.serialize q
  /\ (Seed.seed_of_payload p = Seed.seed_of_payload q
      <-> firstn 4 (Seed.digest_of p) = firstn 4 (Seed.digest_of q)).
Proof.
  intros Hsp Hsq Hgp Hgq Hne. split; [|apply seed_eq_iff_prefix].
  intros H. apply Hne. now apply JsonFacts.serialize_inj.
Qed.

(** The theorem on the two payloads below: their texts differ, their
    digests start with the same four bytes. *)
Lemma different_payloads_hash_different_texts_witness :
  Seed.serialize collision_a <> Seed.serialize collision_b
  /\ (Seed.seed_of_payload collision_a = Seed.seed_of_payload collision_b
      <-> firstn 4 (Seed.digest_of collision_a) = firstn 4 (Seed.digest_of collision_b)).
Proof.
  apply different_payloads_hash_different_texts; discriminate.
Defined.

(** C7 as stated fails: two payloads that differ in the prompt alone have
    the same seed. *)
Lemma two_prompts_one_seed :
  Seed.prompt collision_a <> Seed.prompt collision_b
  /\ Seed.seed_of_payload collision_a = 3870678270
  /\ Seed.seed_of_payload collision_b = 3870678270.
Proof.
  split; [discriminate|]. split; vm_compute; reflexivity.
Qed.

End SeedFacts.

(* ------------------------------------------------------------------ *)
(** * Reasoning about process steps *)

Module ProcFacts.
Import Proc.

(** What a step returns, when it returns. *)
Definition returns {A} (m : M A) (Q : A -> Prop) : Prop :=
  forall w a w', m w = (Return a, w') -> Q a.

Lemma returns_ret {A} (a : A) (Q : A -> Prop) : Q a -> returns (ret a) Q.
Proof. intros H w b w' E. injection E as <- _. exact H. Qed.

Lemma returns_fail {A} line (Q : A -> Prop) : returns (fail line) Q.
Proof. intros w a w' E. discriminate. Qed.

Lemma returns_exit {A} code (Q : A -> Prop) : returns (process_exit code) Q.
Proof. intros w a w' E. discriminate. Qed.

Lemma returns_bind {A B} (m : M A) (k : A -> M B) (R : A -> Prop) (Q : B -> Prop) :
  returns m R -> (forall a, R a -> returns (k a) Q) -> returns (bind m k) Q.
Proof.
  intros Hm Hk w b w' E. unfold bind in E.
  destruct (m w) as [[a|e|c|] w1] eqn:Em; try discriminate.
  exact (Hk a (Hm _ _ _ Em) _ _ _ E).
Qed.

Lemma returns_then {A B} (m : M A) (k : M B) (Q : B -> Prop) :
  returns k Q -> returns (bind m (fun _ => k)) Q.
Proof.
  intros H. apply returns_bind with (R := fun _ => True).
  - intros w a w' _. exact I.
  - intros _ _. exact H.
Qed.

Lemma returns_weaken {A} (m : M A) (P Q : A -> Prop) :
  returns m P -> (forall a, P a -> Q a) -> returns m Q.
Proof. intros H HPQ w a w' E. apply HPQ. exact (H _ _ _ E). Qed.

Lemma returns_true {A} (m : M A) : returns m (fun _ => True).
Proof. intros w a w' _. exact I. Qed.

Lemma bind_return_inv {A B} (m : M A) (k : A -> M B) w b w' :
  bind m k w = (Return b, w') ->
  exists a w1, m w = (Return a, w1) /\ k a w1 = (Return b, w').
Proof.
  unfold bind. destruct (m w) as [[a|e|c|] w1]; try discriminate. eauto.
Qed.

(** A step that touches the error stream only: nothing is printed on the
    standard output, no file is written, the client is not called. *)
Definition same_but_stderr (w w' : World) : Prop :=
  stdout w' = stdout w /\ files w' = files w /\ calls w' = calls w
  /\ listeners w' = listeners w /\ runs w' = runs w.

Definition stderr_only {A} (m : M A) : Prop :=
  forall w out w', m w = (out, w') -> same_but_stderr w w'.

Lemma same_refl w : same_but_stderr w w.
Proof. repeat split. Qed.

Lemma same_trans w1 w2 w3 :
  same_but_stderr w1 w2 -> same_but_stderr w2 w3 -> same_but_stderr w1 w3.
Proof.
  intros (a & b & c & d & e) (a' & b' & c' & d' & e').
  repeat split; congruence.
Qed.

Lemma so_ret {A} (a : A) : stderr_only (ret a).
Proof. intros w out w' E. injection E as _ <-. apply same_refl. Qed.

Lemma so_exit {A} code : stderr_only (@process_exit A code).
Proof. intros w out w' E. injection E as _ <-. apply same_refl. Qed.

Lemma so_console_error line : stderr_only (console_error line).
Proof. intros w out w' E. injection E as _ <-. repeat split. Qed.

Lemma so_bind {A B} (m : M A) (k : A -> M B) :
  stderr_only m -> (forall a, stderr_only (k a)) -> stderr_only (bind m k).
Proof.
  intros Hm Hk w out w' E. unfold bind in E.
  destruct (m w) as [[a|e|c|] w1] eqn:Em.
  - eapply same_trans; [exact (Hm _ _ _ Em) | exact (Hk _ _ _ _ E)].
  - injection E as _ <-. exact (Hm _ _ _ Em).
  - injection E as _ <-. exact (Hm _ _ _ Em).
  - injection E as _ <-. exact (Hm _ _ _ Em).
Qed.

Lemma so_fail {A} line : stderr_only (@fail A line).
Proof. apply so_bind; [apply so_console_error | intros; apply so_exit]. Qed.

Lemma so_when b m : stderr_only m -> stderr_only (when b m).
Proof. intros H. destruct b; [exact H | apply so_ret]. Qed.

End ProcFacts.

Ltac stderr_only_tac :=
  repeat first
    [ apply ProcFacts.so_ret
    | apply ProcFacts.so_fail
    | apply ProcFacts.so_exit
    | apply ProcFacts.so_console_error
    | apply ProcFacts.so_when
    | apply ProcFacts.so_bind; [|intros]
    | match goal with
      | |- ProcFacts.stderr_only (if ?c then _ else _) => destruct c
      | |- ProcFacts.stderr_only (match ?x with _ => _ end) => destruct x
      | |- ProcFacts.stderr_only (let _ := _ in _) => cbv zeta
      end ].

Module CompileFacts.
Import Cli Compile ProcFacts.

Lemma so_normalizeMultiAngleValue v aliases keys label :
  stderr_only (normalizeMultiAngleValue v aliases keys label).
Proof. unfold normalizeMultiAngleValue. stderr_only_tac. Qed.

Lemma so_checkTokenType o : stderr_only (checkTokenType o).
Proof. unfold checkTokenType. stderr_only_tac. Qed.

Lemma so_checkSeedStrategy o : stderr_only (checkSeedStrategy o).
Proof. unfold checkSeedStrategy. stderr_only_tac. Qed.

Lemma so_checkNumbers cs o : stderr_only (checkNumbers cs o).
Proof. unfold checkNumbers. stderr_only_tac. Qed.

Lemma so_loneStrength o : stderr_only (loneStrength o).
Proof. unfold loneStrength. stderr_only_tac. Qed.

Lemma so_multiAngleBlock cs o : stderr_only (multiAngleBlock cs o).
Proof.
  unfold multiAngleBlock.
  repeat first
    [ apply so_normalizeMultiAngleValue | apply so_loneStrength
    | progress stderr_only_tac ].
Qed.

Lemma so_checkOutputFormat o : stderr_only (checkOutputFormat o).
Proof. unfold checkOutputFormat. stderr_only_tac. Qed.

Lemma so_checkExclusive o : stderr_only (checkExclusive o).
Proof. unfold checkExclusive. stderr_only_tac. Qed.

Lemma so_resolveWorkflow e o : stderr_only (resolveWorkflow e o).
Proof. unfold resolveWorkflow. stderr_only_tac. Qed.

Lemma so_resolveLastImage o : stderr_only (resolveLastImage o).
Proof. unfold resolveLastImage. stderr_only_tac. Qed.

Lemma so_checkPrompt o : stderr_only (checkPrompt o).
Proof. unfold checkPrompt. stderr_only_tac. Qed.

Lemma so_checkAssets o : stderr_only (checkAssets o).
Proof. unfold checkAssets. stderr_only_tac. Qed.

Lemma so_checkContextImages e o : stderr_only (checkContextImages e o).
Proof. unfold checkContextImages. stderr_only_tac. Qed.

Lemma so_loadLastSeed e o : stderr_only (loadLastSeed e o).
Proof. unfold loadLastSeed. stderr_only_tac. Qed.

Lemma so_deriveSeed e o : stderr_only (deriveSeed e o).
Proof. unfold deriveSeed. stderr_only_tac. Qed.

(** X1.  The request compiler writes to the error stream and nowhere else:
    whatever it does -- return the options or exit on a validation
    failure -- nothing is printed on the standard output, no file is
    written and the client is not called. *)
Theorem compile_touches_stderr_only e cs o : stderr_only (compile e cs o).
Proof.
  unfold compile. destruct (applyConfig e cs o) as [o0 tfc].
  repeat (apply so_bind; [|intros]);
    first [ apply so_checkTokenType | apply so_checkSeedStrategy
          | apply so_checkNumbers | apply so_multiAngleBlock
          | apply so_checkOutputFormat | apply so_checkExclusive
          | apply so_resolveWorkflow | apply so_resolveLastImage
          | apply so_checkPrompt | apply so_checkAssets
          | apply so_checkContextImages | apply so_loadLastSeed
          | apply so_deriveSeed ].
Qed.

(** ** The LoRA fields through the compiler *)

Definition same_lora (o o' : Options) : Prop :=
  loras o' = loras o /\ loraStrengths o' = loraStrengths o
  /\ angleStrength o' = angleStrength o /\ multiAngle o' = multiAngle o.

Lemma same_lora_refl o : same_lora o o.
Proof. repeat split. Qed.

Lemma same_lora_trans a b c : same_lora a b -> same_lora b c -> same_lora a c.
Proof.
  intros (h1 & h2 & h3 & h4) (k1 & k2 & k3 & k4). repeat split; congruence.
Qed.

Ltac returns_tac :=
  repeat first
    [ apply returns_fail
    | apply returns_exit
    | apply returns_ret
    | apply returns_then
    | match goal with
      | |- returns (if ?c then _ else _) _ => destruct c eqn:?
      | |- returns (match ?x with _ => _ end) _ => destruct x eqn:?
      | |- returns (let _ := _ in _) _ => cbv zeta
      end ].

Ltac frame_tac :=
  repeat split;
  repeat match goal with
         | |- context [if ?c then _ else _] => destruct c
         | |- context [match ?x with _ => _ end] => destruct x
         end;
  reflexivity.

Lemma keeps_checkTokenType o : returns (checkTokenType o) (same_lora o).
Proof. unfold checkTokenType. returns_tac; repeat split. Qed.

Lemma keeps_checkSeedStrategy o : returns (checkSeedStrategy o) (same_lora o).
Proof. unfold checkSeedStrategy. returns_tac; repeat split. Qed.

Lemma keeps_checkNumbers cs o : returns (checkNumbers cs o) (same_lora o).
Proof. unfold checkNumbers. returns_tac; repeat split. Qed.

Lemma keeps_checkOutputFormat o : returns (checkOutputFormat o) (same_lora o).
Proof. unfold checkOutputFormat. returns_tac; repeat split. Qed.

Lemma keeps_resolveWorkflow e o : returns (resolveWorkflow e o) (same_lora o).
Proof.
  unfold resolveWorkflow. destruct (video o); [|apply returns_ret, same_lora_refl].
  simpl. eapply returns_bind with (R := same_lora o).
  - returns_tac; repeat split.
  - intros a Ha. returns_tac; exact Ha.
Qed.

Lemma keeps_resolveLastImage o : returns (resolveLastImage o) (same_lora o).
Proof.
  unfold resolveLastImage.
  destruct (JS.truthy_string (_lastImagePath o)); [|apply returns_ret, same_lora_refl].
  eapply returns_bind with (R := same_lora o).
  - returns_tac; frame_tac.
  - intros a Ha. apply returns_ret. exact Ha.
Qed.

Lemma keeps_applyTypeDefaults e cs t o : same_lora o (applyTypeDefaults e cs t o).
Proof.
  unfold applyTypeDefaults.
  repeat match goal with
         | |- context [if ?c then _ else _] => destruct c
         end; repeat split.
Qed.

Lemma keeps_checkPrompt o : returns (checkPrompt o) (same_lora o).
Proof. unfold checkPrompt. returns_tac; repeat split. Qed.

Lemma keeps_checkAssets o : returns (checkAssets o) (same_lora o).
Proof. unfold checkAssets. returns_tac; repeat split. Qed.

Lemma keeps_checkContextImages e o : returns (checkContextImages e o) (same_lora o).
Proof.
  unfold checkContextImages. returns_tac; repeat split.
Qed.

Lemma keeps_loadLastSeed e o : returns (loadLastSeed e o) (same_lora o).
Proof.
  unfold loadLastSeed. returns_tac; repeat split.
Qed.

Lemma keeps_deriveSeed e o : returns (deriveSeed e o) (same_lora o).
Proof.
  unfold deriveSeed. returns_tac; repeat split.
Qed.

Lemma keeps_applyConfig e cs o : same_lora o (fst (applyConfig e cs o)).
Proof.
  unfold applyConfig. destruct (openclawConfig e) as [c|]; [|apply same_lora_refl].
  repeat match goal with
         | |- context [match ?x with _ => _ end] => destruct x
         end; repeat split.
Qed.

(** *** [indexOf] on string arrays *)

Lemma indexOf_none l x : JS.indexOf l x = None -> ~ In x l.
Proof.
  induction l as [|y r IH]; simpl; [tauto|].
  destruct (String.eqb y x) eqn:E; [discriminate|].
  destruct (JS.indexOf r x); [discriminate|]. intros _ [->|H].
  - rewrite String.eqb_refl in E. discriminate.
  - now apply IH.
Qed.

Lemma indexOf_nth l x i : JS.indexOf l x = Some i -> nth_error l i = Some x.
Proof.
  revert i. induction l as [|y r IH]; simpl; [discriminate|]. intros i.
  destruct (String.eqb y x) eqn:E.
  - intros [= <-]. apply String.eqb_eq in E. now subst.
  - destruct (JS.indexOf r x) as [j|]; [|discriminate].
    intros [= <-]. simpl. now apply IH.
Qed.

Lemma indexOf_lt l x i : JS.indexOf l x = Some i -> (i < List.length l)%nat.
Proof.
  intros H. apply nth_error_Some. rewrite (indexOf_nth _ _ _ H). discriminate.
Qed.

Lemma indexOf_in l x i : JS.indexOf l x = Some i -> In x l.
Proof. intros H. exact (nth_error_In _ _ (indexOf_nth _ _ _ H)). Qed.

Lemma indexOf_app_last l x :
  JS.indexOf l x = None -> JS.indexOf (l ++ [x])%list x = Some (List.length l).
Proof.
  induction l as [|y r IH]; simpl.
  - now rewrite String.eqb_refl.
  - destruct (String.eqb y x); [discriminate|].
    destruct (JS.indexOf r x); [discriminate|]. intros _. now rewrite IH.
Qed.

(** *** What the block leaves in the LoRA fields *)

(** The angle strength: [--angle-strength], else a lone [--lora-strength]
    given without any LoRA, else 0.9. *)
Definition angle_of (o : Options) : JS.real :=
  match angleStrength o with
  | Some a => a
  | None => match loras o, loraStrengths o with
            | [], [s] => s
            | _, _ => JS.r0_9
            end
  end.

Definition lora_ids (L : list string) : list string :=
  match JS.indexOf L MULTIPLE_ANGLES with
  | None => (L ++ [MULTIPLE_ANGLES])%list
  | Some _ => L
  end.

Definition default_strength (a : JS.real) (id : string) : JS.real :=
  if String.eqb id MULTIPLE_ANGLES then a else JS.r1_0.

Definition lora_strengths (L : list string) (S : list JS.real) (a : JS.real)
    : list JS.real :=
  if is_empty S then map (default_strength a) (lora_ids L)
  else match JS.indexOf L MULTIPLE_ANGLES with
       | None => (S ++ [a])%list
       | Some _ => S
       end.

Definition kept_strengths (o : Options) : list JS.real :=
  if is_empty (loras o) then [] else loraStrengths o.

Ltac lora_fields :=
  cbn [loras loraStrengths angleStrength multiAngle
       set_angleStrength set_loras set_loraStrengths fst snd] in *.

Lemma ensure_spec o :
  let a := or_else (angleStrength o) JS.r0_9 in
  let o' := ensureMultipleAngles o in
  multiAngle o' = multiAngle o /\ angleStrength o' = Some a
  /\ loras o' = lora_ids (loras o)
  /\ loraStrengths o' = lora_strengths (loras o) (loraStrengths o) a.
Proof.
  destruct o.
  unfold ensureMultipleAngles, lora_strengths, lora_ids, default_strength.
  lora_fields. set (a := or_else angleStrength0 JS.r0_9).
  destruct (JS.indexOf loras0 MULTIPLE_ANGLES) as [i|] eqn:Ei; lora_fields.
  - destruct loraStrengths0 as [|s S].
    + destruct loras0 as [|l L]; [discriminate Ei|]. cbn. auto.
    + cbn [is_empty andb].
      destruct (List.length (s :: S) =? List.length loras0)%nat eqn:El.
      * apply Nat.eqb_eq in El. apply indexOf_lt in Ei. rewrite <- El in Ei.
        apply nth_error_Some in Ei.
        destruct (nth_error (s :: S) i); [|congruence]. cbn. auto.
      * cbn. auto.
  - destruct loraStrengths0 as [|s S]; cbn [is_empty negb]; lora_fields.
    + cbn [is_empty andb].
      destruct (loras0 ++ [MULTIPLE_ANGLES])%list eqn:EL.
      * now destruct loras0.
      * cbn. auto.
    + cbn [is_empty andb app].
      destruct (List.length (s :: S ++ [a]) =?
                List.length (loras0 ++ [MULTIPLE_ANGLES]))%nat eqn:El.
      * apply Nat.eqb_eq in El.
        destruct (nth_error (s :: S ++ [a])
                    (List.length (loras0 ++ [MULTIPLE_ANGLES]) - 1)) eqn:Hn.
        { cbn. auto. }
        apply nth_error_None in Hn. rewrite <- El in Hn. simpl in Hn. lia.
      * cbn. auto.
Qed.

Lemma lone_spec o :
  returns (loneStrength o)
    (fun o1 => multiAngle o1 = multiAngle o /\ loras o1 = loras o
               /\ loraStrengths o1 = kept_strengths o
               /\ or_else (angleStrength o1) JS.r0_9 = angle_of o).
Proof.
  unfold loneStrength, kept_strengths, angle_of.
  destruct (loras o) as [|l L] eqn:EL; simpl.
  - destruct (loraStrengths o) as [|s [|s' S]] eqn:ES; simpl.
    + apply returns_ret. rewrite EL, ES. now destruct (angleStrength o).
    + apply returns_ret. destruct (angleStrength o) eqn:EA; simpl; rewrite ?EL, ?EA, ?ES; auto.
    + apply returns_fail.
  - apply returns_ret. rewrite EL. now destruct (angleStrength o).
Qed.

Lemma guidance_keeps cs o : same_lora o (defaultGuidance cs o).
Proof. unfold defaultGuidance. frame_tac. Qed.

(** The LoRA fields after the multi-angle block, from those before it. *)
Definition normalized (o o' : Options) : Prop :=
  multiAngle o' = true /\ angleStrength o' = Some (angle_of o)
  /\ loras o' = lora_ids (loras o)
  /\ loraStrengths o' = lora_strengths (loras o) (kept_strengths o) (angle_of o).

Lemma normalized_before a b c : same_lora a b -> normalized b c -> normalized a c.
Proof.
  intros (h1 & h2 & h3 & h4) (k1 & k2 & k3 & k4).
  unfold normalized, angle_of, kept_strengths in *.
  rewrite h1, h2, h3 in *. auto.
Qed.

Lemma normalized_after a b c : normalized a b -> same_lora b c -> normalized a c.
Proof.
  intros (k1 & k2 & k3 & k4) (h1 & h2 & h3 & h4).
  unfold normalized. rewrite h1, h2, h3, h4. auto.
Qed.

Lemma lone_then_ensure cs o :
  multiAngle o = true ->
  returns (o1 <- loneStrength o ;;
           Proc.ret (ensureMultipleAngles (defaultGuidance cs o1)))
          (normalized o).
Proof.
  intros Hm. eapply returns_bind; [apply lone_spec|].
  intros o1 (m1 & l1 & s1 & a1). apply returns_ret.
  destruct (guidance_keeps cs o1) as (g1 & g2 & g3 & g4).
  destruct (ensure_spec (defaultGuidance cs o1)) as (e1 & e2 & e3 & e4).
  unfold normalized. rewrite e1, e2, e3, e4, g1, g2, g3, g4, m1, l1, s1, a1.
  auto.
Qed.

Lemma normalized_multiAngleBlock cs o :
  multiAngle o = true -> returns (multiAngleBlock cs o) (normalized o).
Proof.
  intros Hm. unfold multiAngleBlock. rewrite Hm. cbn [negb].
  repeat match goal with
         | |- returns (if ?c then Proc.fail _ else _) _ =>
             destruct c; [apply returns_fail|]
         end.
  cbv zeta.
  eapply returns_bind with (R := same_lora o).
  { returns_tac; try frame_tac.
    eapply returns_bind; [apply returns_true|]. intros a _.
    apply returns_ret. frame_tac. }
  intros o1 H1.
  eapply returns_bind; [apply returns_true|]. intros el _.
  eapply returns_bind; [apply returns_true|]. intros di _.
  match goal with
  | |- returns (if ?c then _ else _) _ => destruct c; [apply returns_fail|]
  end.
  match goal with
  | |- returns (Proc.bind (loneStrength ?x) _) _ =>
      assert (Hx : same_lora o1 x) by frame_tac;
      apply (returns_weaken _ (normalized x));
      [ apply lone_then_ensure; destruct Hx as (_ & _ & _ & ->);
        destruct H1 as (_ & _ & _ & ->); exact Hm
      | intros b Hb; eapply normalized_before;
        [eapply same_lora_trans; [exact H1 | exact Hx] | exact Hb] ]
  end.
Qed.

Lemma checkExclusive_lengths o :
  returns (checkExclusive o)
    (fun o' => o' = o
               /\ (loraStrengths o = []
                   \/ List.length (loraStrengths o) = List.length (loras o))).
Proof.
  unfold checkExclusive.
  destruct (loraStrengths o) as [|s S] eqn:ES.
  - returns_tac; auto.
  - destruct (loras o) as [|l L] eqn:EL; cbn [is_empty negb andb].
    + apply returns_fail.
    + destruct (List.length (s :: S) =? List.length (l :: L))%nat eqn:El;
        cbn [negb]; [|apply returns_fail].
      apply Nat.eqb_eq in El. returns_tac; auto.
Qed.

Lemma lora_ids_not_empty L : lora_ids L <> [].
Proof.
  unfold lora_ids. destruct (JS.indexOf L MULTIPLE_ANGLES) eqn:E.
  - destruct L; [discriminate E | discriminate].
  - now destruct L.
Qed.

Lemma lora_strengths_not_empty L K a : lora_strengths L K a <> [].
Proof.
  unfold lora_strengths. destruct K as [|k K]; cbn [is_empty].
  - pose proof (lora_ids_not_empty L). now destruct (lora_ids L).
  - now destruct (JS.indexOf L MULTIPLE_ANGLES).
Qed.

Lemma compile_normalized e cs o :
  multiAngle o = true ->
  returns (compile e cs o)
    (fun o' => normalized o o'
               /\ List.length (loraStrengths o') = List.length (loras o')).
Proof.
  intros Hm. unfold compile.
  pose proof (keeps_applyConfig e cs o) as H0.
  destruct (applyConfig e cs o) as [o0 t]. cbn [fst] in H0.
  eapply returns_bind; [apply keeps_checkTokenType|]. intros o1 H1.
  eapply returns_bind; [apply keeps_checkSeedStrategy|]. intros o2 H2.
  eapply returns_bind; [apply keeps_checkNumbers|]. intros o3 H3.
  assert (S3 : same_lora o o3) by eauto using same_lora_trans.
  eapply returns_bind.
  { apply normalized_multiAngleBlock. destruct S3 as (_ & _ & _ & ->). exact Hm. }
  intros o4 H4.
  eapply returns_bind; [apply keeps_checkOutputFormat|]. intros o5 H5.
  eapply returns_bind; [apply checkExclusive_lengths|]. intros o6 (-> & H6).
  assert (N5 : normalized o o5)
    by (eapply normalized_before; [exact S3|];
        eapply normalized_after; [exact H4 | exact H5]).
  assert (Hlen : List.length (loraStrengths o5) = List.length (loras o5)).
  { destruct H6 as [H6|H6]; [|exact H6].
    destruct N5 as (_ & _ & _ & N). rewrite N in H6.
    now apply lora_strengths_not_empty in H6. }
  eapply returns_bind; [apply keeps_resolveWorkflow|]. intros o7 H7.
  eapply returns_bind; [apply keeps_resolveLastImage|]. intros o8 H8.
  eapply returns_bind; [apply keeps_checkPrompt|]. intros o9 H9.
  eapply returns_bind; [apply keeps_checkAssets|]. intros o10 H10.
  eapply returns_bind; [apply keeps_checkContextImages|]. intros o11 H11.
  eapply returns_bind; [apply keeps_loadLastSeed|]. intros o12 H12.
  eapply returns_weaken; [apply keeps_deriveSeed|]. intros o13 H13.
  assert (S : same_lora o5 o13).
  { pose proof (keeps_applyTypeDefaults e cs t o8).
    eauto 12 using same_lora_trans. }
  split; [eapply normalized_after; [exact N5 | exact S]|].
  destruct S as (-> & -> & _). exact Hlen.
Qed.

Lemma default_strength_self a : default_strength a MULTIPLE_ANGLES = a.
Proof. reflexivity. Qed.

Lemma count_occ_ids L :
  count_occ string_dec (lora_ids L) MULTIPLE_ANGLES
  = Nat.max 1 (count_occ string_dec L MULTIPLE_ANGLES).
Proof.
  unfold lora_ids. destruct (JS.indexOf L MULTIPLE_ANGLES) as [i|] eqn:E.
  - apply indexOf_in in E. apply (count_occ_In string_dec) in E. lia.
  - apply indexOf_none in E. rewrite count_occ_app.
    apply (count_occ_not_In string_dec) in E. rewrite E. reflexivity.
Qed.

(** C10 (as amended).  When the options of a multi-angle request compile,
    the angle strength is the [--angle-strength] value, else a lone
    [--lora-strength] given without any LoRA id, else 0.9; the LoRA ids
    contain [multiple_angles], appended once when the caller did not list
    it (so it occurs once unless the caller repeated it); there are as
    many strengths as ids; where the caller did not list [multiple_angles]
    or gave no strengths, the strength at its position is the angle
    strength; with no strengths given every other LoRA has strength 1.0;
    and where the caller listed [multiple_angles] together with strengths,
    ids and strengths are left as given. *)
Theorem multi_angle_loras_normalized e cs o o' w w' :
  multiAngle o = true ->
  compile e cs o w = (Proc.Return o', w') ->
  angleStrength o' = Some (angle_of o)
  /\ In MULTIPLE_ANGLES (loras o')
  /\ count_occ string_dec (loras o') MULTIPLE_ANGLES
     = Nat.max 1 (count_occ string_dec (loras o) MULTIPLE_ANGLES)
  /\ List.length (loraStrengths o') = List.length (loras o')
  /\ (JS.indexOf (loras o) MULTIPLE_ANGLES = None \/ loraStrengths o = [] ->
      forall i, JS.indexOf (loras o') MULTIPLE_ANGLES = Some i ->
                nth_error (loraStrengths o') i = Some (angle_of o))
  /\ (loraStrengths o = [] \/ loras o = [] ->
      loraStrengths o' = map (default_strength (angle_of o)) (loras o'))
  /\ (forall i, JS.indexOf (loras o) MULTIPLE_ANGLES = Some i ->
                loraStrengths o <> [] ->
                loras o' = loras o /\ loraStrengths o' = loraStrengths o).
Proof.
  intros Hm Hc.
  destruct (compile_normalized e cs o Hm _ _ _ Hc) as ((_ & Ha & Hl & Hs) & Hlen).
  assert (Hin : In MULTIPLE_ANGLES (loras o')).
  { apply (count_occ_In string_dec). rewrite Hl, count_occ_ids. lia. }
  assert (Hdef : loraStrengths o = [] \/ loras o = [] ->
                 loraStrengths o' = map (default_strength (angle_of o)) (loras o')).
  { intros Hk. rewrite Hs, Hl. unfold lora_strengths, kept_strengths.
    destruct Hk as [-> | ->]; [now destruct (loras o) | reflexivity]. }
  repeat split; try assumption.
  - rewrite Hl. apply count_occ_ids.
  - intros Hk i Hi.
    assert (Hcase : (loraStrengths o = [] \/ loras o = [])
                    \/ (JS.indexOf (loras o) MULTIPLE_ANGLES = None
                        /\ kept_strengths o <> [])).
    { destruct Hk as [Hk | Hk]; [|now left; left].
      destruct (kept_strengths o) eqn:Ek; [left | now right].
      unfold kept_strengths in Ek. destruct (loras o); [now right | now left]. }
    destruct Hcase as [Hk' | [Hn Hk']].
    + rewrite (Hdef Hk'). apply indexOf_nth in Hi.
      rewrite nth_error_map, Hi. reflexivity.
    + rewrite Hs, Hl in Hlen. rewrite Hl in Hi. rewrite Hs.
      unfold lora_strengths, lora_ids in *. rewrite Hn in *.
      rewrite (indexOf_app_last _ _ Hn) in Hi. injection Hi as <-.
      destruct (kept_strengths o) as [|k K] eqn:Ek; [congruence|].
      cbn [is_empty] in *. rewrite !length_app in Hlen. simpl in Hlen.
      assert (Hk2 : List.length (loras o) = List.length (k :: K)) by (simpl; lia).
      rewrite Hk2, nth_error_app2, Nat.sub_diag; [reflexivity | lia].
  - rewrite Hl. unfold lora_ids. now rewrite H.
  - rewrite Hs. unfold lora_strengths, kept_strengths. rewrite H.
    destruct (loras o) as [|l L]; [discriminate H|]. cbn [is_empty].
    now destruct (loraStrengths o).
Qed.

(** The theorem at [--multi-angle -c subject.jpg --lora sketch]: the ids
    become [sketch; multiple_angles], the strengths [1.0; 0.9]. *)
Lemma multi_angle_loras_normalized_witness :
  exists o' w',
    compile Examples.env CliSet.none Examples.angle_with_sketch Proc.start
    = (Proc.Return o', w')
    /\ loras o' = ["sketch"; MULTIPLE_ANGLES]
    /\ angleStrength o' = Some (angle_of Examples.angle_with_sketch)
    /\ List.length (loraStrengths o') = List.length (loras o')
    /\ nth_error (loraStrengths o') 1 = Some (angle_of Examples.angle_with_sketch).
Proof.
  eexists. eexists.
  match goal with
  | |- ?A /\ _ => assert (E : A) by (vm_compute; reflexivity)
  end.
  split; [exact E|]. split; [reflexivity|].
  destruct (multi_angle_loras_normalized Examples.env CliSet.none
              Examples.angle_with_sketch _ Proc.start _ eq_refl E)
    as (Ha & _ & _ & Hlen & Hat & _).
  split; [exact Ha|]. split; [exact Hlen|].
  apply Hat; [left|]; reflexivity.
Defined.

(** C10 as stated fails: with [--lora multiple_angles --lora-strength 0.5]
    and no [--angle-strength] the options compile, the angle strength is
    0.9 and the strength at the [multiple_angles] position stays 0.5. *)
Lemma own_strength_is_kept :
  exists o',
    fst (compile Examples.env CliSet.none Examples.angle_with_own_strength Proc.start)
    = Proc.Return o'
    /\ angleStrength Examples.angle_with_own_strength = None
    /\ angleStrength o' = Some JS.r0_9
    /\ JS.indexOf (loras o') MULTIPLE_ANGLES = Some 0%nat
    /\ nth_error (loraStrengths o') 0 = Some JS.r0_5
    /\ JS.r0_5 <> JS.r0_9.
Proof.
  eexists. vm_compute. repeat split. discriminate.
Qed.

End CompileFacts.

(* ------------------------------------------------------------------ *)
(** * The flows of [main] *)

Module FlowFacts.
Import Cli Proc.
Local Open Scope list_scope.

(** ** What a step leaves in place *)

(** From [w] to [w'] no file is lost and no concatenation is started. *)
Definition keeps (w w' : World) : Prop :=
  (exists added, files w' = files w ++ added)
  /\ (forall p clips, In (Concat p clips) (calls w') -> In (Concat p clips) (calls w)).

Definition frame {A} (m : M A) : Prop :=
  forall w out w', m w = (out, w') -> keeps w w'.

Lemma keeps_refl w : keeps w w.
Proof. split; [exists []; now rewrite app_nil_r | auto]. Qed.

Lemma keeps_trans w1 w2 w3 : keeps w1 w2 -> keeps w2 w3 -> keeps w1 w3.
Proof.
  intros [[a Ha] Hc] [[b Hb] Hd]. split.
  - exists (a ++ b). now rewrite Hb, Ha, app_assoc.
  - auto.
Qed.

Lemma frame_ret {A} (a : A) : frame (ret a).
Proof. intros w out w' [= _ <-]. apply keeps_refl. Qed.

Lemma frame_throw {A} e : frame (@throw A e).
Proof. intros w out w' [= _ <-]. apply keeps_refl. Qed.

Lemma frame_exit {A} c : frame (@process_exit A c).
Proof. intros w out w' [= _ <-]. apply keeps_refl. Qed.

Lemma frame_stuck {A} : frame (@stuck A).
Proof. intros w out w' [= _ <-]. apply keeps_refl. Qed.

Lemma frame_console_error line : frame (console_error line).
Proof. intros w out w' [= _ <-]. split; [exists []; simpl; now rewrite app_nil_r | auto]. Qed.

Lemma frame_console_log line : frame (console_log line).
Proof. intros w out w' [= _ <-]. split; [exists []; simpl; now rewrite app_nil_r | auto]. Qed.

Lemma frame_writeFile path : frame (writeFile path).
Proof. intros w out w' [= _ <-]. split; [now exists [path] | auto]. Qed.

Lemma frame_get_listeners : frame get_listeners.
Proof. intros w out w' [= _ <-]. apply keeps_refl. Qed.

Lemma frame_set_listeners l : frame (set_listeners l).
Proof. intros w out w' [= _ <-]. split; [exists []; simpl; now rewrite app_nil_r | auto]. Qed.

Lemma frame_fresh_run : frame fresh_run.
Proof. intros w out w' [= _ <-]. split; [exists []; simpl; now rewrite app_nil_r | auto]. Qed.

Lemma frame_call c : (forall p clips, c <> Concat p clips) -> frame (call c).
Proof.
  intros Hc w out w' [= _ <-]. split; [exists []; simpl; now rewrite app_nil_r|].
  simpl. intros p clips H. apply in_app_or in H as [H | [H | []]]; [exact H|].
  now apply Hc in H.
Qed.

Lemma frame_bind {A B} (m : M A) (k : A -> M B) :
  frame m -> (forall a, frame (k a)) -> frame (bind m k).
Proof.
  intros Hm Hk w out w' E. unfold bind in E.
  destruct (m w) as [[a|e|c|] w1] eqn:Em.
  - eapply keeps_trans; [exact (Hm _ _ _ Em) | exact (Hk _ _ _ _ E)].
  - injection E as _ <-. exact (Hm _ _ _ Em).
  - injection E as _ <-. exact (Hm _ _ _ Em).
  - injection E as _ <-. exact (Hm _ _ _ Em).
Qed.

Lemma frame_fail {A} line : frame (@fail A line).
Proof. apply frame_bind; [apply frame_console_error | intros; apply frame_exit]. Qed.

Lemma frame_when b m : frame m -> frame (when b m).
Proof. intros H. destruct b; [exact H | apply frame_ret]. Qed.

Lemma frame_each {A} (f : A -> M unit) l : (forall a, frame (f a)) -> frame (each f l).
Proof.
  intros H. induction l as [|x l IH]; simpl; [apply frame_ret|].
  apply frame_bind; [apply H | intros; exact IH].
Qed.



Ltac keeps_tac :=
  repeat first
    [ apply frame_ret | apply frame_throw | apply frame_exit | apply frame_stuck
    | apply frame_fail | apply frame_console_error | apply frame_console_log
    | apply frame_writeFile | apply frame_get_listeners | apply frame_set_listeners
    | apply frame_fresh_run
    | apply frame_when
    | apply frame_each; intros
    | apply frame_call; discriminate
    | apply frame_bind; [|intros]
    | match goal with
      | |- frame (if ?c then _ else _) => destruct c
      | |- frame (match ?x with _ => _ end) => destruct x
      | |- frame (let _ := _ in _) => cbv zeta
      end ].

Section Flows.
Variable env : Compile.Env.
Variable client : Client.t.
Variable node : Node.t.
Variable options : Options.


Lemma frame_download url path : frame (Flow.downloadUrlToFile client url path).
Proof. unfold Flow.downloadUrlToFile. keeps_tac. Qed.






Lemma frame_runSegments clipDir videoFrames todo :
  forall i, frame (Flow.runSegments env client node options clipDir videoFrames i todo).
Proof.
  induction todo as [|todo IH]; intros i; simpl; [apply frame_ret|].
  apply frame_bind; [apply frame_call; discriminate | intros _].
  apply frame_bind; [keeps_tac | intros].
  apply frame_bind; [apply frame_download | intros _].
  apply frame_bind; [apply IH | intros; apply frame_ret].
Qed.

(** ** The segments of the 360 video *)

Definition clipPath (clipDir : string) (i : nat) : string :=
  Node.join node clipDir ("segment-" ++ JS.Z_toString (Z.of_nat (i + 1)) ++ ".mp4").



End Flows.



(** ** A failing job in the compound workflow *)

Section Compound.
Variable env : Compile.Env.
Variable client : Client.t.
Variable node : Node.t.
Variable options : Options.










(** What [main] does before the flow starts. *)
Definition prelude : M unit :=
  Flow.log options "Connecting to Sogni..." ;;;
  call Connect ;;;
  Flow.log options "Connected." ;;;
  when ((1 <? List.length (contextImages options))%nat && negb (quiet options))
    (console_error "Warning: --multi-angle uses the first context image only.").

(** The world in which [runMultiAngleFlow] starts. *)
Definition entry (w0 : World) : World := snd (prelude w0).









End Compound.



(** ** The whole script on two requests *)

(** C1 (the code departs from it).  The video branch of [main] passes
    [options.width] and [options.height] to the client as they are; for
    [--video --width 500 --height 512] the project is submitted with
    500 x 512, and 500 is not a multiple of 16. *)
Theorem video_size_is_submitted_as_given :
  (forall env options b1 b2 b3 b4,
      let c := Flow.videoProjectConfig env options b1 b2 b3 b4 in
      VideoProject.width c = width options /\ VideoProject.height c = height options)
  /\ exists c,
       calls (snd (Flow.program Examples.env Examples.client Examples.node
                     Examples.video_500x512_set Examples.video_500x512 Proc.start))
       = [Connect; CreateVideoProject c; SaveLastRender; Disconnect]
       /\ VideoProject.width c = JS.Int 500
       /\ VideoProject.height c = JS.Int 512
       /\ 500 mod 16 = 4.
Proof.
  split; [intros; split; reflexivity|].
  eexists. split; [vm_compute; reflexivity|]. repeat split.
Qed.

(** C2 (the code departs from it).  With [--json] and four context
    images for a model that takes three, the script writes one plain
    line on the error stream and exits with code 1: nothing is printed on
    the standard output and the client is not called.  The error object
    that [main] prints for a failure at run time has the keys [success],
    [error] and [prompt], and no error code. *)
Theorem validation_failure_prints_no_json :
  json Examples.four_context_images = true
  /\ Flow.program Examples.env Examples.client Examples.node CliSet.none
       Examples.four_context_images Proc.start
     = (Exit 1,
        mkWorld []
          ["Error: Model qwen_image_edit_2511_fp8 supports max 3 context images, got 4"%string]
          [] [] [] 0)
  /\ (forall options message,
        map fst (match Flow.errorJson options message with
                 | Json.JObject members => members
                 | _ => []
                 end)
        = ["success"; "error"; "prompt"]%string).
Proof.
  split; [reflexivity|]. split; [vm_compute; reflexivity|].
  intros. reflexivity.
Qed.

End FlowFacts.

(* ------------------------------------------------------------------ *)
(** * What the request compiler guarantees to [main] *)

Module CompileInvariants.
Import Cli Compile ProcFacts.
Local Open Scope list_scope.

(** ** Each stage: the fields it may write, and what it checks *)

Ltac options_cbv :=
  cbv
    [ set_width set_height set_count set_timeout set_tokenType
      set_seedStrategy set_contextImages set_lastImagePath set_azimuth
      set_elevation set_distance set_model set_outputFormat set_sampler
      set_scheduler set_angleDescription set_angleStrength set_loras
      set_loraStrengths set_guidance set_videoWorkflow set_refImage set_seed
      set_fps set_duration set_prompt set_output set_json set_quiet
      set_multiAngle set_angles360 set_video set_frames
      set_estimateVideoCost set_angles360Video prompt output model width
      height count json quiet timeout tokenType steps guidance outputFormat
      sampler scheduler loras loraStrengths multiAngle angles360 azimuth
      elevation distance angleStrength angleDescription seed lastSeed
      seedStrategy video videoWorkflow fps duration frames
      autoResizeVideoAssets estimateVideoCost angles360Video videoModel
      refImage refImageEnd refAudio refVideo contextImages _lastImagePath ].

Ltac options_cbn :=
  cbn
    [ set_width set_height set_count set_timeout set_tokenType
      set_seedStrategy set_contextImages set_lastImagePath set_azimuth
      set_elevation set_distance set_model set_outputFormat set_sampler
      set_scheduler set_angleDescription set_angleStrength set_loras
      set_loraStrengths set_guidance set_videoWorkflow set_refImage set_seed
      set_fps set_duration set_prompt set_output set_json set_quiet
      set_multiAngle set_angles360 set_video set_frames
      set_estimateVideoCost set_angles360Video prompt output model width
      height count json quiet timeout tokenType steps guidance outputFormat
      sampler scheduler loras loraStrengths multiAngle angles360 azimuth
      elevation distance angleStrength angleDescription seed lastSeed
      seedStrategy video videoWorkflow fps duration frames
      autoResizeVideoAssets estimateVideoCost angles360Video videoModel
      refImage refImageEnd refAudio refVideo contextImages _lastImagePath ] in *.

Ltac writes_tac :=
  hnf;
  repeat match goal with |- exists _, _ => eexists end;
  options_cbv; reflexivity.

Lemma shape_checkTokenType o :
  returns (checkTokenType o)
    (fun o' => o' = set_tokenType (tokenType o') o
               /\ (JS.truthy_string (tokenType o') = true ->
                   tokenType o' = Some "spark" \/ tokenType o' = Some "sogni")).
Proof.
  unfold checkTokenType. destruct (JS.truthy_string (tokenType o)) eqn:Ht.
  - cbv zeta.
    destruct (String.eqb (JS.toLowerCase (JS.or_empty (tokenType o))) "spark") eqn:E1;
      [|destruct (String.eqb (JS.toLowerCase (JS.or_empty (tokenType o))) "sogni") eqn:E2];
      cbn [negb andb]; try apply returns_fail; apply returns_ret.
    + apply String.eqb_eq in E1. split; [reflexivity|]. intros _. left. cbn. now rewrite E1.
    + apply String.eqb_eq in E2. split; [reflexivity|]. intros _. right. cbn. now rewrite E2.
  - apply returns_ret. split; [now destruct o|]. congruence.
Qed.

Lemma normalizeSeedStrategy_canonical v s :
  normalizeSeedStrategy v = Some s -> s = "random" \/ s = "prompt-hash".
Proof.
  unfold normalizeSeedStrategy. destruct (negb (JS.truthy_string v)); [discriminate|].
  cbv zeta. unfold one_of.
  repeat match goal with
         | |- (if ?c then _ else _) = _ -> _ => destruct c
         end; intros [= <-]; auto.
Qed.

Lemma shape_checkSeedStrategy o :
  returns (checkSeedStrategy o)
    (fun o' => o' = set_seedStrategy (seedStrategy o') o
               /\ (JS.truthy_string (seedStrategy o') = true ->
                   seedStrategy o' = Some "random"
                   \/ seedStrategy o' = Some "prompt-hash")).
Proof.
  unfold checkSeedStrategy. destruct (JS.truthy_string (seedStrategy o)) eqn:Ht.
  - destruct (normalizeSeedStrategy (seedStrategy o)) as [s|] eqn:E;
      [|apply returns_fail].
    apply returns_ret. split; [reflexivity|]. intros _.
    cbn. destruct (normalizeSeedStrategy_canonical _ _ E) as [-> | ->]; auto.
  - apply returns_ret. split; [now destruct o|]. congruence.
Qed.

Lemma shape_checkNumbers cs o :
  returns (checkNumbers cs o)
    (fun o' => o' = o
               /\ (CliSet.steps cs = true -> exists n, steps o = Some (JS.Int n))
               /\ (CliSet.guidance cs = true -> exists r, guidance o = Some (JS.Fin r))).
Proof.
  unfold checkNumbers.
  destruct (CliSet.steps cs); cbn [andb].
  - destruct (steps o) as [[n|]|]; cbn; try apply returns_fail.
    destruct (CliSet.guidance cs); cbn [andb].
    + destruct (guidance o) as [[r|]|]; cbn; try apply returns_fail.
      apply returns_ret. repeat split; eauto.
    + apply returns_ret. repeat split; eauto. discriminate.
  - destruct (CliSet.guidance cs); cbn [andb].
    + destruct (guidance o) as [[r|]|]; cbn; try apply returns_fail.
      apply returns_ret. repeat split; eauto. discriminate.
    + apply returns_ret. repeat split; discriminate.
Qed.

(** *** The multi-angle block *)

Lemma array_includes_In l x : JS.array_includes l x = true -> In x l.
Proof.
  induction l as [|y r IH]; simpl; [discriminate|].
  destruct (String.eqb y x) eqn:E; simpl.
  - apply String.eqb_eq in E. auto.
  - auto.
Qed.

(** A normalized angle value is absent (the option was given empty) or one
    of the allowed keys. *)
Definition key_of (keys : list string) (v : option string) : Prop :=
  v = None \/ exists k, v = Some k /\ In k keys.

Lemma normalizeMultiAngleValue_key v aliases keys label :
  returns (normalizeMultiAngleValue v aliases keys label) (key_of keys).
Proof.
  unfold normalizeMultiAngleValue.
  destruct (negb (JS.truthy_string v)); [apply returns_ret; now left|].
  cbv zeta.
  match goal with
  | |- returns (if negb (JS.array_includes _ ?a) then _ else _) _ =>
      destruct (JS.array_includes keys a) eqn:E; cbn [negb];
      [apply returns_ret; right; exists a; split;
       [reflexivity | now apply array_includes_In] | apply returns_fail]
  end.
Qed.

(** The fields the end of the block may write. *)
Definition tail_writes (o o' : Options) : Prop :=
  exists a l s g,
    o' = set_guidance g (set_loraStrengths s (set_loras l (set_angleStrength a o))).

Lemma tail_writes_refl o : tail_writes o o.
Proof. destruct o. writes_tac. Qed.

Lemma tail_writes_trans a b c : tail_writes a b -> tail_writes b c -> tail_writes a c.
Proof.
  intros (x1 & x2 & x3 & x4 & ->) (y1 & y2 & y3 & y4 & ->).
  writes_tac.
Qed.

Lemma tail_writes_ensure o : tail_writes o (ensureMultipleAngles o).
Proof.
  destruct o. unfold ensureMultipleAngles.
  cbn [loras loraStrengths angleStrength set_angleStrength set_loras set_loraStrengths].
  destruct (JS.indexOf loras0 MULTIPLE_ANGLES) as [i|];
    cbn [loras loraStrengths angleStrength set_angleStrength set_loras set_loraStrengths
         fst snd].
  - destruct (is_empty loraStrengths0 && negb (is_empty loras0)); [writes_tac|].
    destruct (List.length loraStrengths0 =? List.length loras0)%nat; [|writes_tac].
    destruct (nth_error loraStrengths0 i); writes_tac.
  - destruct (negb (is_empty loraStrengths0));
      cbn [loras loraStrengths angleStrength set_angleStrength set_loras
           set_loraStrengths fst snd].
    + destruct (is_empty (loraStrengths0 ++ _) && _); [writes_tac|].
      destruct (_ =? _)%nat; [|writes_tac].
      destruct (nth_error _ _); writes_tac.
    + destruct (is_empty loraStrengths0 && _); [writes_tac|].
      destruct (_ =? _)%nat; [|writes_tac].
      destruct (nth_error _ _); writes_tac.
Qed.

Lemma tail_writes_guidance cs o : tail_writes o (defaultGuidance cs o).
Proof.
  destruct o. unfold defaultGuidance. cbn [guidance].
  destruct guidance0; [|destruct (negb (CliSet.guidance cs))];
    writes_tac.
Qed.

Lemma tail_writes_lone o : returns (loneStrength o) (tail_writes o).
Proof.
  unfold loneStrength.
  destruct (is_empty (loras o) && negb (is_empty (loraStrengths o)));
    [|apply returns_ret, tail_writes_refl].
  destruct (1 <? List.length (loraStrengths o))%nat; [apply returns_fail|].
  apply returns_ret. destruct o. cbn [angleStrength].
  destruct angleStrength0; writes_tac.
Qed.

Definition azimuth_keys : list string := map fst MULTI_ANGLE_AZIMUTHS.
Definition elevation_keys : list string := map fst MULTI_ANGLE_ELEVATIONS.
Definition distance_keys : list string := map fst MULTI_ANGLE_DISTANCES.

(** The fields the whole block may write. *)
Definition block_writes (o o' : Options) : Prop :=
  exists c l az el di m f sa sc ad a lo ls g,
    o' = set_guidance g (set_loraStrengths ls (set_loras lo (set_angleStrength a
           (set_angleDescription ad (set_scheduler sc (set_sampler sa
              (set_outputFormat f (set_model m (set_distance di (set_elevation el
                 (set_azimuth az (set_lastImagePath l (set_contextImages c o))))))))))))).

(** What holds when the block is left, for a multi-angle request. *)
Definition block_post (cs : CliSet.t) (o o' : Options) : Prop :=
  video o = false
  /\ (truthy_a360 (angles360Video o) = true -> angles360 o = true /\ count o = JS.Int 1)
  /\ block_writes o o'
  /\ contextImages o' <> []
  /\ JS.truthy_string (model o') = true
  /\ JS.includes (JS.or_empty (model o')) "qwen_image_edit_2511" = true
  /\ JS.truthy_string (outputFormat o') = true
  /\ JS.truthy_string (sampler o') = true
  /\ JS.truthy_string (scheduler o') = true
  /\ key_of elevation_keys (elevation o')
  /\ key_of distance_keys (distance o')
  /\ (angles360 o = false -> key_of azimuth_keys (azimuth o'))
  /\ (guidance o <> None \/ CliSet.guidance cs = false -> guidance o' <> None)
  /\ (guidance o <> None \/ CliSet.guidance cs = true -> guidance o' = guidance o)
  /\ model o' = JS.or_string (model o) (Some "qwen_image_edit_2511_fp8_lightning").

Lemma int_eqb_eq a n : JS.int_eqb a (JS.Int n) = true -> a = JS.Int n.
Proof.
  destruct a as [z|]; simpl; [|discriminate]. intros H. apply Z.eqb_eq in H. now subst.
Qed.

(** The block, with its steps named. *)
Definition take_last (o : Options) : Options :=
  if JS.truthy_string (_lastImagePath o) && is_empty (contextImages o)
  then set_lastImagePath None (set_contextImages [JS.or_empty (_lastImagePath o)] o)
  else o.

Definition default_model (o : Options) : Options :=
  if JS.truthy_string (model o) then o
  else set_model (Some "qwen_image_edit_2511_fp8_lightning") o.

Definition default_format (o : Options) : Options :=
  if JS.truthy_string (outputFormat o) then o else set_outputFormat (Some "jpg") o.

Definition default_sampler (o : Options) : Options :=
  if JS.truthy_string (sampler o) then o else set_sampler (Some "euler") o.

Definition default_scheduler (o : Options) : Options :=
  if JS.truthy_string (scheduler o) then o else set_scheduler (Some "simple") o.

Definition default_description (o : Options) : Options :=
  if negb (JS.truthy_string (Some (angleDescription o))) && JS.truthy_string (prompt o)
  then set_angleDescription (JS.or_empty (prompt o)) o else o.

Definition block_defaults (o : Options) : Options :=
  default_description
    (default_scheduler (default_sampler (default_format (default_model o)))).

Definition block_steps (cs : CliSet.t) (o : Options) : Proc.M Options :=
  if is_empty (contextImages (take_last o))
  then Proc.fail
         "Error: --multi-angle requires a reference image (--context or --last-image)."
  else
    ob <- (if negb (angles360 (take_last o))
           then (a <- normalizeMultiAngleValue (azimuth (take_last o))
                        MULTI_ANGLE_AZIMUTH_ALIASES azimuth_keys "azimuth" ;;
                 Proc.ret (set_azimuth a (take_last o)))
           else (Proc.when (negb (quiet (take_last o)) && CliSet.azimuth cs)
                   (Proc.console_error "Warning: --azimuth ignored for --angles-360.") ;;;
                 Proc.ret (take_last o))) ;;
    el <- normalizeMultiAngleValue (elevation ob) MULTI_ANGLE_ELEVATION_ALIASES
            elevation_keys "elevation" ;;
    di <- normalizeMultiAngleValue (distance (set_elevation el ob))
            MULTI_ANGLE_DISTANCE_ALIASES distance_keys "distance" ;;
    if JS.truthy_string (model (set_distance di (set_elevation el ob)))
       && negb (JS.includes (JS.or_empty (model (set_distance di (set_elevation el ob))))
                  "qwen_image_edit_2511")
    then Proc.fail "Error: --multi-angle requires a Qwen Image Edit 2511 model."
    else
      oj <- loneStrength (block_defaults (set_distance di (set_elevation el ob))) ;;
      Proc.ret (ensureMultipleAngles (defaultGuidance cs oj)).

Lemma multiAngleBlock_steps cs o :
  multiAngleBlock cs o
  = if negb (multiAngle o) then Proc.ret o
    else if video o then Proc.fail "Error: --multi-angle is only for image editing."
    else if truthy_a360 (angles360Video o) && negb (angles360 o)
    then Proc.fail "Error: --angles-360-video requires --angles-360."
    else if truthy_a360 (angles360Video o) && negb (JS.int_eqb (count o) (JS.Int 1))
    then Proc.fail "Error: --angles-360-video requires --count 1."
    else block_steps cs o.
Proof. reflexivity. Qed.

Ltac split_if :=
  match goal with
  | |- context [if ?c then _ else _] =>
      lazymatch c with
      | context [if _ then _ else _] => fail
      | _ => let E := fresh "E" in destruct c eqn:E
      end
  end.

Lemma block_defaults_spec o :
  (exists m f sa sc ad,
      block_defaults o
      = set_angleDescription ad (set_scheduler sc (set_sampler sa
          (set_outputFormat f (set_model m o)))))
  /\ JS.truthy_string (model (block_defaults o)) = true
  /\ (JS.truthy_string (model o) = true -> model (block_defaults o) = model o)
  /\ JS.truthy_string (outputFormat (block_defaults o)) = true
  /\ JS.truthy_string (sampler (block_defaults o)) = true
  /\ JS.truthy_string (scheduler (block_defaults o)) = true
  /\ model (block_defaults o)
     = JS.or_string (model o) (Some "qwen_image_edit_2511_fp8_lightning").
Proof.
  destruct o.
  unfold block_defaults, default_description, default_scheduler, default_sampler,
    default_format, default_model, JS.or_string.
  options_cbn.
  repeat (split_if; options_cbn);
    (split; [writes_tac|]); repeat split; options_cbn;
    first [assumption | reflexivity | congruence].
Qed.

Lemma take_last_spec o :
  (exists c l, take_last o = set_lastImagePath l (set_contextImages c o)).
Proof. destruct o. unfold take_last. options_cbn. split_if; writes_tac. Qed.

Lemma is_empty_false {A} (l : list A) : is_empty l = false -> l <> [].
Proof. now destruct l. Qed.

Lemma ensure_keeps_guidance o : guidance (ensureMultipleAngles o) = guidance o.
Proof.
  destruct o. unfold ensureMultipleAngles.
  cbn [loras loraStrengths angleStrength set_angleStrength set_loras set_loraStrengths].
  destruct (JS.indexOf loras0 MULTIPLE_ANGLES) as [i|];
    cbn [loras loraStrengths angleStrength set_angleStrength set_loras set_loraStrengths
         fst snd].
  - destruct (is_empty loraStrengths0 && negb (is_empty loras0)); [reflexivity|].
    destruct (List.length loraStrengths0 =? List.length loras0)%nat; [|reflexivity].
    destruct (nth_error loraStrengths0 i); reflexivity.
  - destruct (negb (is_empty loraStrengths0));
      cbn [loras loraStrengths angleStrength set_angleStrength set_loras
           set_loraStrengths fst snd].
    + destruct (is_empty (loraStrengths0 ++ _) && _); [reflexivity|].
      destruct (_ =? _)%nat; [|reflexivity].
      destruct (nth_error _ _); reflexivity.
    + destruct (is_empty loraStrengths0 && _); [reflexivity|].
      destruct (_ =? _)%nat; [|reflexivity].
      destruct (nth_error _ _); reflexivity.
Qed.

Lemma lone_keeps_guidance o :
  returns (loneStrength o) (fun o' => guidance o' = guidance o).
Proof.
  unfold loneStrength.
  destruct (is_empty (loras o) && negb (is_empty (loraStrengths o)));
    [|now apply returns_ret].
  destruct (1 <? List.length (loraStrengths o))%nat; [apply returns_fail|].
  apply returns_ret. now destruct (angleStrength o).
Qed.

Lemma returns_and {A} (m : Proc.M A) (P Q : A -> Prop) :
  returns m P -> returns m Q -> returns m (fun a => P a /\ Q a).
Proof. intros HP HQ w a w' E. split; [exact (HP _ _ _ E) | exact (HQ _ _ _ E)]. Qed.

Lemma shape_multiAngleBlock cs o :
  multiAngle o = true -> returns (multiAngleBlock cs o) (block_post cs o).
Proof.
  intros Hm. rewrite multiAngleBlock_steps, Hm. cbn [negb].
  destruct (video o) eqn:Hv; [apply returns_fail|].
  destruct (truthy_a360 (angles360Video o) && negb (angles360 o)) eqn:H1;
    [apply returns_fail|].
  destruct (truthy_a360 (angles360Video o) && negb (JS.int_eqb (count o) (JS.Int 1)))
    eqn:H2; [apply returns_fail|].
  assert (Ha : truthy_a360 (angles360Video o) = true ->
               angles360 o = true /\ count o = JS.Int 1).
  { intros Ht. rewrite Ht in H1, H2. cbn [andb] in H1, H2.
    apply negb_false_iff in H1, H2. split; [exact H1 | now apply int_eqb_eq]. }
  unfold block_steps.
  destruct (take_last_spec o) as (c0 & l0 & Hoa).
  remember (take_last o) as oa eqn:Eoa. clear Eoa.
  destruct (is_empty (contextImages oa)) eqn:Hc; [apply returns_fail|].
  apply is_empty_false in Hc.
  assert (H360 : angles360 oa = angles360 o) by now rewrite Hoa.
  assert (Hgo : guidance oa = guidance o) by now rewrite Hoa.
  eapply returns_bind with
    (R := fun ob => exists az, ob = set_azimuth az oa
                               /\ (angles360 o = false -> key_of azimuth_keys az)).
  { rewrite H360. destruct (angles360 o); cbn [negb].
    - apply returns_then, returns_ret. exists (azimuth oa).
      split; [now destruct oa | discriminate].
    - eapply returns_bind; [apply normalizeMultiAngleValue_key|].
      intros a Hk. apply returns_ret. exists a. split; [reflexivity | intros _; exact Hk]. }
  intros ob (az & Hob & Haz).
  eapply returns_bind; [apply normalizeMultiAngleValue_key|]. intros el Hel.
  eapply returns_bind; [apply normalizeMultiAngleValue_key|]. intros di Hdi.
  set (od := set_distance di (set_elevation el ob)).
  destruct (JS.truthy_string (model od)
            && negb (JS.includes (JS.or_empty (model od)) "qwen_image_edit_2511"))
    eqn:Hmodel; [apply returns_fail|].
  destruct (block_defaults_spec od) as (Hw & Hmt & Hmk & Hf & Hsa & Hsc & Hmo).
  assert (Hmd : model od = model o) by (unfold od; rewrite Hob, Hoa; reflexivity).
  rewrite Hmd in Hmo.
  assert (Hq : JS.includes (JS.or_empty (model (block_defaults od)))
                 "qwen_image_edit_2511" = true).
  { destruct (JS.truthy_string (model od)) eqn:Et.
    - rewrite (Hmk eq_refl). cbn [andb] in Hmodel. now apply negb_false_iff in Hmodel.
    - clear - Et. destruct od. unfold block_defaults, default_description,
        default_scheduler, default_sampler, default_format, default_model.
      options_cbn. rewrite Et. options_cbn.
      repeat (split_if; options_cbn); reflexivity. }
  destruct Hw as (m1 & f1 & sa1 & sc1 & ad1 & Hoi).
  remember (block_defaults od) as oi eqn:Eoi. clear Eoi Hmk Hmd.
  assert (Hm1 : m1 = JS.or_string (model o) (Some "qwen_image_edit_2511_fp8_lightning"))
    by (rewrite <- Hmo, Hoi; reflexivity).
  clear Hmo.
  assert (Hgi : guidance oi = guidance o).
  { rewrite Hoi. unfold od. rewrite Hob. options_cbn. exact Hgo. }
  apply (returns_bind _ _ _ _
           (returns_and _ _ _ (tail_writes_lone oi) (lone_keeps_guidance oi))).
  intros oj [(z1 & z2 & z3 & z4 & Hj) Hgj].
  apply returns_ret.
  destruct (tail_writes_guidance cs oj) as (y1 & y2 & y3 & y4 & Hd).
  destruct (tail_writes_ensure (defaultGuidance cs oj)) as (x1 & x2 & x3 & x4 & He).
  assert (Hguid : guidance o <> None \/ CliSet.guidance cs = false ->
                  guidance (ensureMultipleAngles (defaultGuidance cs oj)) <> None).
  { intros Hg. rewrite ensure_keeps_guidance. unfold defaultGuidance.
    assert (Hgo' : guidance oj = guidance o) by congruence.
    rewrite Hgo'. destruct (guidance o) eqn:Eg.
    - rewrite Hgo'. discriminate.
    - destruct Hg as [Hg | ->]; [congruence|]. cbn [negb]. options_cbn. discriminate. }
  assert (Hkeep : guidance o <> None \/ CliSet.guidance cs = true ->
                  guidance (ensureMultipleAngles (defaultGuidance cs oj)) = guidance o).
  { intros Hg. rewrite ensure_keeps_guidance. unfold defaultGuidance.
    assert (Hgo' : guidance oj = guidance o) by congruence.
    rewrite Hgo'. destruct (guidance o) eqn:Eg.
    - exact Hgo'.
    - destruct Hg as [Hg | ->]; [congruence|]. cbn [negb]. exact Hgo'. }
  revert Hguid Hkeep. rewrite He, Hd, Hj. clear He Hd Hj. intros Hguid Hkeep.
  subst oi od ob oa.
  unfold block_post, block_writes. options_cbn.
  split; [exact Hv|]. split; [exact Ha|]. split; [writes_tac|].
  repeat split; assumption.
Qed.

Lemma block_writes_refl o : block_writes o o.
Proof. destruct o. writes_tac. Qed.

(** What the block leaves, for any request. *)
Definition block_stage (cs : CliSet.t) (o o' : Options) : Prop :=
  block_writes o o'
  /\ (multiAngle o = false -> o' = o)
  /\ (multiAngle o = true -> block_post cs o o').

Lemma stage_multiAngleBlock cs o : returns (multiAngleBlock cs o) (block_stage cs o).
Proof.
  destruct (multiAngle o) eqn:Hm.
  - eapply returns_weaken; [apply (shape_multiAngleBlock cs o Hm)|].
    intros o' H. split; [apply H|]. split; [congruence | intros _; exact H].
  - unfold multiAngleBlock. rewrite Hm. apply returns_ret.
    split; [apply block_writes_refl|]. split; [reflexivity | congruence].
Qed.

(** *** The plugin configuration *)

Definition take {A} (isSet : bool) (d : option A) (set : A -> Options -> Options)
    (o : Options) : Options :=
  match d with
  | Some v => if isSet then o else set v o
  | None => o
  end.

Definition config_size (c : OpenClawConfig.t) (cs : CliSet.t) (o : Options) : Options :=
  take (CliSet.count cs) (int_opt (OpenClawConfig.defaultCount c)) set_count
    (take (CliSet.height cs) (int_opt (OpenClawConfig.defaultHeight c)) set_height
       (take (CliSet.width cs) (int_opt (OpenClawConfig.defaultWidth c)) set_width o)).

Definition config_token (c : OpenClawConfig.t) (cs : CliSet.t) (o : Options) : Options :=
  if negb (CliSet.tokenType cs) && JS.truthy_string (OpenClawConfig.defaultTokenType c)
  then set_tokenType (OpenClawConfig.defaultTokenType c) o else o.

Definition config_strategy (c : OpenClawConfig.t) (cs : CliSet.t) (o : Options)
    : Options :=
  if negb (CliSet.seedStrategy cs) && JS.truthy_string (OpenClawConfig.seedStrategy c)
  then set_seedStrategy (OpenClawConfig.seedStrategy c) o else o.

Definition config_workflow (c : OpenClawConfig.t) (cs : CliSet.t) (o : Options)
    : Options :=
  if negb (CliSet.workflow cs) && JS.truthy_string (OpenClawConfig.defaultVideoWorkflow c)
  then set_videoWorkflow (OpenClawConfig.defaultVideoWorkflow c) o else o.

Definition config_video (c : OpenClawConfig.t) (cs : CliSet.t) (o : Options) : Options :=
  take (CliSet.frames cs || CliSet.duration cs)
    (int_opt (OpenClawConfig.defaultDurationSec c)) set_duration
    (take (CliSet.fps cs) (int_opt (OpenClawConfig.defaultFps c)) set_fps
       (config_workflow c cs o)).

Definition config_timeout (s : option Z) (cs : CliSet.t) (o : Options) : Options * bool :=
  match s with
  | Some s => if CliSet.timeout cs then (o, false)
              else (set_timeout (JS.Int (s * 1000)) o, true)
  | None => (o, false)
  end.

Lemma applyConfig_steps e cs o :
  applyConfig e cs o
  = match openclawConfig e with
    | None => (o, false)
    | Some c =>
        if video (config_strategy c cs (config_token c cs (config_size c cs o)))
        then config_timeout (OpenClawConfig.defaultVideoTimeoutSec c) cs
               (config_video c cs
                  (config_strategy c cs (config_token c cs (config_size c cs o))))
        else config_timeout (OpenClawConfig.defaultImageTimeoutSec c) cs
               (config_strategy c cs (config_token c cs (config_size c cs o)))
    end.
Proof. reflexivity. Qed.

(** A size or count: the command line's, else the configuration's, else
    what the argument loop left. *)
Definition pick (isSet : bool) (d : option Z) (given : JS.jsint) : JS.jsint :=
  if isSet then given else or_else (int_opt d) given.

(** The fields the configuration may write; a field set on the command
    line is left alone. *)
Definition config_writes (e : Env) (cs : CliSet.t) (o o' : Options) : Prop :=
  exists tt ss wf f d tm,
    o' = set_timeout tm (set_duration d (set_fps f (set_videoWorkflow wf
           (set_seedStrategy ss (set_tokenType tt
              (set_count (pick (CliSet.count cs) (cfg e OpenClawConfig.defaultCount)
                            (count o))
                 (set_height (pick (CliSet.height cs)
                                (cfg e OpenClawConfig.defaultHeight) (height o))
                    (set_width (pick (CliSet.width cs)
                                  (cfg e OpenClawConfig.defaultWidth) (width o)) o))))))))
    /\ (CliSet.tokenType cs = true -> tt = tokenType o)
    /\ (CliSet.seedStrategy cs = true -> ss = seedStrategy o)
    /\ (CliSet.workflow cs = true -> wf = videoWorkflow o)
    /\ (CliSet.fps cs = true -> f = fps o)
    /\ (CliSet.frames cs = true \/ CliSet.duration cs = true -> d = duration o)
    /\ (CliSet.timeout cs = true -> tm = timeout o).

Lemma take_shape isSet d (set : JS.jsint -> Options -> Options)
    (get : Options -> JS.jsint) o :
  set (get o) o = o ->
  take isSet (int_opt d) set o = set (pick isSet d (get o)) o.
Proof.
  intros Hid. unfold take, pick. destruct d as [v|]; cbn [int_opt option_map or_else].
  - destruct isSet; [now rewrite Hid | reflexivity].
  - destruct isSet; now rewrite Hid.
Qed.

Lemma config_size_shape c cs o :
  config_size c cs o
  = set_count (pick (CliSet.count cs) (OpenClawConfig.defaultCount c) (count o))
      (set_height (pick (CliSet.height cs) (OpenClawConfig.defaultHeight c) (height o))
         (set_width (pick (CliSet.width cs) (OpenClawConfig.defaultWidth c) (width o)) o)).
Proof.
  unfold config_size.
  rewrite (take_shape _ _ set_width width) by now destruct o.
  rewrite (take_shape _ _ set_height height) by reflexivity.
  rewrite (take_shape _ _ set_count count) by reflexivity.
  reflexivity.
Qed.

Lemma config_token_shape c cs o :
  exists tt, config_token c cs o = set_tokenType tt o
             /\ (CliSet.tokenType cs = true -> tt = tokenType o).
Proof.
  unfold config_token. destruct (CliSet.tokenType cs); cbn [negb andb].
  - exists (tokenType o). split; [now destruct o | reflexivity].
  - destruct (JS.truthy_string _).
    + eexists. split; [reflexivity | discriminate].
    + exists (tokenType o). split; [now destruct o | discriminate].
Qed.

Lemma config_strategy_shape c cs o :
  exists ss, config_strategy c cs o = set_seedStrategy ss o
             /\ (CliSet.seedStrategy cs = true -> ss = seedStrategy o).
Proof.
  unfold config_strategy. destruct (CliSet.seedStrategy cs); cbn [negb andb].
  - exists (seedStrategy o). split; [now destruct o | reflexivity].
  - destruct (JS.truthy_string _).
    + eexists. split; [reflexivity | discriminate].
    + exists (seedStrategy o). split; [now destruct o | discriminate].
Qed.

Lemma config_workflow_shape c cs o :
  exists wf, config_workflow c cs o = set_videoWorkflow wf o
             /\ (CliSet.workflow cs = true -> wf = videoWorkflow o).
Proof.
  unfold config_workflow. destruct (CliSet.workflow cs); cbn [negb andb].
  - exists (videoWorkflow o). split; [now destruct o | reflexivity].
  - destruct (JS.truthy_string _).
    + eexists. split; [reflexivity | discriminate].
    + exists (videoWorkflow o). split; [now destruct o | discriminate].
Qed.

Lemma pick_set d given : pick true d given = given.
Proof. reflexivity. Qed.

Lemma config_video_shape c cs o :
  exists wf f d,
    config_video c cs o = set_duration d (set_fps f (set_videoWorkflow wf o))
    /\ (CliSet.workflow cs = true -> wf = videoWorkflow o)
    /\ (CliSet.fps cs = true -> f = fps o)
    /\ (CliSet.frames cs = true \/ CliSet.duration cs = true -> d = duration o).
Proof.
  unfold config_video.
  destruct (config_workflow_shape c cs o) as (wf & -> & Hwf).
  rewrite (take_shape _ _ set_fps fps) by reflexivity.
  rewrite (take_shape _ _ set_duration duration) by reflexivity.
  eexists wf, _, _. split; [reflexivity|]. split; [exact Hwf|].
  split.
  - intros ->. reflexivity.
  - intros H. apply orb_true_iff in H. rewrite H. reflexivity.
Qed.

Lemma config_timeout_shape s cs o :
  exists tm, fst (config_timeout s cs o) = set_timeout tm o
             /\ (CliSet.timeout cs = true -> tm = timeout o)
             /\ (CliSet.timeout cs = true -> snd (config_timeout s cs o) = false).
Proof.
  unfold config_timeout. destruct s as [s|].
  - destruct (CliSet.timeout cs); cbn [fst snd].
    + exists (timeout o). split; [now destruct o | auto].
    + eexists. split; [reflexivity | split; discriminate].
  - exists (timeout o). cbn [fst snd]. split; [now destruct o | auto].
Qed.

Lemma pick_none isSet given : pick isSet None given = given.
Proof. now destruct isSet. Qed.

Lemma shape_applyConfig e cs o :
  config_writes e cs o (fst (applyConfig e cs o))
  /\ (CliSet.timeout cs = true -> snd (applyConfig e cs o) = false).
Proof.
  rewrite applyConfig_steps. unfold config_writes, cfg.
  destruct (openclawConfig e) as [c|].
  2:{ cbn [fst snd]. split; [|reflexivity].
      exists (tokenType o), (seedStrategy o), (videoWorkflow o), (fps o), (duration o),
        (timeout o).
      rewrite !pick_none. split; [now destruct o | repeat split; reflexivity]. }
  rewrite (config_size_shape c cs o).
  match goal with
  | |- context [config_token c cs ?x] =>
      destruct (config_token_shape c cs x) as (tt & -> & Htt)
  end.
  match goal with
  | |- context [config_strategy c cs ?x] =>
      destruct (config_strategy_shape c cs x) as (ss & -> & Hss)
  end.
  match goal with
  | |- context [if video ?x then _ else _] => destruct (video x)
  end.
  - match goal with
    | |- context [config_video c cs ?x] =>
        destruct (config_video_shape c cs x) as (wf & f & d & -> & Hwf & Hf & Hd)
    end.
    match goal with
    | |- context [config_timeout ?s cs ?x] =>
        destruct (config_timeout_shape s cs x) as (tm & -> & Htm & Ht)
    end.
    split; [|exact Ht].
    exists tt, ss, wf, f, d, tm. split; [reflexivity|].
    repeat split; assumption.
  - match goal with
    | |- context [config_timeout ?s cs ?x] =>
        destruct (config_timeout_shape s cs x) as (tm & -> & Htm & Ht)
    end.
    split; [|exact Ht].
    exists tt, ss, (videoWorkflow o), (fps o), (duration o), tm.
    split; [now destruct o|].
    repeat split; first [assumption | reflexivity].
Qed.

(** *** The stages after the block *)

Definition format_stage (o o' : Options) : Prop :=
  exists f,
    o' = set_outputFormat f o
    /\ (JS.truthy_string (outputFormat o) = false -> f = outputFormat o)
    /\ (JS.truthy_string (outputFormat o) = true ->
        if video o then f = Some "mp4" else f = Some "png" \/ f = Some "jpg").

Lemma stage_checkOutputFormat o : returns (checkOutputFormat o) (format_stage o).
Proof.
  unfold checkOutputFormat, format_stage.
  destruct (JS.truthy_string (outputFormat o)) eqn:Ht.
  2:{ apply returns_ret. exists (outputFormat o).
      split; [now destruct o | split; [reflexivity | discriminate]]. }
  cbv zeta. cbn [video set_outputFormat].
  set (format := if String.eqb (JS.toLowerCase (JS.or_empty (outputFormat o))) "jpeg"
                 then "jpg" else JS.toLowerCase (JS.or_empty (outputFormat o))).
  destruct (video o).
  - destruct (String.eqb format "mp4") eqn:E; cbn [negb]; [|apply returns_fail].
    apply String.eqb_eq in E. apply returns_ret. exists (Some format).
    split; [reflexivity|]. split; [discriminate | intros _; now rewrite E].
  - destruct (one_of format ["png"; "jpg"]) eqn:E; cbn [negb]; [|apply returns_fail].
    apply array_includes_In in E. apply returns_ret. exists (Some format).
    split; [reflexivity|]. split; [discriminate|]. intros _.
    destruct E as [<- | [<- | []]]; auto.
Qed.

(** What the mutual-exclusion rules leave. *)
Definition exclusive_stage (o o' : Options) : Prop :=
  o' = o
  /\ (loraStrengths o = [] \/ List.length (loraStrengths o) = List.length (loras o))
  /\ (video o = true ->
      loras o = [] /\ JS.truthy_string (sampler o) = false
      /\ JS.truthy_string (scheduler o) = false)
  /\ (video o = false -> autoResizeVideoAssets o = None /\ estimateVideoCost o = false)
  /\ (truthy_a360 (angles360Video o) = true -> angles360 o = true).

Lemma exclusive_rest o :
  returns (checkExclusive o)
    (fun _ =>
       (video o = true ->
        loras o = [] /\ JS.truthy_string (sampler o) = false
        /\ JS.truthy_string (scheduler o) = false)
       /\ (video o = false -> autoResizeVideoAssets o = None /\ estimateVideoCost o = false)
       /\ (truthy_a360 (angles360Video o) = true -> angles360 o = true)).
Proof.
  unfold checkExclusive.
  destruct (video o), (loras o), (loraStrengths o), (JS.truthy_string (sampler o)),
    (JS.truthy_string (scheduler o)), (autoResizeVideoAssets o), (estimateVideoCost o),
    (truthy_a360 (angles360Video o)), (angles360 o);
    cbn [is_empty negb andb orb];
    repeat match goal with
           | |- returns (if ?c then _ else _) _ => destruct c
           end;
    first [apply returns_fail | apply returns_ret; repeat split; congruence].
Qed.

Lemma stage_checkExclusive o : returns (checkExclusive o) (exclusive_stage o).
Proof.
  eapply returns_weaken;
    [exact (returns_and _ _ _ (CompileFacts.checkExclusive_lengths o) (exclusive_rest o))|].
  intros a [[-> Hl] Hr]. split; [reflexivity|]. split; [exact Hl | exact Hr].
Qed.

Lemma or_string_truthy a b :
  JS.truthy_string b = true -> JS.truthy_string (JS.or_string a b) = true.
Proof. unfold JS.or_string. now destruct (JS.truthy_string a) eqn:E. Qed.

Lemma or_string_left a b : JS.truthy_string a = true -> JS.or_string a b = a.
Proof. unfold JS.or_string. now intros ->. Qed.

Definition WORKFLOWS : list string :=
  ["t2v"; "i2v"; "s2v"; "animate-move"; "animate-replace"].

Lemma normalizeVideoWorkflow_canonical v w :
  normalizeVideoWorkflow v = Some w -> In w WORKFLOWS.
Proof.
  unfold normalizeVideoWorkflow. destruct (negb (JS.truthy_string v)); [discriminate|].
  cbv zeta.
  repeat match goal with
         | |- (if ?c then _ else _) = _ -> _ => destruct c
         end; intros [= <-]; simpl; auto 6.
Qed.

Lemma fromModel_canonical m w :
  inferVideoWorkflowFromModel m = Some w -> In w WORKFLOWS.
Proof.
  unfold inferVideoWorkflowFromModel. destruct (negb (JS.truthy_string m)); [discriminate|].
  cbv zeta.
  repeat match goal with
         | |- (if ?c then _ else _) = _ -> _ => destruct c
         end; intros [= <-]; simpl; auto 6.
Qed.

Lemma fromAssets_canonical o w :
  inferVideoWorkflowFromAssets o = Some w -> In w WORKFLOWS.
Proof.
  unfold inferVideoWorkflowFromAssets.
  repeat match goal with
         | |- (if ?c then _ else _) = _ -> _ => destruct c
         end; intros [= <-]; simpl; auto 6.
Qed.

Lemma workflow_truthy w : In w WORKFLOWS -> JS.truthy_string (Some w) = true.
Proof. simpl. intros [<-|[<-|[<-|[<-|[<-|[]]]]]]; reflexivity. Qed.

Lemma optstring_eqb_eq a b : optstring_eqb a b = true -> a = b.
Proof.
  destruct a, b; simpl; try discriminate; try reflexivity.
  intros H. apply String.eqb_eq in H. now subst.
Qed.

(** The workflow of a video request: one of the five, or, where neither
    the command line, the model nor the assets name one, what the plugin
    configuration has as its default. *)
Definition workflow_stage (e : Env) (o o' : Options) : Prop :=
  exists wf,
    o' = set_videoWorkflow wf o
    /\ (video o = false -> wf = videoWorkflow o)
    /\ (video o = true ->
        JS.truthy_string wf = true
        /\ ((exists w, wf = Some w /\ In w WORKFLOWS)
            \/ wf = cfg e OpenClawConfig.defaultVideoWorkflow)
        /\ (forall w, inferVideoWorkflowFromModel (model o) = Some w -> wf = Some w)).

Lemma stage_resolveWorkflow e o : returns (resolveWorkflow e o) (workflow_stage e o).
Proof.
  unfold resolveWorkflow, workflow_stage. destruct (video o) eqn:Hv; cbn [negb].
  2:{ apply returns_ret. exists (videoWorkflow o).
      split; [now destruct o | split; [reflexivity | discriminate]]. }
  eapply returns_bind with
    (R := fun o1 => exists wf, o1 = set_videoWorkflow wf o
                               /\ (JS.truthy_string wf = true ->
                                   exists w, wf = Some w /\ In w WORKFLOWS)).
  { destruct (JS.truthy_string (videoWorkflow o)) eqn:Ht.
    - destruct (normalizeVideoWorkflow (videoWorkflow o)) as [w|] eqn:En;
        [|apply returns_fail].
      apply returns_ret. exists (Some w). split; [reflexivity|]. intros _.
      exists w. split; [reflexivity|]. exact (normalizeVideoWorkflow_canonical _ _ En).
    - apply returns_ret. exists (videoWorkflow o). split; [now destruct o|].
      congruence. }
  intros o1 (wf & -> & Hwf). cbv zeta. cbn [videoWorkflow model set_videoWorkflow].
  destruct (inferVideoWorkflowFromModel (model o)) as [wm|] eqn:Em.
  - pose proof (fromModel_canonical _ _ Em) as Hc.
    pose proof (workflow_truthy _ Hc) as Htm. rewrite Htm.
    destruct (JS.truthy_string wf) eqn:Ht; cbn [andb negb].
    + destruct (optstring_eqb wf (Some wm)) eqn:Eq; cbn [negb]; [|apply returns_fail].
      apply optstring_eqb_eq in Eq. subst wf. apply returns_ret.
      exists (Some wm). split; [reflexivity|]. split; [discriminate|]. intros _.
      split; [exact Htm|]. split; [left; eauto | congruence].
    + apply returns_ret. rewrite (or_string_left (Some wm)) by exact Htm.
      exists (Some wm). split; [reflexivity|]. split; [discriminate|]. intros _.
      split; [exact Htm|]. split; [left; eauto | congruence].
  - rewrite andb_false_r. cbn [andb].
    destruct (JS.truthy_string wf) eqn:Ht; cbn [negb].
    + apply returns_ret. exists wf. split; [reflexivity|]. split; [discriminate|].
      intros _. split; [exact Ht|]. split; [left; auto | discriminate].
    + apply returns_ret. eexists. split; [reflexivity|]. split; [discriminate|].
      intros _. cbn [JS.or_string JS.truthy_string].
      destruct (inferVideoWorkflowFromAssets (set_videoWorkflow wf o)) as [wa|] eqn:Ea.
      * pose proof (fromAssets_canonical _ _ Ea) as Hc.
        pose proof (workflow_truthy _ Hc) as Hta.
        rewrite (or_string_left (Some wa)) by exact Hta.
        split; [exact Hta|]. split; [left; eauto | discriminate].
      * cbn [JS.or_string JS.truthy_string].
        destruct (JS.truthy_string (cfg e OpenClawConfig.defaultVideoWorkflow)) eqn:Ec.
        -- rewrite or_string_left by exact Ec.
           split; [exact Ec|]. split; [now right | discriminate].
        -- unfold JS.or_string. rewrite Ec.
           split; [reflexivity|]. split; [|discriminate].
           left. exists "t2v". split; [reflexivity | simpl; auto].
Qed.

Definition lastimage_stage (o o' : Options) : Prop :=
  exists r c l,
    o' = set_lastImagePath l (set_contextImages c (set_refImage r o))
    /\ JS.truthy_string l = false
    /\ (contextImages o <> [] -> c <> [])
    /\ (video o = true -> c = contextImages o)
    /\ (video o = false -> r = refImage o).

Lemma stage_resolveLastImage o : returns (resolveLastImage o) (lastimage_stage o).
Proof.
  unfold resolveLastImage, lastimage_stage.
  destruct (JS.truthy_string (_lastImagePath o)) eqn:Ht.
  2:{ apply returns_ret. exists (refImage o), (contextImages o), (_lastImagePath o).
      split; [now destruct o|]. repeat split; auto. }
  eapply returns_bind with
    (R := fun o1 => exists r c,
              o1 = set_contextImages c (set_refImage r o)
              /\ (contextImages o <> [] -> c <> [])
              /\ (video o = true -> c = contextImages o)
              /\ (video o = false -> r = refImage o)).
  { destruct (video o).
    - destruct (workflowRequiresImage (videoWorkflow o)).
      + apply returns_ret. destruct (JS.truthy_string (refImage o)).
        * exists (refImage o), (contextImages o). split; [now destruct o|].
          repeat split; auto.
        * exists (_lastImagePath o), (contextImages o). split; [now destruct o|].
          repeat split; auto. discriminate.
      + apply returns_then, returns_ret.
        exists (refImage o), (contextImages o). split; [now destruct o|].
        repeat split; auto.
    - apply returns_ret. eexists (refImage o), _. split; [now destruct o|].
      repeat split; auto; try discriminate.
      intros _. now destruct (contextImages o). }
  intros o1 (r & c & -> & H1 & H2 & H3). apply returns_ret.
  exists r, c, None. repeat split; auto.
Qed.

(** The model of a request that names none, by the type of the request. *)
Definition type_default (e : Env) (o : Options) : option string :=
  if video o then
    JS.or_string
      (match videoWorkflow o, openclawConfig e with
       | Some w, Some c =>
           if JS.truthy_string (Some w) then OpenClawConfig.videoModels c w else None
       | _, _ => None
       end)
      (JS.or_string
         (match videoWorkflow o with
          | Some w => VIDEO_WORKFLOW_DEFAULT_MODELS w
          | None => None
          end)
         (Some "wan_v2.2-14b-fp8_i2v_lightx2v"))
  else if negb (is_empty (contextImages o))
  then JS.or_string (cfg e OpenClawConfig.defaultEditModel)
         (Some "qwen_image_edit_2511_fp8_lightning")
  else JS.or_string (cfg e OpenClawConfig.defaultImageModel) (Some "z_image_turbo_bf16").

Lemma type_default_truthy e o : JS.truthy_string (type_default e o) = true.
Proof.
  unfold type_default.
  destruct (video o); [|destruct (negb (is_empty (contextImages o)))];
    repeat apply or_string_truthy; reflexivity.
Qed.

Definition defaults_stage (e : Env) (cs : CliSet.t) (o o' : Options) : Prop :=
  exists m tm,
    o' = set_timeout tm (set_model m o)
    /\ JS.truthy_string m = true
    /\ (JS.truthy_string (model o) = true -> m = model o)
    /\ (CliSet.timeout cs = true -> tm = timeout o)
    /\ m = JS.or_string (model o) (type_default e o).

Lemma stage_applyTypeDefaults e cs t o :
  defaults_stage e cs o (applyTypeDefaults e cs t o).
Proof.
  assert (H : exists tm,
             applyTypeDefaults e cs t o
             = set_timeout tm (set_model (JS.or_string (model o) (type_default e o)) o)
             /\ (CliSet.timeout cs = true -> tm = timeout o)).
  { unfold applyTypeDefaults, type_default. cbv zeta.
    destruct (CliSet.timeout cs); cbn [negb andb];
      destruct (video o); [| destruct (negb (is_empty (contextImages o))) | |
                             destruct (negb (is_empty (contextImages o)))];
      repeat match goal with
             | |- context [if ?c then set_timeout _ _ else _] => destruct c
             end;
      first [ eexists; split; [reflexivity|]; discriminate
            | exists (timeout o); split; [reflexivity | reflexivity] ]. }
  destruct H as (tm & -> & Htm).
  exists (JS.or_string (model o) (type_default e o)), tm.
  split; [reflexivity|].
  split; [apply or_string_truthy, type_default_truthy|].
  split; [intros H; now apply or_string_left|].
  split; [exact Htm | reflexivity].
Qed.

Definition prompt_stage (o o' : Options) : Prop :=
  o' = o
  /\ (JS.truthy_string (prompt o) = true \/ estimateVideoCost o = true
      \/ multiAngle o = true)
  /\ (video o = false ->
      JS.truthy_string (refAudio o) = false /\ JS.truthy_string (refVideo o) = false
      /\ JS.truthy_string (videoWorkflow o) = false
      /\ JS.truthy_optint (frames o) = false).

Lemma stage_checkPrompt o : returns (checkPrompt o) (prompt_stage o).
Proof.
  unfold checkPrompt, prompt_stage.
  destruct (JS.truthy_string (prompt o)), (estimateVideoCost o), (multiAngle o),
    (video o), (JS.truthy_string (refAudio o)), (JS.truthy_string (refVideo o)),
    (JS.truthy_string (videoWorkflow o)), (JS.truthy_optint (frames o));
    cbn [negb andb orb];
    first [apply returns_fail | apply returns_ret; repeat split; auto; discriminate].
Qed.

(** The reference assets each workflow requires and refuses. *)
Definition assets_ok (o : Options) : Prop :=
  let has f := JS.truthy_string (f o) in
  (videoWorkflow o = Some "t2v" ->
   has refImage = false /\ has refImageEnd = false /\ has refAudio = false
   /\ has refVideo = false)
  /\ (videoWorkflow o = Some "i2v" ->
      (has refImage = true \/ has refImageEnd = true) /\ has refAudio = false
      /\ has refVideo = false)
  /\ (videoWorkflow o = Some "s2v" ->
      has refImage = true /\ has refAudio = true /\ has refVideo = false)
  /\ (videoWorkflow o = Some "animate-move" \/ videoWorkflow o = Some "animate-replace" ->
      has refImage = true /\ has refVideo = true /\ has refAudio = false).

Definition assets_stage (o o' : Options) : Prop :=
  o' = o /\ (video o = true -> assets_ok o).

Lemma stage_checkAssets o : returns (checkAssets o) (assets_stage o).
Proof.
  unfold checkAssets, assets_stage, assets_ok. cbv zeta.
  destruct (video o); cbn [negb]; [|apply returns_ret; split; [reflexivity | discriminate]].
  destruct (videoWorkflow o) as [w|]; cbn [optstring_eqb orb].
  2:{ apply returns_ret. split; [reflexivity|]. intros _.
      repeat split;
        first [discriminate | match goal with H : _ \/ _ |- _ => destruct H; discriminate end]. }
  destruct (String.eqb w "t2v") eqn:E1;
    [|destruct (String.eqb w "i2v") eqn:E2;
      [|destruct (String.eqb w "s2v") eqn:E3;
        [|destruct (String.eqb w "animate-move") eqn:E4;
          [|destruct (String.eqb w "animate-replace") eqn:E5]]]];
    cbn [orb];
    repeat match goal with
           | H : String.eqb _ _ = true |- _ => apply String.eqb_eq in H; subst w
           | H : String.eqb _ _ = false |- _ => apply String.eqb_neq in H
           end;
    destruct (JS.truthy_string (refImage o)), (JS.truthy_string (refImageEnd o)),
      (JS.truthy_string (refAudio o)), (JS.truthy_string (refVideo o));
    cbn [negb andb orb];
    first [ apply returns_fail
          | apply returns_ret; split; [reflexivity|]; intros _;
            repeat split;
            first [ reflexivity | congruence
                  | left; reflexivity | right; reflexivity
                  | match goal with H : _ \/ _ |- _ => destruct H; congruence end ] ].
Qed.

Definition context_stage (e : Env) (o o' : Options) : Prop :=
  o' = o
  /\ (video o = false -> contextImages o <> [] ->
      getMaxContextImages e (model o) <> 0
      /\ Z.of_nat (List.length (contextImages o)) <= getMaxContextImages e (model o)).

Lemma stage_checkContextImages e o :
  returns (checkContextImages e o) (context_stage e o).
Proof.
  unfold checkContextImages, context_stage.
  destruct (contextImages o) as [|c cs']; cbn [is_empty negb andb].
  - apply returns_ret. split; [reflexivity|]. intros _ H. now elim H.
  - destruct (video o); cbn [negb].
    + apply returns_ret. split; [reflexivity | discriminate].
    + cbv zeta. destruct (getMaxContextImages e (model o) =? 0) eqn:E0.
      * apply returns_then, returns_then, returns_exit.
      * destruct (getMaxContextImages e (model o) <? _) eqn:E1; [apply returns_fail|].
        apply returns_ret. split; [reflexivity|]. intros _ _.
        apply Z.eqb_neq in E0. apply Z.ltb_ge in E1. split; assumption.
Qed.

(** The seed after [--last-seed]: the one of the last render where there
    is one (and it is not 0), else the one of the command line. *)
Definition last_seed (e : Env) (o : Options) : option JS.jsint :=
  if lastSeed o then
    match lastRender e with
    | Rendered s => if JS.truthy_optint s then s else seed o
    | _ => seed o
    end
  else seed o.

Definition lastseed_stage (e : Env) (o o' : Options) : Prop :=
  o' = set_seed (last_seed e o) o.

Lemma stage_loadLastSeed e o : returns (loadLastSeed e o) (lastseed_stage e o).
Proof.
  unfold loadLastSeed, lastseed_stage, last_seed.
  assert (Hid : o = set_seed (seed o) o) by now destruct o.
  destruct (lastSeed o); [|now apply returns_ret].
  destruct (lastRender e) as [| |s] eqn:El.
  - now apply returns_then, returns_ret.
  - now apply returns_then, returns_ret.
  - destruct (JS.truthy_optint s) eqn:Et; [|now apply returns_ret].
    cbv zeta. apply returns_then, returns_ret. reflexivity.
Qed.

Definition seed_stage (e : Env) (o o' : Options) : Prop :=
  exists ss s,
    o' = set_seed s (set_seedStrategy ss o)
    /\ (seed o <> None \/ estimateVideoCost o = true ->
        s = seed o /\ ss = seedStrategy o)
    /\ (seed o = None -> estimateVideoCost o = false ->
        (ss = Some "random" /\ s = Some (JS.Int (randomSeed e)))
        \/ (ss = Some "prompt-hash"
            /\ s = Some (JS.Int (Seed.computePromptHashSeed (set_seedStrategy ss o))))).

Lemma stage_deriveSeed e o : returns (deriveSeed e o) (seed_stage e o).
Proof.
  unfold deriveSeed, seed_stage.
  assert (Hid : forall (P Q : Prop), (seed o <> None \/ estimateVideoCost o = true) ->
            exists ss s, o = set_seed s (set_seedStrategy ss o)
                         /\ (seed o <> None \/ estimateVideoCost o = true ->
                             s = seed o /\ ss = seedStrategy o)
                         /\ (seed o = None -> estimateVideoCost o = false ->
                             (ss = Some "random" /\ s = Some (JS.Int (randomSeed e)))
                             \/ (ss = Some "prompt-hash"
                                 /\ s = Some (JS.Int (Seed.computePromptHashSeed
                                                        (set_seedStrategy ss o)))))).
  { intros _ _ H. exists (seedStrategy o), (seed o). split; [now destruct o|].
    split; [auto|]. intros Hs He. destruct H; congruence. }
  destruct (seed o) as [s0|] eqn:Es.
  { apply returns_ret. apply (Hid True True). left. discriminate. }
  destruct (estimateVideoCost o) eqn:Ee.
  { apply returns_ret. apply (Hid True True). now right. }
  cbv zeta. apply returns_then, returns_ret.
  match goal with
  | |- context [or_else (normalizeSeedStrategy ?x) _] =>
      destruct (normalizeSeedStrategy x) as [n|] eqn:En
  end; cbn [or_else].
  - destruct (normalizeSeedStrategy_canonical _ _ En) as [-> | ->];
      eexists; eexists; (split; [reflexivity|]);
        (split; [intros [H|H]; [now elim H | discriminate]|]); intros _ _;
          [left | right]; split; reflexivity.
  - eexists; eexists; (split; [reflexivity|]);
      (split; [intros [H|H]; [now elim H | discriminate]|]); intros _ _.
    right. split; reflexivity.
Qed.

(** ** The compiler as the sequence of its stages *)

Definition token_stage (o o' : Options) : Prop :=
  exists tt,
    o' = set_tokenType tt o
    /\ (JS.truthy_string tt = true -> tt = Some "spark" \/ tt = Some "sogni").

Definition strategy_stage (o o' : Options) : Prop :=
  exists ss,
    o' = set_seedStrategy ss o
    /\ (JS.truthy_string ss = true -> ss = Some "random" \/ ss = Some "prompt-hash").

Lemma stage_checkTokenType o : returns (checkTokenType o) (token_stage o).
Proof.
  eapply returns_weaken; [apply shape_checkTokenType|].
  intros o' [E H]. exists (tokenType o'). split; assumption.
Qed.

Lemma stage_checkSeedStrategy o : returns (checkSeedStrategy o) (strategy_stage o).
Proof.
  eapply returns_weaken; [apply shape_checkSeedStrategy|].
  intros o' [E H]. exists (seedStrategy o'). split; assumption.
Qed.

Definition numbers_stage (cs : CliSet.t) (o o' : Options) : Prop :=
  o' = o
  /\ (CliSet.steps cs = true -> exists n, steps o = Some (JS.Int n))
  /\ (CliSet.guidance cs = true -> exists r, guidance o = Some (JS.Fin r)).

(** What each stage of [compile] leaves, from the options of the argument
    loop [o] to the options [main] reads [o']. *)
Inductive Stages (e : Env) (cs : CliSet.t) (o o' : Options) : Prop :=
| mkStages (after_config after_token after_strategy after_block after_format
            after_workflow after_lastimage after_defaults after_lastseed : Options)
    (stage_config : config_writes e cs o after_config)
    (stage_token : token_stage after_config after_token)
    (stage_strategy : strategy_stage after_token after_strategy)
    (stage_numbers : numbers_stage cs after_strategy after_strategy)
    (stage_block : block_stage cs after_strategy after_block)
    (stage_format : format_stage after_block after_format)
    (stage_exclusive : exclusive_stage after_format after_format)
    (stage_workflow : workflow_stage e after_format after_workflow)
    (stage_lastimage : lastimage_stage after_workflow after_lastimage)
    (stage_defaults : defaults_stage e cs after_lastimage after_defaults)
    (stage_prompt : prompt_stage after_defaults after_defaults)
    (stage_assets : assets_stage after_defaults after_defaults)
    (stage_context : context_stage e after_defaults after_defaults)
    (stage_lastseed : lastseed_stage e after_defaults after_lastseed)
    (stage_seed : seed_stage e after_lastseed o').

Lemma compile_stages e cs o : returns (compile e cs o) (Stages e cs o).
Proof.
  unfold compile.
  destruct (shape_applyConfig e cs o) as [H0 _].
  destruct (applyConfig e cs o) as [oc t]. cbn [fst] in H0.
  eapply returns_bind; [apply stage_checkTokenType|]. intros o1 H1.
  eapply returns_bind; [apply stage_checkSeedStrategy|]. intros o2 H2.
  eapply returns_bind; [apply shape_checkNumbers|]. intros o3 H3.
  assert (E3 : o3 = o2) by apply H3. subst o3.
  eapply returns_bind; [apply stage_multiAngleBlock|]. intros o4 H4.
  eapply returns_bind; [apply stage_checkOutputFormat|]. intros o5 H5.
  eapply returns_bind; [apply stage_checkExclusive|]. intros o6 H6.
  assert (E6 : o6 = o5) by apply H6. subst o6.
  eapply returns_bind; [apply stage_resolveWorkflow|]. intros o7 H7.
  eapply returns_bind; [apply stage_resolveLastImage|]. intros o8 H8.
  pose proof (stage_applyTypeDefaults e cs t o8) as Hd.
  eapply returns_bind; [apply stage_checkPrompt|]. intros o9 H9.
  assert (E9 : o9 = applyTypeDefaults e cs t o8) by apply H9. subst o9.
  eapply returns_bind; [apply stage_checkAssets|]. intros o10 H10.
  assert (E10 : o10 = applyTypeDefaults e cs t o8) by apply H10. subst o10.
  eapply returns_bind; [apply stage_checkContextImages|]. intros o11 H11.
  assert (E11 : o11 = applyTypeDefaults e cs t o8) by apply H11. subst o11.
  eapply returns_bind; [apply stage_loadLastSeed|]. intros o12 H12.
  eapply returns_weaken; [apply stage_deriveSeed|]. intros o13 H13.
  exact (mkStages e cs o o13 oc o1 o2 o4 o5 o7 o8 _ o12
           H0 H1 H2 H3 H4 H5 H6 H7 H8 Hd H9 H10 H11 H12 H13).
Qed.

End CompileInvariants.

Module CompileTheorems.
Import Cli Compile ProcFacts CompileInvariants.
Local Open Scope list_scope.

Ltac open_stages H :=
  destruct H as
    [oc o1 o2 o4 o5 o7 o8 od o12 Hcfg Htok Hstr Hnum Hblk Hfmt Hexc Hwf Hli Hdef
     Hpr Has Hctx Hls Hsd];
  destruct Hcfg as (tt0 & ss0 & wf0 & f0 & d0 & tm0 & Eoc & Hcfg);
  destruct Htok as (tt1 & Eo1 & Htok);
  destruct Hstr as (ss2 & Eo2 & Hstr);
  destruct Hnum as (_ & Hnum);
  destruct Hblk as (Wblk & Hblk0 & Hblk1);
  destruct Hfmt as (fm & Eo5 & Hfmt);
  destruct Hexc as (_ & Hexc);
  destruct Hwf as (wf & Eo7 & Hwf);
  destruct Hli as (ri & ci & li & Eo8 & Hli);
  match goal with
  | H : defaults_stage _ _ _ _ |- _ => unfold defaults_stage, type_default in H
  end;
  destruct Hdef as (md & tmd & Eod & Hdef);
  destruct Hpr as (_ & Hpr);
  destruct Has as (_ & Has);
  destruct Hctx as (_ & Hctx);
  match goal with
  | H : lastseed_stage _ _ _ |- _ => unfold lastseed_stage, last_seed in H
  end;
  destruct Hsd as (ssd & sd & Eo' & Hsd).

Ltac stages_of Hc :=
  let S := fresh "S" in
  pose proof (compile_stages _ _ _ _ _ _ Hc) as S; clear Hc; open_stages S.

(** The options after the block of a multi-angle request. *)
Ltac angle_case Hm :=
  subst;
  match goal with
  | H1 : multiAngle ?x = true -> block_post _ _ _,
    H0 : multiAngle ?x = false -> _,
    W : block_writes _ _ |- _ =>
      specialize (H1 Hm); clear H0 W;
      destruct H1 as (Bv & Ba & Bw & Bc & Bm & Bq & Bf & Bsa & Bsc & Bel & Bdi & Baz
                      & Bg & Bk & Bmo);
      destruct Bw as (b1 & b2 & b3 & b4 & b5 & b6 & b7 & b8 & b9 & b10 & b11 & b12
                      & b13 & b14 & Eo4)
  end;
  subst.

(** The options after the block of any other request. *)
Ltac plain_case Hm :=
  subst;
  match goal with
  | H1 : multiAngle ?x = true -> block_post _ _ _,
    H0 : multiAngle ?x = false -> _,
    W : block_writes _ _ |- _ =>
      specialize (H0 Hm); clear H1 W
  end;
  subst.

(** X11.  A multi-angle request that compiles is complete: it is
    not a video request, it has a context image, a Qwen 2511 model, the
    output format [png] or [jpg], a sampler, a scheduler and a guidance;
    elevation and distance, where given, are keys of their tables, and so
    is the azimuth unless all angles are asked for; and a 360 video is
    only asked for together with [--angles-360] and with one image per
    angle. *)
Theorem multi_angle_request_is_complete e cs o o' w w' :
  multiAngle o = true ->
  compile e cs o w = (Proc.Return o', w') ->
  video o' = false
  /\ contextImages o' <> []
  /\ JS.includes (JS.or_empty (model o')) "qwen_image_edit_2511" = true
  /\ (outputFormat o' = Some "png" \/ outputFormat o' = Some "jpg")
  /\ JS.truthy_string (sampler o') = true
  /\ JS.truthy_string (scheduler o') = true
  /\ key_of elevation_keys (elevation o')
  /\ key_of distance_keys (distance o')
  /\ (angles360 o' = false -> key_of azimuth_keys (azimuth o'))
  /\ guidance o' <> None
  /\ (truthy_a360 (angles360Video o') = true -> angles360 o' = true /\ count o' = JS.Int 1).
Proof.
  intros Hm Hc. stages_of Hc. angle_case Hm.
  destruct o. options_cbn.
  destruct Hfmt as [_ Hfmt]. specialize (Hfmt Bf). rewrite Bv in Hfmt.
  destruct Hdef as (_ & Hmd & _). specialize (Hmd Bm). subst md.
  destruct Hli as (_ & Hci & _). specialize (Hci Bc).
  repeat split; try assumption.
  - apply Bg. destruct (CliSet.guidance cs) eqn:Eg; [left | now right].
    destruct Hnum as [_ Hn]. destruct (Hn eq_refl) as [r ->]. discriminate.
  - now apply Ba.
  - now apply Ba.
Qed.

Lemma length_zero {A} (l : list A) : List.length l = 0%nat -> l = [].
Proof. now destruct l. Qed.

(** X4.  What [main] can rely on once the options compile, whatever the
    request: a model is chosen; the token type, where there is one, is
    [spark] or [sogni]; the seed strategy, where there is one, is [random]
    or [prompt-hash]; [--steps] and [--guidance], where they were given,
    hold finite numbers; there are no LoRA strengths, or as many as LoRA
    ids; and [--last-image] has been consumed. *)
Theorem compiled_request_is_settled e cs o o' w w' :
  compile e cs o w = (Proc.Return o', w') ->
  JS.truthy_string (model o') = true
  /\ (JS.truthy_string (tokenType o') = true ->
      tokenType o' = Some "spark" \/ tokenType o' = Some "sogni")
  /\ (JS.truthy_string (seedStrategy o') = true ->
      seedStrategy o' = Some "random" \/ seedStrategy o' = Some "prompt-hash")
  /\ (CliSet.steps cs = true -> exists n, steps o' = Some (JS.Int n))
  /\ (CliSet.guidance cs = true -> exists r, guidance o' = Some (JS.Fin r))
  /\ (loraStrengths o' = [] \/ List.length (loraStrengths o') = List.length (loras o'))
  /\ JS.truthy_string (_lastImagePath o') = false.
Proof.
  intros Hc. stages_of Hc.
  destruct Hdef as (Hmd & _). destruct Hli as (Hl & _).
  destruct Hexc as (Hlen & _). destruct Hnum as (Hst & Hgu).
  destruct Hsd as (Hkeep & Hnew).
  assert (Hss : JS.truthy_string ssd = true ->
                ssd = Some "random" \/ ssd = Some "prompt-hash").
  { intros Ht. destruct (seed o12) eqn:Es; [|destruct (estimateVideoCost o12) eqn:Ee].
    - destruct Hkeep as [_ ->]; [left; discriminate|].
      destruct (multiAngle o) eqn:Hm; [angle_case Hm | plain_case Hm];
        options_cbn; auto.
    - destruct Hkeep as [_ ->]; [now right|].
      destruct (multiAngle o) eqn:Hm; [angle_case Hm | plain_case Hm];
        options_cbn; auto.
    - destruct (Hnew eq_refl eq_refl) as [[-> _] | [-> _]]; auto. }
  clear Hkeep Hnew.
  destruct (multiAngle o) eqn:Hm; [angle_case Hm | plain_case Hm];
    destruct o; options_cbn; repeat split; try assumption.
  intros Hg. destruct (Hgu Hg) as [r Hr]. exists r.
  rewrite Bk; [exact Hr | now right].
Qed.


(** X7.  A video request that compiles carries no image-only
    option: it is not a multi-angle request, it has no LoRA and no LoRA
    strength, neither sampler nor scheduler, its output format, where
    there is one, is [mp4], and its context images are left as given. *)
Theorem video_request_has_no_image_options e cs o o' w w' :
  video o = true ->
  compile e cs o w = (Proc.Return o', w') ->
  multiAngle o' = false
  /\ loras o' = [] /\ loraStrengths o' = []
  /\ JS.truthy_string (sampler o') = false
  /\ JS.truthy_string (scheduler o') = false
  /\ (JS.truthy_string (outputFormat o') = true -> outputFormat o' = Some "mp4")
  /\ contextImages o' = contextImages o.
Proof.
  intros Hv Hc. stages_of Hc.
  destruct (multiAngle o) eqn:Hm.
  { angle_case Hm. destruct o. options_cbn. congruence. }
  plain_case Hm. destruct o. options_cbn. subst.
  destruct Hexc as (Hlen & Hx & _). destruct (Hx eq_refl) as (Hl & Hsa & Hsc).
  destruct Hli as (_ & _ & Hci & _). destruct Hfmt as (Hf0 & Hf1).
  subst. cbn [List.length] in Hlen.
  repeat split; try assumption; auto.
  - destruct Hlen as [H|H]; [exact H | now apply length_zero].
  - intros Ht. destruct (JS.truthy_string outputFormat0) eqn:E; [now apply Hf1|].
    rewrite (Hf0 eq_refl) in Ht. congruence.
Qed.

(** X8.  An image request that compiles carries no video-only
    option: no cost estimate, no [--auto-resize-assets], no reference
    audio or video, no workflow, no frame count; its output format, where
    there is one, is [png] or [jpg]; and it has a prompt, unless it is a
    multi-angle request. *)
Theorem image_request_has_no_video_options e cs o o' w w' :
  video o = false ->
  compile e cs o w = (Proc.Return o', w') ->
  video o' = false
  /\ estimateVideoCost o' = false
  /\ autoResizeVideoAssets o' = None
  /\ JS.truthy_string (refAudio o') = false
  /\ JS.truthy_string (refVideo o') = false
  /\ JS.truthy_string (videoWorkflow o') = false
  /\ JS.truthy_optint (frames o') = false
  /\ (JS.truthy_string (outputFormat o') = true ->
      outputFormat o' = Some "png" \/ outputFormat o' = Some "jpg")
  /\ (JS.truthy_string (prompt o') = true \/ multiAngle o' = true).
Proof.
  intros Hv Hc. stages_of Hc.
  destruct Hfmt as (Hf0 & Hf1). destruct Hexc as (_ & _ & Hx & _).
  destruct Hpr as (Hp & Hq).
  assert (Hfm : video o4 = false -> JS.truthy_string fm = true ->
                fm = Some "png" \/ fm = Some "jpg").
  { intros Hv4 Ht. destruct (JS.truthy_string (outputFormat o4)) eqn:E.
    - specialize (Hf1 eq_refl). now rewrite Hv4 in Hf1.
    - rewrite (Hf0 eq_refl) in Ht. congruence. }
  clear Hf0 Hf1.
  destruct (multiAngle o) eqn:Hm; [angle_case Hm | plain_case Hm];
    destruct o; options_cbn; subst;
    destruct (Hx eq_refl) as (Hx1 & Hx2); destruct (Hq eq_refl) as (q1 & q2 & q3 & q4);
    repeat split; try assumption; auto;
    destruct Hp as [Hp | [Hp | Hp]]; auto; congruence.
Qed.

(** X9.  The context images of an image request that compiles
    fit the model that was chosen: the model takes context images, and at
    least as many as there are. *)
Theorem context_images_fit_the_model e cs o o' w w' :
  video o = false ->
  compile e cs o w = (Proc.Return o', w') ->
  contextImages o' <> [] ->
  getMaxContextImages e (model o') <> 0
  /\ Z.of_nat (List.length (contextImages o')) <= getMaxContextImages e (model o').
Proof.
  intros Hv Hc. stages_of Hc.
  destruct (multiAngle o) eqn:Hm; [angle_case Hm | plain_case Hm];
    destruct o; options_cbn; subst; exact (Hctx eq_refl).
Qed.

Lemma payload_ignores_seed s ss o :
  Seed.payload_of (set_seed s (set_seedStrategy ss o)) = Seed.payload_of o.
Proof. reflexivity. Qed.

(** X10.  The seed of a request that compiles.  The seed of the
    last render, where [--last-seed] finds one (and it is not 0), comes
    before [--seed]; such a seed is kept.  Without one a cost estimate
    has no seed; any other request gets one from its strategy: the random
    one, or the prompt-hash seed -- and this is the hash of the very
    options that [main] receives, a number in [0, 2^32). *)
Theorem compiled_seed e cs o o' w w' :
  compile e cs o w = (Proc.Return o', w') ->
  (forall s, last_seed e o = Some s -> seed o' = Some s)
  /\ (last_seed e o = None -> estimateVideoCost o = true -> seed o' = None)
  /\ (last_seed e o = None -> estimateVideoCost o = false ->
      (seedStrategy o' = Some "random" /\ seed o' = Some (JS.Int (randomSeed e)))
      \/ (seedStrategy o' = Some "prompt-hash"
          /\ seed o' = Some (JS.Int (Seed.computePromptHashSeed o'))
          /\ 0 <= Seed.computePromptHashSeed o' < 2 ^ 32)).
Proof.
  intros Hc. stages_of Hc.
  destruct Hsd as (Hkeep & Hnew).
  assert (Hseed : seed o12 = last_seed e o
                  /\ estimateVideoCost o12 = estimateVideoCost o).
  { unfold last_seed.
    destruct (multiAngle o) eqn:Hm; [angle_case Hm | plain_case Hm];
      destruct o; options_cbn; auto. }
  clear Hls.
  destruct Hseed as [Es Ee]. rewrite Es, Ee in *.
  assert (Ep : Seed.computePromptHashSeed o' = Seed.computePromptHashSeed
                                                (set_seedStrategy ssd o12)).
  { rewrite Eo'. unfold Seed.computePromptHashSeed. f_equal. }
  assert (Eso : seed o' = sd /\ seedStrategy o' = ssd) by (now rewrite Eo').
  destruct Eso as [Eso Esso]. rewrite Eso, Esso, Ep.
  split; [|split].
  - intros s Hs. destruct Hkeep as [-> _]; [left; congruence | exact Hs].
  - intros Hs Hce. destruct Hkeep as [-> _]; [now right | exact Hs].
  - intros Hs Hce. destruct (Hnew Hs Hce) as [H | [H1 H2]]; [now left | right].
    split; [exact H1|]. split; [exact H2|].
    apply SeedFacts.readUInt32BE0_range, SeedFacts.digest_bytes.
Qed.

(** X12.  Width, height and count of a request that compiles are
    those of the command line where they were given there, else those of
    the plugin configuration where it has them, else what the argument
    loop left.  The rate, the duration (also when [--frames] was given)
    and the timeout given on the command line are not touched either, by
    the configuration or by a default. *)
Theorem command_line_beats_configuration e cs o o' w w' :
  compile e cs o w = (Proc.Return o', w') ->
  width o' = pick (CliSet.width cs) (cfg e OpenClawConfig.defaultWidth) (width o)
  /\ height o' = pick (CliSet.height cs) (cfg e OpenClawConfig.defaultHeight) (height o)
  /\ count o' = pick (CliSet.count cs) (cfg e OpenClawConfig.defaultCount) (count o)
  /\ (CliSet.fps cs = true -> fps o' = fps o)
  /\ (CliSet.frames cs = true \/ CliSet.duration cs = true -> duration o' = duration o)
  /\ (CliSet.timeout cs = true -> timeout o' = timeout o).
Proof.
  intros Hc. stages_of Hc.
  destruct Hcfg as (_ & _ & _ & Hf & Hd & Htm). destruct Hdef as (_ & _ & Htd & _).
  destruct (multiAngle o) eqn:Hm; [angle_case Hm | plain_case Hm];
    destruct o; options_cbn; repeat split; auto;
    intros Ht; rewrite (Htd Ht); auto.
Qed.

(** X5.  The model of a request that compiles is the one
    given; else, for a multi-angle request, the Qwen 2511 lightning model
    (the edit model of the plugin configuration is not looked at); else
    the default of the request's type: for a video the model the
    configuration has for the workflow, else the built-in one of the
    workflow; with context images the configuration's edit model, else
    the Qwen 2511 lightning model; otherwise the configuration's image
    model, else [z_image_turbo_bf16]. *)
Theorem compiled_model e cs o o' w w' :
  compile e cs o w = (Proc.Return o', w') ->
  model o'
  = JS.or_string (model o)
      (if multiAngle o then Some "qwen_image_edit_2511_fp8_lightning"
       else type_default e o').
Proof.
  intros Hc. stages_of Hc.
  destruct Hdef as (_ & _ & _ & Hmd). clear Hsd Hpr Has Hctx.
  assert (Hlate : model o' = md /\ video o' = video o8
                  /\ videoWorkflow o' = videoWorkflow o8
                  /\ contextImages o' = contextImages o8).
  { rewrite Eo', Hls, Eod. repeat split. }
  assert (H84 : model o8 = model o4) by (rewrite Eo8, Eo7, Eo5; reflexivity).
  assert (H20 : model o2 = model o /\ multiAngle o2 = multiAngle o)
    by (rewrite Eo2, Eo1, Eoc; split; reflexivity).
  destruct H20 as [H20 Hm2].
  assert (H8 : model o8
               = if multiAngle o
                 then JS.or_string (model o) (Some "qwen_image_edit_2511_fp8_lightning")
                 else model o).
  { rewrite H84, <- Hm2, <- H20. destruct (multiAngle o2) eqn:Hm.
    - apply (Hblk1 eq_refl).
    - now rewrite (Hblk0 eq_refl). }
  destruct Hlate as (-> & Hv & Hw & Hci).
  unfold type_default. rewrite Hv, Hw, Hci, Hmd, H8.
  destruct (multiAngle o); [|reflexivity].
  apply or_string_left, or_string_truthy. reflexivity.
Qed.

(** X13.  What validation never rewrites: the prompt, the output
    path, the flags [--json], [--quiet], [--video], [--multi-angle],
    [--angles-360], [--angles-360-video], [--estimate-video-cost], the
    steps, the frame count, and the end image, audio and video
    references. *)
Theorem compile_keeps_the_request e cs o o' w w' :
  compile e cs o w = (Proc.Return o', w') ->
  prompt o' = prompt o /\ output o' = output o /\ json o' = json o
  /\ quiet o' = quiet o /\ video o' = video o /\ multiAngle o' = multiAngle o
  /\ angles360 o' = angles360 o /\ angles360Video o' = angles360Video o
  /\ estimateVideoCost o' = estimateVideoCost o /\ steps o' = steps o
  /\ frames o' = frames o /\ refImageEnd o' = refImageEnd o
  /\ refAudio o' = refAudio o /\ refVideo o' = refVideo o.
Proof.
  intros Hc. stages_of Hc.
  destruct (multiAngle o) eqn:Hm; [angle_case Hm | plain_case Hm];
    destruct o; options_cbn; repeat split; congruence.
Qed.

(** ** The theorems on concrete requests *)

Ltac run_compile :=
  eexists; eexists;
  match goal with
  | |- ?A /\ _ =>
      let E := fresh "E" in
      assert (E : A) by (vm_compute; reflexivity); split; [exact E|]
  end.

Lemma multi_angle_request_is_complete_witness :
  exists o' w',
    compile Examples.env CliSet.none Examples.angle_with_sketch Proc.start
    = (Proc.Return o', w')
    /\ model o' = Some "qwen_image_edit_2511_fp8_lightning"
    /\ outputFormat o' = Some "jpg"
    /\ JS.includes (JS.or_empty (model o')) "qwen_image_edit_2511" = true
    /\ guidance o' <> None.
Proof.
  run_compile. split; [reflexivity|]. split; [reflexivity|].
  destruct (multi_angle_request_is_complete Examples.env CliSet.none
              Examples.angle_with_sketch _ Proc.start _ eq_refl E)
    as (_ & _ & Hq & _ & _ & _ & _ & _ & _ & Hg & _).
  split; [exact Hq | exact Hg].
Defined.

Lemma compiled_request_is_settled_witness :
  exists o' w',
    compile Examples.env CliSet.none Examples.a_cat Proc.start = (Proc.Return o', w')
    /\ model o' = Some "z_image_turbo_bf16"
    /\ JS.truthy_string (model o') = true.
Proof.
  run_compile. split; [reflexivity|].
  exact (proj1 (compiled_request_is_settled Examples.env CliSet.none Examples.a_cat
                  _ Proc.start _ E)).
Defined.


Lemma video_request_has_no_image_options_witness :
  exists o' w',
    compile Examples.env Examples.video_500x512_set Examples.video_500x512 Proc.start
    = (Proc.Return o', w')
    /\ multiAngle o' = false /\ loras o' = [].
Proof.
  run_compile.
  destruct (video_request_has_no_image_options Examples.env Examples.video_500x512_set
              Examples.video_500x512 _ Proc.start _ eq_refl E)
    as (Hm & Hl & _).
  split; [exact Hm | exact Hl].
Defined.

Lemma image_request_has_no_video_options_witness :
  exists o' w',
    compile Examples.env CliSet.none Examples.a_cat Proc.start = (Proc.Return o', w')
    /\ video o' = false /\ estimateVideoCost o' = false
    /\ JS.truthy_string (videoWorkflow o') = false.
Proof.
  run_compile.
  destruct (image_request_has_no_video_options Examples.env CliSet.none Examples.a_cat
              _ Proc.start _ eq_refl E)
    as (Hv & He & _ & _ & _ & Hw & _).
  split; [exact Hv|]. split; [exact He | exact Hw].
Defined.

Lemma context_images_fit_the_model_witness :
  exists o' w',
    compile Examples.env CliSet.none Examples.angle_with_sketch Proc.start
    = (Proc.Return o', w')
    /\ contextImages o' = ["subject.jpg"]
    /\ Z.of_nat (List.length (contextImages o'))
       <= getMaxContextImages Examples.env (model o').
Proof.
  run_compile. split; [reflexivity|].
  apply (context_images_fit_the_model Examples.env CliSet.none Examples.angle_with_sketch
           _ Proc.start _ eq_refl E).
  discriminate.
Defined.

Lemma compiled_seed_witness :
  exists o' w',
    compile Examples.env CliSet.none Examples.a_cat Proc.start = (Proc.Return o', w')
    /\ seedStrategy o' = Some "prompt-hash"
    /\ seed o' = Some (JS.Int (Seed.computePromptHashSeed o')).
Proof.
  run_compile. split; [reflexivity|].
  destruct (compiled_seed Examples.env CliSet.none Examples.a_cat _ Proc.start _ E)
    as (_ & _ & H).
  destruct (H eq_refl eq_refl) as [[H1 _] | (_ & H2 & _)]; [discriminate H1 | exact H2].
Defined.

Lemma command_line_beats_configuration_witness :
  exists o' w',
    compile Examples.env Examples.video_500x512_set Examples.video_500x512 Proc.start
    = (Proc.Return o', w')
    /\ width o' = JS.Int 500 /\ height o' = JS.Int 512.
Proof.
  run_compile.
  destruct (command_line_beats_configuration Examples.env Examples.video_500x512_set
              Examples.video_500x512 _ Proc.start _ E)
    as (Hw & Hh & _).
  split; [exact Hw | exact Hh].
Defined.

Lemma compiled_model_witness :
  exists o' w',
    compile Examples.env CliSet.none Examples.angle_with_sketch Proc.start
    = (Proc.Return o', w')
    /\ model o' = Some "qwen_image_edit_2511_fp8_lightning".
Proof.
  run_compile.
  exact (compiled_model Examples.env CliSet.none Examples.angle_with_sketch
           _ Proc.start _ E).
Defined.

Lemma compile_keeps_the_request_witness :
  exists o' w',
    compile Examples.env CliSet.none Examples.spin Proc.start = (Proc.Return o', w')
    /\ prompt o' = Some "studio portrait" /\ angles360 o' = true
    /\ angles360Video o' = VideoFlag.
Proof.
  run_compile.
  destruct (compile_keeps_the_request Examples.env CliSet.none Examples.spin
              _ Proc.start _ E)
    as (Hp & _ & _ & _ & _ & _ & Ha & Hv & _).
  split; [exact Hp|]. split; [exact Ha | exact Hv].
Defined.

End CompileTheorems.

(* ------------------------------------------------------------------ *)
(** * How the request compiler fails *)

Module ExitFacts.
Import Cli Compile Proc.
Local Open Scope list_scope.



























End ExitFacts.

(* ------------------------------------------------------------------ *)
(** * How [main] ends *)

Module MainExitFacts.
Import Cli Proc.
Local Open Scope list_scope.


















Section WithSurroundings.
Variable env : Compile.Env.
Variable client : Client.t.
Variable node : Node.t.
Variable options : Options.























End WithSurroundings.


End MainExitFacts.

(* ------------------------------------------------------------------ *)
(** * What [runImageEditProjectWithEvents] can hand back *)

Module EditSafety.
Import Events EditRun TableFacts.
Local Open Scope list_scope.

Section Safety.
Variable run : nat.
Variable expectedCount timeoutMs : JS.jsint.
Variable label : option string.
Variable client : Listeners.
Hypothesis fresh : owned_by run client = [].








End Safety.

Section Outcomes.
Variable run : nat.
Variable expectedCount timeoutMs : JS.jsint.
Variable label : option string.

(** Why the promise can be rejected: the timeout, the submission's own
    error, or a failure event with its message. *)
Definition reason (all : list Stimulus) (m : string) : Prop :=
  m = timeout_message timeoutMs
  \/ In (SubmitRejected m) all
  \/ exists d, In (Emit JOB_FAILED d) all
               /\ m = JS.or_empty (JS.or_string (JobEvent.error d) (Some "Job failed")).

Definition explained (all : list Stimulus) (s : state) : Prop :=
  (forall m, completion s = Rejected m -> reason all m)
  /\ (forall e, submission s = Failed e -> In (SubmitRejected e) all).

Lemma settle_rejected p v m :
  settle p v = Rejected m -> p = Rejected m \/ (p = Pending /\ v = Rejected m).
Proof. destruct p; simpl; intros H; auto. Qed.

Lemma step_explained all s x :
  In x all -> explained all s ->
  explained all (EditRun.step run expectedCount timeoutMs label s x).
Proof.
  intros Hx Hall. pose proof Hall as [Hc Hs].
  destruct x as [[| |] d | p | | id | e]; cbn [EditRun.step]; try exact Hall.
  - destruct (registered _ _ _); [|exact Hall].
    unfold onCompleted. destruct (foreign s d); [exact Hall|]. cbv zeta.
    destruct (JS.geb _ _); [|exact Hall].
    split; cbn; [|exact Hs].
    intros m H. apply settle_rejected in H as [H | [_ H]]; [auto | discriminate].
  - destruct (registered _ _ _); [|exact Hall].
    unfold onFailed. destruct (foreign s d); [exact Hall|].
    split; cbn; [|exact Hs].
    intros m H. apply settle_rejected in H as [H | [_ H]]; [auto|].
    injection H as <-. right. right. eauto.
  - destruct (timer s); [|exact Hall].
    split; cbn; [|exact Hs].
    intros m H. apply settle_rejected in H as [H | [_ H]]; [auto|].
    injection H as <-. now left.
  - destruct (submission s) eqn:E; try exact Hall.
    split; cbn; [exact Hc | discriminate].
  - destruct (submission s) eqn:E; try exact Hall.
    split; cbn; [exact Hc|]. intros e' [= <-]. exact Hx.
Qed.

Lemma feed_explained all l : forall s,
  incl l all -> explained all s ->
  explained all (EditRun.feed run expectedCount timeoutMs label s l).
Proof.
  induction l as [|x l IH]; simpl; intros s Hl Hs; [exact Hs|].
  destruct (is_pending (outcome s)); [|exact Hs].
  apply IH.
  - intros y Hy. apply Hl. now right.
  - apply step_explained; [apply Hl; now left | exact Hs].
Qed.

(** X17.  When the promise of [runImageEditProjectWithEvents] is
    rejected, the message is [Timeout after ...s], or the message of the
    submission that threw, or the error of a failure event that arrived
    ([Job failed] where the event has none). *)
Theorem edit_run_rejection_has_a_reason client stimuli m :
  outcome (runImageEditProjectWithEvents run expectedCount timeoutMs label client stimuli)
  = Rejected m ->
  reason stimuli m.
Proof.
  intros Hout.
  assert (H : explained stimuli
                (runImageEditProjectWithEvents run expectedCount timeoutMs label
                   client stimuli)).
  { apply feed_explained; [apply incl_refl|]. split; discriminate. }
  destruct H as [Hc Hs]. unfold outcome in Hout.
  destruct (submission _) eqn:E; [discriminate | now apply Hc |].
  injection Hout as <-. right. left. now apply Hs.
Qed.

(** *** The timeout settles what nothing else has settled *)

Definition answer (x : Stimulus) : bool :=
  match x with
  | SubmitResolved _ | SubmitRejected _ => true
  | _ => false
  end.

(** The timer is armed, or the promise is settled, or the submission
    threw. *)
Definition guarded (s : state) : Prop :=
  timer s = true \/ completion s <> Pending \/ exists e, submission s = Failed e.

Lemma settle_settled p v : v <> Pending -> settle p v <> Pending.
Proof. destruct p; simpl; auto; discriminate. Qed.

Lemma step_guarded s x :
  guarded s -> guarded (EditRun.step run expectedCount timeoutMs label s x).
Proof.
  intros Hg.
  destruct x as [[| |] d | p | | id | e]; cbn [EditRun.step]; try exact Hg.
  - destruct (registered _ _ _); [|exact Hg].
    unfold onCompleted. destruct (foreign s d); [exact Hg|]. cbv zeta.
    destruct (JS.geb _ _).
    + right. left. cbn. apply settle_settled. discriminate.
    + exact Hg.
  - destruct (registered _ _ _); [|exact Hg].
    unfold onFailed. destruct (foreign s d); [exact Hg|].
    right. left. cbn. apply settle_settled. discriminate.
  - destruct (timer s); [|exact Hg].
    right. left. cbn. apply settle_settled. discriminate.
  - destruct (submission s) eqn:E; try exact Hg.
    destruct Hg as [H | [H | [e H]]]; [now left | right; now left | congruence].
  - destruct (submission s) eqn:E; try exact Hg.
    right. right. cbn. eauto.
Qed.

Lemma feed_guarded l : forall s,
  guarded s -> guarded (EditRun.feed run expectedCount timeoutMs label s l).
Proof.
  induction l as [|x l IH]; simpl; intros s Hs; [exact Hs|].
  destruct (is_pending (outcome s)); [|exact Hs].
  apply IH. now apply step_guarded.
Qed.

Lemma step_answered s x :
  submission s <> InFlight \/ answer x = true ->
  submission (EditRun.step run expectedCount timeoutMs label s x) <> InFlight.
Proof.
  intros H.
  destruct x as [[| |] d | p | | id | e]; cbn [EditRun.step];
    (destruct H as [H | H]; [|try discriminate H]).
  - destruct (registered _ _ _); [|exact H]. unfold onCompleted.
    destruct (foreign s d); [exact H|]. cbv zeta. destruct (JS.geb _ _); exact H.
  - destruct (registered _ _ _); [|exact H]. unfold onFailed.
    destruct (foreign s d); exact H.
  - exact H.
  - exact H.
  - destruct (timer s); exact H.
  - destruct (submission s) eqn:E; cbn; congruence.
  - destruct (submission s) eqn:E; cbn; congruence.
  - destruct (submission s) eqn:E; cbn; congruence.
  - destruct (submission s) eqn:E; cbn; congruence.
Qed.

Lemma feed_answered l : forall s,
  submission s <> InFlight \/ existsb answer l = true ->
  submission (EditRun.feed run expectedCount timeoutMs label s l) <> InFlight.
Proof.
  induction l as [|x l IH]; simpl; intros s H.
  - destruct H as [H | H]; [exact H | discriminate].
  - destruct (is_pending (outcome s)) eqn:Ep.
    + apply IH. destruct H as [H | H].
      * left. apply step_answered. now left.
      * apply orb_true_iff in H as [H | H]; [|now right].
        left. apply step_answered. now right.
    + unfold outcome in Ep. now destruct (submission s).
Qed.

Lemma feed_stops s l :
  is_pending (outcome s) = false ->
  EditRun.feed run expectedCount timeoutMs label s l = s.
Proof. intros H. destruct l; simpl; [reflexivity | now rewrite H]. Qed.

Lemma feed_append l1 l2 : forall s,
  EditRun.feed run expectedCount timeoutMs label s (l1 ++ l2)
  = EditRun.feed run expectedCount timeoutMs label
      (EditRun.feed run expectedCount timeoutMs label s l1) l2.
Proof.
  induction l1 as [|x l1 IH]; intros s; [reflexivity|]. simpl.
  destruct (is_pending (outcome s)) eqn:E; [apply IH|].
  now rewrite feed_stops.
Qed.

(** X18.  Once the submission has returned or thrown,
    [runImageEditProjectWithEvents] does not wait beyond the timeout:
    after the timer has fired the promise is resolved or rejected. *)
Theorem edit_run_is_settled_by_the_timeout client stimuli :
  existsb answer stimuli = true ->
  outcome (runImageEditProjectWithEvents run expectedCount timeoutMs label client
             (stimuli ++ [TimerFired]))
  <> Pending.
Proof.
  intros Ha. unfold runImageEditProjectWithEvents. rewrite feed_append.
  set (s := EditRun.feed run expectedCount timeoutMs label (start run client) stimuli).
  assert (Hg : guarded s) by (apply feed_guarded; left; reflexivity).
  assert (Hs : submission s <> InFlight) by (apply feed_answered; now right).
  simpl. destruct (is_pending (outcome s)) eqn:Ep.
  2:{ intros H. rewrite H in Ep. discriminate. }
  unfold outcome in Ep. destruct (submission s) eqn:Es; [now elim Hs | | discriminate].
  destruct (completion s) eqn:Ec; try discriminate.
  destruct Hg as [Ht | [Hc | [e He]]]; [|now elim Hc | congruence].
  rewrite Ht. unfold outcome, onTimeout. cbn. rewrite Es, Ec. discriminate.
Qed.

End Outcomes.


Lemma edit_run_rejection_has_a_reason_witness :
  outcome (runImageEditProjectWithEvents 2 (JS.Int 1) (JS.Int 30000) None []
             (Client.stimuli Examples.client_angle_3_fails 2))
  = Rejected "NSFW filter"
  /\ reason (JS.Int 30000) (Client.stimuli Examples.client_angle_3_fails 2) "NSFW filter".
Proof.
  match goal with
  | |- ?A /\ _ => assert (E : A) by (vm_compute; reflexivity)
  end.
  split; [exact E|].
  exact (edit_run_rejection_has_a_reason 2 (JS.Int 1) (JS.Int 30000) None []
           (Client.stimuli Examples.client_angle_3_fails 2) "NSFW filter" E).
Defined.

Lemma edit_run_is_settled_by_the_timeout_witness :
  outcome (runImageEditProjectWithEvents 0 (JS.Int 1) (JS.Int 30000) None []
             ([SubmitResolved (Some "project-1")] ++ [TimerFired]))
  <> Pending.
Proof.
  exact (edit_run_is_settled_by_the_timeout 0 (JS.Int 1) (JS.Int 30000) None []
           [SubmitResolved (Some "project-1")] eq_refl).
Defined.

End EditSafety.

(* ------------------------------------------------------------------ *)
(** * The angle loop and the path of the 360 video *)

Module AngleFacts.
Import Cli Proc.

(** ** Strings *)

Lemma string_rev_append a b : JS.string_rev (a ++ b) = JS.string_rev b ++ JS.string_rev a.
Proof.
  induction a as [|x a IH]; simpl.
  - now rewrite JsonFacts.append_nil_r.
  - now rewrite IH, JsonFacts.append_assoc.
Qed.

Lemma toLowerCase_append a b :
  JS.toLowerCase (a ++ b) = JS.toLowerCase a ++ JS.toLowerCase b.
Proof. induction a as [|x a IH]; simpl; [reflexivity | now rewrite IH]. Qed.

Lemma startsWith_append p s : JS.startsWith (p ++ s) p = true.
Proof.
  induction p as [|c p IH]; simpl; [now destruct s|].
  now rewrite Ascii.eqb_refl, IH.
Qed.

Lemma endsWith_append s suffix : Flow.endsWith (s ++ suffix) suffix = true.
Proof. unfold Flow.endsWith. rewrite string_rev_append. apply startsWith_append. Qed.

Lemma startsWith_refl s : JS.startsWith s s = true.
Proof. induction s as [|c s IH]; simpl; [reflexivity | now rewrite Ascii.eqb_refl]. Qed.

Lemma join_starts sep x l : JS.startsWith (JS.join sep (x :: l)) x = true.
Proof.
  destruct l as [|y l]; [apply startsWith_refl|].
  change (JS.join sep (x :: y :: l)) with (x ++ sep ++ JS.join sep (y :: l)).
  apply startsWith_append.
Qed.

(** X20.  The prompt of an angle starts with [<sks>], the trigger
    of the [multiple_angles] LoRA, whatever the azimuth, the elevation,
    the distance and the description are. *)
Theorem angle_prompt_starts_with_the_trigger azimuth elevation distance description :
  JS.startsWith (Compile.buildMultiAnglePrompt azimuth elevation distance description)
    "<sks>" = true.
Proof.
  unfold Compile.buildMultiAnglePrompt. cbv zeta.
  match goal with
  | |- context [filter JS.truthy_string (Some "<sks>" :: ?r)] =>
      change (filter JS.truthy_string (Some "<sks>" :: r))
        with (Some "<sks>" :: filter JS.truthy_string r);
      generalize (filter JS.truthy_string r)
  end.
  intros rest.
  destruct (JS.truthy_string (Some description));
    cbn [app map JS.or_empty]; apply join_starts.
Qed.

Local Open Scope list_scope.

Section Flows.
Variable env : Compile.Env.
Variable client : Client.t.
Variable node : Node.t.
Variable options : Options.

(** X21.  The 360 video is written to a path that ends in [.mp4],
    whatever the case of the letters; there is such a path exactly when
    [--angles-360-video] was given. *)
Theorem video_path_ends_in_mp4 :
  (truthy_a360 (angles360Video options) = true <->
   Flow.videoOutputPath node options <> None)
  /\ forall p, Flow.videoOutputPath node options = Some p ->
               Flow.endsWith (JS.toLowerCase p) ".mp4" = true.
Proof.
  unfold Flow.videoOutputPath.
  destruct (truthy_a360 (angles360Video options)).
  - cbv zeta. split; [split; [discriminate | reflexivity]|].
    intros p [= <-].
    match goal with
    | |- context [if Flow.endsWith (JS.toLowerCase ?x) ".mp4" then _ else _] =>
        destruct (Flow.endsWith (JS.toLowerCase x) ".mp4") eqn:E; [exact E|];
        rewrite toLowerCase_append; apply endsWith_append
    end.
  - split; [split; [discriminate | intros H; now elim H] | discriminate].
Qed.

(** ** The angle loop *)

(** The image-edit projects among the calls, in order. *)
Definition edit_projects (cs : list Call) : list EditProject.config :=
  flat_map (fun c => match c with CreateImageEditProject e => [e] | _ => [] end) cs.

Lemma edit_projects_app a b : edit_projects (a ++ b) = edit_projects a ++ edit_projects b.
Proof. unfold edit_projects. apply flat_map_app. Qed.

(** A step that asks nothing of the client. *)
Definition silent {A} (m : M A) : Prop :=
  forall w out w', m w = (out, w') -> calls w' = calls w.

Lemma silent_ret {A} (a : A) : silent (ret a).
Proof. intros w out w' [= _ <-]. reflexivity. Qed.

Lemma silent_throw {A} e : silent (@throw A e).
Proof. intros w out w' [= _ <-]. reflexivity. Qed.

Lemma silent_stuck {A} : silent (@stuck A).
Proof. intros w out w' [= _ <-]. reflexivity. Qed.

Lemma silent_console_error line : silent (console_error line).
Proof. intros w out w' [= _ <-]. reflexivity. Qed.

Lemma silent_writeFile path : silent (writeFile path).
Proof. intros w out w' [= _ <-]. reflexivity. Qed.

Lemma silent_set_listeners l : silent (set_listeners l).
Proof. intros w out w' [= _ <-]. reflexivity. Qed.

Lemma silent_bind {A B} (m : M A) (k : A -> M B) :
  silent m -> (forall a, silent (k a)) -> silent (bind m k).
Proof.
  intros Hm Hk w out w' E. unfold bind in E.
  destruct (m w) as [[a|e|c|] w1] eqn:Em.
  - rewrite (Hk _ _ _ _ E). exact (Hm _ _ _ Em).
  - injection E as _ <-. exact (Hm _ _ _ Em).
  - injection E as _ <-. exact (Hm _ _ _ Em).
  - injection E as _ <-. exact (Hm _ _ _ Em).
Qed.

Lemma silent_log line : silent (Flow.log options line).
Proof.
  unfold Flow.log. destruct (quiet options); [apply silent_ret | apply silent_console_error].
Qed.

Lemma silent_each_log l : silent (each (Flow.log options) l).
Proof.
  induction l as [|x l IH]; simpl; [apply silent_ret|].
  apply silent_bind; [apply silent_log | intros _; exact IH].
Qed.

Lemma silent_download url path : silent (Flow.downloadUrlToFile client url path).
Proof.
  unfold Flow.downloadUrlToFile.
  destruct (Client.fetch client url);
    [apply silent_writeFile | apply silent_throw | apply silent_throw].
Qed.

Lemma silent_saveAngle oc name many urls :
  forall i, silent (Flow.saveAngle client node options oc name many i urls).
Proof.
  induction urls as [|u urls IH]; intros i; simpl; [apply silent_ret|].
  apply silent_bind; [apply silent_download | intros _].
  apply silent_bind; [apply IH | intros; apply silent_ret].
Qed.

(** One image-edit job asks for one project. *)
Lemma runEdit_calls c label w out w' :
  Flow.runEdit client options c label w = (out, w') ->
  calls w' = calls w ++ [CreateImageEditProject c].
Proof.
  unfold Flow.runEdit, bind, fresh_run, get_listeners, call. cbn [calls listeners runs].
  cbv zeta.
  match goal with
  | |- context [set_listeners ?l ?w0] => set (w1 := snd (set_listeners l w0))
  end.
  unfold set_listeners. cbn [calls].
  intros E.
  match type of E with
  | (let (o, w') := each (Flow.log options) ?l ?w0 in _) = _ =>
      destruct (each (Flow.log options) l w0) as [[[]|e|x|] w2] eqn:El;
      pose proof (silent_each_log _ _ _ _ El) as Hl; cbn [calls] in Hl
  end.
  - destruct (EditRun.outcome _); injection E as _ <-; exact Hl.
  - injection E as _ <-. exact Hl.
  - injection E as _ <-. exact Hl.
  - injection E as _ <-. exact Hl.
Qed.

(** The edit project of one azimuth. *)
Definition angle_project (cb : Buffer) (a : option string) : EditProject.config :=
  Flow.angleEditConfig env options cb
    (Compile.buildMultiAnglePrompt a (elevation options) (distance options)
       (angleDescription options)).

Lemma runAngle_spec cb oc a w r w' :
  Flow.runAngle env client node options cb oc a w = (Return r, w') ->
  Flow.ar_azimuth (fst r) = a
  /\ calls w' = calls w ++ [CreateImageEditProject (angle_project cb a)].
Proof.
  unfold Flow.runAngle. cbv zeta. intros E. unfold bind at 1 in E.
  destruct (Flow.runEdit _ _ _ _ w) as [[results|e|x|] w1] eqn:Ee; try discriminate.
  apply runEdit_calls in Ee. unfold bind in E.
  match type of E with
  | (let (o, w') := ?m w1 in _) = _ =>
      assert (Hs : silent m)
        by (destruct oc as [c|]; [destruct a as [n|];
                                  [apply silent_saveAngle | apply silent_throw]
                                 | apply silent_ret]);
      destruct (m w1) as [[frames|e|x|] w2] eqn:Es; try discriminate;
      apply Hs in Es
  end.
  injection E as <- <-. cbn [fst Flow.ar_azimuth].
  split; [reflexivity|]. rewrite Es. exact Ee.
Qed.

Lemma runAngles_spec cb oc azimuths : forall w r w',
  Flow.runAngles env client node options cb oc azimuths w = (Return r, w') ->
  map Flow.ar_azimuth (fst r) = azimuths
  /\ calls w' = calls w ++ map (fun a => CreateImageEditProject (angle_project cb a))
                              azimuths.
Proof.
  induction azimuths as [|a rest IH]; intros w r w' E.
  - injection E as <- <-. simpl. now rewrite app_nil_r.
  - cbn [Flow.runAngles] in E. unfold bind at 1 in E.
    destruct (Flow.runAngle _ _ _ _ _ _ a w) as [[r1|e|x|] w1] eqn:E1; try discriminate.
    apply runAngle_spec in E1 as [Ha Hc]. unfold bind in E.
    destruct (Flow.runAngles _ _ _ _ _ _ rest w1) as [[rs|e|x|] w2] eqn:E2;
      try discriminate.
    apply IH in E2 as [Hr Hcs]. injection E as <- <-. cbn [fst map].
    split; [now rewrite Ha, Hr|].
    rewrite Hcs, Hc, <- app_assoc. reflexivity.
Qed.

(** X19.  When the angle loop comes to its end, it has asked the
    client for one image-edit project per azimuth, in the order of the
    azimuths and each with the prompt of its azimuth, and for nothing
    else; the results are in that order too.  A 360 request has the eight
    azimuths of the table, any other request the one azimuth of the
    options. *)
Theorem angles_are_run_in_order cb w r w' :
  Flow.runAngles env client node options cb (Flow.outputConfig node options)
    (Flow.angleAzimuths options) w
  = (Return r, w') ->
  map Flow.ar_azimuth (fst r) = Flow.angleAzimuths options
  /\ calls w' = calls w ++ map (fun a => CreateImageEditProject (angle_project cb a))
                              (Flow.angleAzimuths options)
  /\ (angles360 options = true ->
      Flow.angleAzimuths options
      = map Some ["front"; "front-right"; "right"; "back-right"; "back"; "back-left";
                  "left"; "front-left"]%string)
  /\ (angles360 options = false -> Flow.angleAzimuths options = [azimuth options]).
Proof.
  intros E. destruct (runAngles_spec _ _ _ _ _ _ E) as [Hr Hc].
  split; [exact Hr|]. split; [exact Hc|].
  unfold Flow.angleAzimuths. split; intros ->; reflexivity.
Qed.

End Flows.

Lemma angles_are_run_in_order_witness :
  exists r w',
    Flow.runAngles Examples.env Examples.client Examples.node Examples.spin_compiled
      (BufferOf "subject.jpg")
      (Flow.outputConfig Examples.node Examples.spin_compiled)
      (Flow.angleAzimuths Examples.spin_compiled) Proc.start
    = (Return r, w')
    /\ List.length (fst r) = 8%nat
    /\ List.length (calls w') = 8%nat.
Proof.
  eexists. eexists.
  match goal with
  | |- ?A /\ _ => assert (E : A) by (vm_compute; reflexivity)
  end.
  split; [exact E|].
  destruct (angles_are_run_in_order Examples.env Examples.client Examples.node
              Examples.spin_compiled _ _ _ _ E) as (Hr & Hc & H360 & _).
  split.
  - rewrite <- (length_map Flow.ar_azimuth), Hr, (H360 eq_refl). reflexivity.
  - rewrite Hc, (H360 eq_refl). reflexivity.
Defined.

End AngleFacts.

Module ParseFacts.
Import Parse.

(** ** Strings *)

Fixpoint has (c : ascii) (s : string) : bool :=
  match s with
  | EmptyString => false
  | String x r => Ascii.eqb x c || has c r
  end.




(** The first character is white space. *)
Definition leads (s : string) : bool :=
  match s with
  | String c _ => JS.is_space c
  | EmptyString => false
  end.






Lemma leads_append a b : a <> "" -> leads (a ++ b) = leads a.
Proof. destruct a; [congruence | reflexivity]. Qed.





(** ** [split] *)

Lemma split_not_nil sep s : split sep s <> [].
Proof.
  induction s as [|c s IH]; simpl; [discriminate|].
  destruct (Ascii.eqb c sep); [discriminate|].
  destruct (split sep s); [contradiction | discriminate].
Qed.





(** ** [parseCsv] *)

(** An entry as [parseCsv] hands it out: not empty, no white space at
    either end, no comma. *)
Definition entry (e : string) : Prop :=
  e <> "" /\ JS.trim e = e /\ has ","%char e = false.





(** ** The credentials file *)

Import Credentials.







End ParseFacts.
